(** * The L2CAP LE test-control facade (system/gd/l2cap/le/facade.cc)

    A shallow embedding of [L2capLeModuleFacadeService] and of its nested
    [L2capDynamicChannelHelper].  The facade is driven from three execution
    contexts: the control-call thread, the facade handler that runs the
    channel manager's completion callbacks, and the streaming consumer.
    The embedding is sequentialised: a control call that blocks in
    [wait_for] hands the processor to an agenda of timed activities of the
    other contexts, and takes it back when its predicate holds or its
    budget of milliseconds is used up.  An activity is a callback, or one
    of the two parts of a callback that a waiting control call can cut in
    two: the part up to the notification that wakes the call, and the
    part after it.

    A null dereference, a failed ASSERT and a second acquisition of a held
    mutex have no continuation: operations return [None] there. *)

From Stdlib Require Import Ascii String ZArith NArith Lia.
From stdpp Require Import base option list gmap.

Local Open Scope Z_scope.
Local Open Scope nat_scope.

(** ** Values exchanged with the driver *)

(** [Psm] (l2cap/psm.h), the key of the registry. *)
Definition Psm := N.
Bind Scope N_scope with Psm.
(** [std::vector<uint8_t>], and the bytes of a protobuf [bytes] field. *)
Definition Payload := list Byte.byte.

(** The two [::grpc::StatusCode]s the service returns. *)
Inductive StatusCode := OK | FAILED_PRECONDITION.

Record Status := { error_code : StatusCode; error_message : string }.

Definition Status_OK : Status :=
  {| error_code := OK; error_message := EmptyString |}.
Definition Psm_not_registered : Status :=
  {| error_code := FAILED_PRECONDITION; error_message := "Psm not registered" |}.
Definition Channel_not_open : Status :=
  {| error_code := FAILED_PRECONDITION; error_message := "Channel not open" |}.

(** The event of [FetchL2capData]: [set_psm] and [set_payload]. *)
Record L2capPacket := { psm : Psm; payload : Payload }.

(** ** The collaborators' data, as far as the facade touches it *)

(** [DynamicChannelManager::ConnectionResult]: the facade reads one field
    of it and casts that field to [int]. *)
Record ConnectionResult := { l2cap_connection_response_result : Z }.

(** [DynamicChannelManager::RegistrationResult]: the facade tells
    [SUCCESS] from everything else. *)
Inductive RegistrationResult :=
| SUCCESS
| RegistrationResult_other (code : nat).

(** [hci::Address], six octets. *)
Definition Address := N.

(** What the helper has asked of the channel manager of the L2CAP layer. *)
Inductive ManagerRequest :=
| RegisterService (p : Psm)
| ConnectChannel (address : Address) (p : Psm).

(** The callable handed to [RegisterEnqueue]: [enqueue_callback] bound to
    its packet and to the promise of the [SendPacket] that made it. *)
Definition EnqueueCallback : Type := Payload * nat.

(** The [DynamicChannelService] handed over when a registration
    completes: whether [Unregister] has been called on it. *)
Record DynamicChannelService := { unregister_requested : bool }.

(** A [DynamicChannel] with the up end of its queue: what has been asked
    of it, the inbound units it has buffered, the callable registered for
    enqueueing and the units that callables have handed to it. *)
Record DynamicChannel := {
  close_requested : bool;
  on_close_registered : bool;
  dequeue_registered : bool;
  rx_buffer : list Payload;
  enqueue_registered : option EnqueueCallback;
  tx_buffer : list Payload
}.

Definition fresh_channel : DynamicChannel :=
  {| close_requested := false; on_close_registered := false;
     dequeue_registered := false; rx_buffer := [];
     enqueue_registered := None; tx_buffer := [] |}.

(** What is declared outside facade.cc and decided there. *)
Class Collaborators := {
  (** [hci::Address::FromString]: the parsed address, or failure. *)
  Address_FromString : string -> option Address;
  (** The value of a default-initialised [ConnectionResult]. *)
  ConnectionResult_default : ConnectionResult;
  (** [RegisterEnqueue] on a queue end that already holds a callable:
      the one callable it holds afterwards, the other being let go of,
      or [None] when the call does not return. *)
  RegisterEnqueue_occupied :
    EnqueueCallback -> EnqueueCallback -> option EnqueueCallback;
  (** [packet::RawBuilder(max_bytes)] followed by [AddOctets(octets)]:
      the octets the builder holds. *)
  RawBuilder_AddOctets : nat -> Payload -> Payload
}.

(** ** The helper and the service *)

Record L2capDynamicChannelHelper := {
  psm_ : Psm;
  service_ : option DynamicChannelService;
  channel_ : option DynamicChannel;
  channel_open_fail_reason_ : ConnectionResult;
  (** [channel_open_cv_mutex_]: [true] while some context holds it. *)
  channel_open_cv_mutex_ : bool;
  (** Instrumentation: one entry per assignment to [channel_], telling
      whether [channel_open_cv_mutex_] was held when it was made. *)
  channel_writes : list bool
}.

(** Modelled from the spec: [GrpcEventQueue] (grpc/grpc_event_queue.h) is
    not part of facade.cc.  The Event Relay is "a single ordered, blocking
    multi-producer/single-consumer queue"; the streaming call "drains the
    queue and forwards events to the test driver in publish order".
    [published] records every event ever handed to [OnIncomingEvent]. *)
Record GrpcEventQueue := {
  pending : list L2capPacket;
  written : list L2capPacket;
  published : list L2capPacket
}.

Record L2capLeModuleFacadeService := {
  (** the requests made so far to the channel manager of [l2cap_layer_] *)
  l2cap_layer_ : list ManagerRequest;
  channel_map_mutex_ : bool;
  dynamic_channel_helper_map_ : gmap Psm L2capDynamicChannelHelper;
  pending_l2cap_data_ : GrpcEventQueue
}.

(** ** Activities of the other execution contexts *)

Inductive Activity :=
| do_registration_complete (this : Psm) (r : RegistrationResult)
                           (s : DynamicChannelService)
| do_connection_open (this : Psm) (channel : DynamicChannel)
| do_close_callback (this : Psm) (error_code : Z)
| do_connect_fail (this : Psm) (result : ConnectionResult)
| do_incoming_packet (this : Psm)
| do_enqueue_callback (this : Psm) (packet : Payload) (promise : nat)
| do_receive (this : Psm) (unit_ : Payload)
| do_stream_write
(** [on_connection_open] up to [channel_open_cv_.notify_all()], and from
    there to its end *)
| do_connection_open_begin (this : Psm) (channel : DynamicChannel)
| do_connection_open_end (this : Psm)
(** [enqueue_callback] up to [promise.set_value()], and its
    [return packet_one] to the queue *)
| do_enqueue_callback_begin (this : Psm) (packet : Payload) (promise : nat)
| do_enqueue_callback_end (this : Psm) (packet_one : Payload).

(** An agenda entry [(d, a)]: activity [a] runs [d] milliseconds after the
    entry before it (after the start of the wait, for the first). *)
Definition Agenda := list (nat * Activity).

Record World := {
  facade : L2capLeModuleFacadeService;
  (** the promises whose future is ready: [set_value] has been called on
      them, or they have been destroyed before that *)
  promises_set : list nat;
  next_promise : nat;
  agenda : Agenda;
  now_ms : nat
}.

(** ** Field updates *)

Definition set_service_ (v : option DynamicChannelService)
    (h : L2capDynamicChannelHelper) : L2capDynamicChannelHelper :=
  {| psm_ := psm_ h; service_ := v; channel_ := channel_ h;
     channel_open_fail_reason_ := channel_open_fail_reason_ h;
     channel_open_cv_mutex_ := channel_open_cv_mutex_ h;
     channel_writes := channel_writes h |}.

(** Storing into [channel_] without touching the instrumentation: used
    where a method of the channel object changes the pointee. *)
Definition put_channel_ (v : option DynamicChannel)
    (h : L2capDynamicChannelHelper) : L2capDynamicChannelHelper :=
  {| psm_ := psm_ h; service_ := service_ h; channel_ := v;
     channel_open_fail_reason_ := channel_open_fail_reason_ h;
     channel_open_cv_mutex_ := channel_open_cv_mutex_ h;
     channel_writes := channel_writes h |}.

(** An assignment [channel_ = v] of the source. *)
Definition assign_channel_ (v : option DynamicChannel)
    (h : L2capDynamicChannelHelper) : L2capDynamicChannelHelper :=
  {| psm_ := psm_ h; service_ := service_ h; channel_ := v;
     channel_open_fail_reason_ := channel_open_fail_reason_ h;
     channel_open_cv_mutex_ := channel_open_cv_mutex_ h;
     channel_writes := channel_writes h ++ [channel_open_cv_mutex_ h] |}.

Definition set_channel_open_fail_reason_ (v : ConnectionResult)
    (h : L2capDynamicChannelHelper) : L2capDynamicChannelHelper :=
  {| psm_ := psm_ h; service_ := service_ h; channel_ := channel_ h;
     channel_open_fail_reason_ := v;
     channel_open_cv_mutex_ := channel_open_cv_mutex_ h;
     channel_writes := channel_writes h |}.

Definition set_channel_open_cv_mutex_ (v : bool)
    (h : L2capDynamicChannelHelper) : L2capDynamicChannelHelper :=
  {| psm_ := psm_ h; service_ := service_ h; channel_ := channel_ h;
     channel_open_fail_reason_ := channel_open_fail_reason_ h;
     channel_open_cv_mutex_ := v;
     channel_writes := channel_writes h |}.

Definition set_l2cap_layer_ (v : list ManagerRequest)
    (f : L2capLeModuleFacadeService) : L2capLeModuleFacadeService :=
  {| l2cap_layer_ := v; channel_map_mutex_ := channel_map_mutex_ f;
     dynamic_channel_helper_map_ := dynamic_channel_helper_map_ f;
     pending_l2cap_data_ := pending_l2cap_data_ f |}.

Definition set_channel_map_mutex_ (v : bool)
    (f : L2capLeModuleFacadeService) : L2capLeModuleFacadeService :=
  {| l2cap_layer_ := l2cap_layer_ f; channel_map_mutex_ := v;
     dynamic_channel_helper_map_ := dynamic_channel_helper_map_ f;
     pending_l2cap_data_ := pending_l2cap_data_ f |}.

Definition set_dynamic_channel_helper_map_
    (v : gmap Psm L2capDynamicChannelHelper)
    (f : L2capLeModuleFacadeService) : L2capLeModuleFacadeService :=
  {| l2cap_layer_ := l2cap_layer_ f;
     channel_map_mutex_ := channel_map_mutex_ f;
     dynamic_channel_helper_map_ := v;
     pending_l2cap_data_ := pending_l2cap_data_ f |}.

Definition set_pending_l2cap_data_ (v : GrpcEventQueue)
    (f : L2capLeModuleFacadeService) : L2capLeModuleFacadeService :=
  {| l2cap_layer_ := l2cap_layer_ f;
     channel_map_mutex_ := channel_map_mutex_ f;
     dynamic_channel_helper_map_ := dynamic_channel_helper_map_ f;
     pending_l2cap_data_ := v |}.

Definition set_facade (v : L2capLeModuleFacadeService) (w : World) : World :=
  {| facade := v; promises_set := promises_set w;
     next_promise := next_promise w; agenda := agenda w;
     now_ms := now_ms w |}.

Definition set_promises (s : list nat) (n : nat) (w : World) : World :=
  {| facade := facade w; promises_set := s; next_promise := n;
     agenda := agenda w; now_ms := now_ms w |}.

Definition set_agenda (v : Agenda) (w : World) : World :=
  {| facade := facade w; promises_set := promises_set w;
     next_promise := next_promise w; agenda := v; now_ms := now_ms w |}.

Definition advance (d : nat) (w : World) : World :=
  {| facade := facade w; promises_set := promises_set w;
     next_promise := next_promise w; agenda := agenda w;
     now_ms := now_ms w + d |}.

(** ** Computations that may fail to continue *)

Definition M (S A : Type) : Type := S -> option (A * S).

Definition ret {S A} (a : A) : M S A := fun s => Some (a, s).

Definition bind {S A B} (m : M S A) (k : A -> M S B) : M S B :=
  fun s => match m s with
           | Some (a, s') => k a s'
           | None => None
           end.

Definition crash {S A} : M S A := fun _ => None.

Definition gets {S A} (f : S -> A) : M S A := fun s => Some (f s, s).

Definition modify {S} (f : S -> S) : M S unit := fun s => Some (tt, f s).

Declare Scope m_scope.
Delimit Scope m_scope with m.
Notation "x <- m ;; k" := (bind m (fun x => k))
  (at level 20, m at level 99, k at level 200) : m_scope.
Notation "m ;; k" := (bind m (fun _ => k))
  (at level 100, k at level 200, right associativity) : m_scope.
Local Open Scope m_scope.

Definition HelperM := M L2capDynamicChannelHelper.
Definition WorldM := M World.

(** ** The channel object and its queue end

    [DynamicChannel] and the up end of its queue
    (l2cap/le/dynamic_channel.h, os/queue.h) are not part of facade.cc.
    The interface consumed is "a channel object exposing Close(),
    RegisterCloseCallback(cb), and a receive/send queue endpoint with
    RegisterDequeue(cb), TryDequeueOne() -> unit|empty,
    RegisterEnqueueReady(cb), UnregisterDequeue()/UnregisterEnqueueReady()". *)

(** Modelled from the spec: [DynamicChannel::Close] "requests closure of
    the open channel (asynchronous; does not wait for confirmation)". *)
Definition Close (c : DynamicChannel) : DynamicChannel :=
  {| close_requested := true; on_close_registered := on_close_registered c;
     dequeue_registered := dequeue_registered c; rx_buffer := rx_buffer c;
     enqueue_registered := enqueue_registered c; tx_buffer := tx_buffer c |}.

(** Modelled from the spec: [RegisterOnCloseCallback] "registers a
    close-notification callback". *)
Definition RegisterOnCloseCallback (c : DynamicChannel) : DynamicChannel :=
  {| close_requested := close_requested c; on_close_registered := true;
     dequeue_registered := dequeue_registered c; rx_buffer := rx_buffer c;
     enqueue_registered := enqueue_registered c; tx_buffer := tx_buffer c |}.

Definition set_dequeue_registered (v : bool) (c : DynamicChannel)
    : DynamicChannel :=
  {| close_requested := close_requested c;
     on_close_registered := on_close_registered c;
     dequeue_registered := v; rx_buffer := rx_buffer c;
     enqueue_registered := enqueue_registered c; tx_buffer := tx_buffer c |}.

(** Modelled from the spec: [RegisterDequeue] arms the receive path. *)
Definition RegisterDequeue := set_dequeue_registered true.
(** Modelled from the spec: [UnregisterDequeue] "unregisters the receive
    path". *)
Definition UnregisterDequeue := set_dequeue_registered false.

Definition set_rx_buffer (v : list Payload) (c : DynamicChannel)
    : DynamicChannel :=
  {| close_requested := close_requested c;
     on_close_registered := on_close_registered c;
     dequeue_registered := dequeue_registered c; rx_buffer := v;
     enqueue_registered := enqueue_registered c; tx_buffer := tx_buffer c |}.

(** Modelled from the spec: [TryDequeue] is "TryDequeueOne() ->
    unit|empty": the unit at the head of the receive path, or empty (a
    null pointer). *)
Definition TryDequeue (c : DynamicChannel) : option Payload * DynamicChannel :=
  match rx_buffer c with
  | [] => (None, c)
  | u :: rest => (Some u, set_rx_buffer rest c)
  end.

Definition set_enqueue_registered (v : option EnqueueCallback)
    (c : DynamicChannel) : DynamicChannel :=
  {| close_requested := close_requested c;
     on_close_registered := on_close_registered c;
     dequeue_registered := dequeue_registered c; rx_buffer := rx_buffer c;
     enqueue_registered := v; tx_buffer := tx_buffer c |}.

(** Modelled from the spec: [UnregisterEnqueue] empties the slot ("the
    registered callback ... unregisters itself"). *)
Definition UnregisterEnqueue := set_enqueue_registered None.

Definition set_tx_buffer (v : list Payload) (c : DynamicChannel)
    : DynamicChannel :=
  {| close_requested := close_requested c;
     on_close_registered := on_close_registered c;
     dequeue_registered := dequeue_registered c; rx_buffer := rx_buffer c;
     enqueue_registered := enqueue_registered c; tx_buffer := v |}.

(** Modelled from the spec: [DynamicChannelService::Unregister]
    "unregisters the listener". *)
Definition Unregister (s : DynamicChannelService) : DynamicChannelService :=
  {| unregister_requested := true |}.

(** ** The Event Relay (see [GrpcEventQueue]) *)

(** Modelled from the spec: [GrpcEventQueue::OnIncomingEvent] publishes
    an event to the "single ordered ... queue". *)
Definition OnIncomingEvent (e : L2capPacket) (q : GrpcEventQueue)
    : GrpcEventQueue :=
  {| pending := pending q ++ [e]; written := written q;
     published := published q ++ [e] |}.

(** Modelled from the spec: one turn of [GrpcEventQueue::RunLoop], which
    "drains the queue and forwards events to the test driver in publish
    order": the oldest pending event goes to the writer. *)
Definition RunLoop_write (q : GrpcEventQueue) : GrpcEventQueue :=
  match pending q with
  | [] => q
  | e :: rest =>
      {| pending := rest; written := written q ++ [e];
         published := published q |}
  end.

(** A callable that nothing holds is destroyed, and with it the promise
    that [common::Passed(std::move(promise))] moved into it.  Of the
    callables [cbs], the queue end that holds [kept] has let go of the
    others; a callable is known by its promise. *)
Definition let_go (kept : EnqueueCallback) (cbs : list EnqueueCallback)
    : list nat :=
  filter (fun promise => promise <> snd kept) (map snd cbs).

Section Facade.
Context `{Collaborators}.

(** Modelled from the spec: [RegisterEnqueue(handler_, cb)] "registers a
    one-shot ready-to-enqueue callback" on the queue end of the channel.
    On a queue end that already holds one, the collaborators decide.
    Returned with the channel: the promises of the callables that the
    queue end has let go of. *)
Definition RegisterEnqueue (cb : EnqueueCallback) (c : DynamicChannel)
    : option (DynamicChannel * list nat) :=
  match enqueue_registered c with
  | None => Some (set_enqueue_registered (Some cb) c, [])
  | Some old =>
      match RegisterEnqueue_occupied old cb with
      | Some kept =>
          Some (set_enqueue_registered (Some kept) c, let_go kept [old; cb])
      | None => None
      end
  end.

(** ** Primitive steps of a helper *)

(** [std::unique_lock<std::mutex> lock(channel_open_cv_mutex_)] *)
Definition lock : HelperM unit := fun h =>
  if channel_open_cv_mutex_ h then None
  else Some (tt, set_channel_open_cv_mutex_ true h).

(** the end of the scope of [lock] *)
Definition unlock : HelperM unit := modify (set_channel_open_cv_mutex_ false).

(** [channel_->] *)
Definition deref_channel_ : HelperM DynamicChannel := fun h =>
  match channel_ h with
  | Some c => Some (c, h)
  | None => None
  end.

(** [channel_->f()] for a method that changes the channel object *)
Definition on_channel_ (f : DynamicChannel -> DynamicChannel) : HelperM unit :=
  c <- deref_channel_ ;; modify (put_channel_ (Some (f c))).

(** [service_->] *)
Definition deref_service_ : HelperM DynamicChannelService := fun h =>
  match service_ h with
  | Some s => Some (s, h)
  | None => None
  end.

(** Running a step of the helper at [this] inside the service. *)
Definition with_helper {A} (this : Psm) (m : HelperM A) : WorldM A := fun w =>
  match dynamic_channel_helper_map_ (facade w) !! this with
  | None => None
  | Some h =>
      match m h with
      | None => None
      | Some (a, h') =>
          Some (a, set_facade
                     (set_dynamic_channel_helper_map_
                        (<[this := h']> (dynamic_channel_helper_map_ (facade w)))
                        (facade w)) w)
      end
  end.

Definition on_facade (f : L2capLeModuleFacadeService -> L2capLeModuleFacadeService)
    : WorldM unit :=
  modify (fun w => set_facade (f (facade w)) w).

(** [promise.set_value()]: on a promise whose shared state is ready
    already, the call throws. *)
Definition promise_set_value (promise : nat) : WorldM unit := fun w =>
  if bool_decide (promise ∈ promises_set w) then None
  else Some (tt, set_promises (promise :: promises_set w) (next_promise w) w).

(** [std::promise<void> promise] *)
Definition new_promise : WorldM nat := fun w =>
  Some (next_promise w, set_promises (promises_set w) (S (next_promise w)) w).

(** The destructor of [std::promise] on promises whose value has not been
    set: it stores [broken_promise] and makes the shared state ready. *)
Definition promises_destroyed (promises : list nat) : WorldM unit :=
  modify (fun w => set_promises (promises ++ promises_set w) (next_promise w) w).

(** ** The helper's callbacks *)

(** The fields of a helper when its constructor returns. *)
Definition new_L2capDynamicChannelHelper (p : Psm) : L2capDynamicChannelHelper :=
  {| psm_ := p; service_ := None; channel_ := None;
     channel_open_fail_reason_ := ConnectionResult_default;
     channel_open_cv_mutex_ := false; channel_writes := [] |}.

Definition on_l2cap_service_registration_complete
    (registration_result : RegistrationResult)
    (service : DynamicChannelService) : HelperM unit :=
  match registration_result with
  | SUCCESS => modify (set_service_ (Some service))
  | _ => ret tt
  end.

Definition on_connection_open (channel : DynamicChannel) : HelperM unit :=
  lock ;;
  modify (assign_channel_ (Some channel)) ;;
  unlock ;;
  on_channel_ RegisterOnCloseCallback ;;
  on_channel_ RegisterDequeue.

(** The two parts of [on_connection_open]: the block that ends with the
    release of the mutex, followed by [notify_all]; and the two
    registrations after it. *)
Definition on_connection_open_begin (channel : DynamicChannel) : HelperM unit :=
  lock ;;
  modify (assign_channel_ (Some channel)) ;;
  unlock.

Definition on_connection_open_end : HelperM unit :=
  on_channel_ RegisterOnCloseCallback ;;
  on_channel_ RegisterDequeue.

Definition on_close_callback (error_code : Z) : HelperM unit :=
  lock ;;
  on_channel_ UnregisterDequeue ;;
  unlock ;;
  modify (assign_channel_ None).

Definition on_connect_fail (result : ConnectionResult) : HelperM unit :=
  lock ;;
  modify (assign_channel_ None) ;;
  modify (set_channel_open_fail_reason_ result) ;;
  unlock.

(** [channel_->GetQueueUpEnd()->TryDequeue()] *)
Definition channel_TryDequeue : HelperM (option Payload) :=
  c <- deref_channel_ ;;
  let (packet, c') := TryDequeue c in
  modify (put_channel_ (Some c')) ;;
  ret packet.

(** [packet->begin()], [packet->end()] on the unique_ptr of [TryDequeue] *)
Definition deref_packet {S} (packet : option Payload) : M S Payload :=
  match packet with
  | Some data => ret data
  | None => crash
  end.

Definition on_incoming_packet (this : Psm) : WorldM unit :=
  packet <- with_helper this channel_TryDequeue ;;
  data <- deref_packet packet ;;
  p <- with_helper this (gets psm_) ;;
  on_facade (fun f =>
    set_pending_l2cap_data_
      (OnIncomingEvent {| psm := p; payload := data |} (pending_l2cap_data_ f)) f).

Definition enqueue_callback (this : Psm) (packet : Payload) (promise : nat)
    : WorldM Payload :=
  let packet_one := RawBuilder_AddOctets 2000 packet in
  with_helper this (on_channel_ UnregisterEnqueue) ;;
  promise_set_value promise ;;
  ret packet_one.

(** [~L2capDynamicChannelHelper()]: what the destructor does to the helper
    it destroys. *)
Definition delete_L2capDynamicChannelHelper : HelperM unit := fun h =>
  match channel_ h with
  | Some _ => (on_channel_ UnregisterDequeue ;; modify (assign_channel_ None)) h
  | None => ret tt h
  end.

(** [disconnect()], which nothing in facade.cc calls. *)
Definition disconnect : HelperM unit := on_channel_ Close.

(** ** What the other contexts do while a control call waits *)

(** The lower layer buffers one inbound unit on the open channel. *)
Definition receive_unit (this : Psm) (unit_ : Payload) : WorldM unit := fun w =>
  match with_helper this
          (on_channel_ (fun c => set_rx_buffer (rx_buffer c ++ [unit_]) c)) w with
  | Some r => Some r
  | None => Some (tt, w)
  end.

(** One write of the stream opened by [FetchL2capData], which returns
    [pending_l2cap_data_.RunLoop(context, writer)]. *)
Definition FetchL2capData_write : WorldM unit :=
  on_facade (fun f =>
    set_pending_l2cap_data_ (RunLoop_write (pending_l2cap_data_ f)) f).

(** The facade handler runs a callback, the lower layer buffers a unit,
    the stream writes an event.  What [enqueue_callback] returns goes to
    the queue of the channel.  The handler may also have got only as far
    as the notification in [on_connection_open] or in [enqueue_callback]
    when a control call takes over, and run the rest later. *)
Definition run_activity (a : Activity) : WorldM unit :=
  match a with
  | do_registration_complete this r s =>
      with_helper this (on_l2cap_service_registration_complete r s)
  | do_connection_open this channel =>
      with_helper this (on_connection_open channel)
  | do_close_callback this error_code =>
      with_helper this (on_close_callback error_code)
  | do_connect_fail this result =>
      with_helper this (on_connect_fail result)
  | do_incoming_packet this => on_incoming_packet this
  | do_enqueue_callback this packet promise =>
      packet_one <- enqueue_callback this packet promise ;;
      with_helper this
        (on_channel_ (fun c => set_tx_buffer (tx_buffer c ++ [packet_one]) c))
  | do_receive this unit_ => receive_unit this unit_
  | do_stream_write => FetchL2capData_write
  | do_connection_open_begin this channel =>
      with_helper this (on_connection_open_begin channel)
  | do_connection_open_end this =>
      with_helper this on_connection_open_end
  | do_enqueue_callback_begin this packet promise =>
      _ <- enqueue_callback this packet promise ;; ret tt
  | do_enqueue_callback_end this packet_one =>
      with_helper this
        (on_channel_ (fun c => set_tx_buffer (tx_buffer c ++ [packet_one]) c))
  end.

(** A bounded wait.  The waiting context returns [true] as soon as [pred]
    holds, and [false] when [budget] milliseconds have passed without it;
    in between, the agenda runs.  [pred] is looked at after every
    activity: it can only become true through a callback that notifies,
    and a condition variable may wake up at any time.  Whether the
    waiting call takes over at the notification or only after the
    callback has returned is for the agenda to say: it holds the callback
    in two parts or as a whole. *)
Fixpoint wait_loop (pred : World -> bool) (budget : nat) (ag : Agenda)
    (w : World) : option (bool * World) :=
  if pred w then Some (true, set_agenda ag w)
  else
    match ag with
    | [] => Some (false, advance budget (set_agenda [] w))
    | (d, a) :: rest =>
        if d <=? budget then
          match run_activity a (advance d w) with
          | Some (_, w') => wait_loop pred (budget - d) rest w'
          | None => None
          end
        else Some (false, advance budget (set_agenda ((d - budget, a) :: rest) w))
    end.

Definition wait_for (pred : World -> bool) (budget : nat) : WorldM bool :=
  fun w => wait_loop pred budget (agenda w) w.

(** [[this] { return channel_ != nullptr; }] *)
Definition channel_is_open (this : Psm) (w : World) : bool :=
  match dynamic_channel_helper_map_ (facade w) !! this with
  | Some h => match channel_ h with Some _ => true | None => false end
  | None => false
  end.

(** [channel_open_cv_.wait_for(lock, budget, pred)]: the mutex is free
    while the caller waits and held again when it returns. *)
Definition cv_wait_for (this : Psm) (budget : nat) : WorldM bool :=
  with_helper this unlock ;;
  r <- wait_for (channel_is_open this) budget ;;
  with_helper this lock ;;
  ret r.

(** [future.wait_for(budget) == std::future_status::ready]: the shared
    state is ready when the value has been set or the promise has been
    destroyed. *)
Definition future_wait_for (promise : nat) (budget : nat) : WorldM bool :=
  wait_for (fun w => bool_decide (promise ∈ promises_set w)) budget.

(** ** The helper's control methods *)

(** The one [hci::AddressType] the facade uses. *)
Inductive AddressType := RANDOM_DEVICE_ADDRESS.
Definition AddressWithType : Type := Address * AddressType.

Definition Connect (this : Psm) (address : AddressWithType) : WorldM unit :=
  p <- with_helper this (gets psm_) ;;
  on_facade (fun f =>
    set_l2cap_layer_ (l2cap_layer_ f ++ [ConnectChannel (fst address) p]) f) ;;
  with_helper this lock ;;
  _ <- cv_wait_for this 2000 ;;
  with_helper this unlock.

(** [channel_->GetQueueUpEnd()->RegisterEnqueue(handler_, cb)]: returned
    are the promises of the callables let go of. *)
Definition channel_RegisterEnqueue (cb : EnqueueCallback)
    : HelperM (list nat) :=
  c <- deref_channel_ ;;
  match RegisterEnqueue cb c with
  | Some (c', gone) => modify (put_channel_ (Some c')) ;; ret gone
  | None => crash
  end.

Definition SendPacket (this : Psm) (packet : Payload) : WorldM bool :=
  h <- with_helper this (gets (fun h => h)) ;;
  opened <- match channel_ h with
            | None =>
                with_helper this lock ;;
                r <- cv_wait_for this 2000 ;;
                with_helper this unlock ;;
                ret r
            | Some _ => ret true
            end ;;
  if negb opened then ret false
  else
    promise <- new_promise ;;
    gone <- with_helper this (channel_RegisterEnqueue (packet, promise)) ;;
    promises_destroyed gone ;;
    ready <- future_wait_for promise 500 ;;
    if negb ready then ret false else ret true.

(** ** The control service *)

Definition find (p : Psm) : WorldM (option L2capDynamicChannelHelper) :=
  gets (fun w => dynamic_channel_helper_map_ (facade w) !! p).

(** The response carries [Some v] once [set_status(v)] has been called. *)
Definition OpenDynamicChannel (request_psm : Psm) (request_remote : string)
    : WorldM (Status * option Z) :=
  service_helper <- find request_psm ;;
  match service_helper with
  | None => ret (Psm_not_registered, None)
  | Some _ =>
      match Address_FromString request_remote with
      | None => crash
      | Some peer_address =>
          let peer := (peer_address, RANDOM_DEVICE_ADDRESS) in
          Connect request_psm peer ;;
          reason <- with_helper request_psm (gets channel_open_fail_reason_) ;;
          ret (Status_OK, Some (l2cap_connection_response_result reason))
      end
  end.

Definition CloseDynamicChannel (request_psm : Psm) : WorldM Status :=
  service_helper <- find request_psm ;;
  match service_helper with
  | None => ret Psm_not_registered
  | Some h =>
      match channel_ h with
      | None => ret Channel_not_open
      | Some _ =>
          with_helper request_psm (on_channel_ Close) ;;
          ret Status_OK
      end
  end.

(** [std::map::emplace]: the constructor of the new helper runs, and the
    map keeps the element it already has under the key. *)
Definition emplace (p : Psm) (h : L2capDynamicChannelHelper)
    (m : gmap Psm L2capDynamicChannelHelper) : gmap Psm L2capDynamicChannelHelper :=
  match m !! p with
  | Some _ => m
  | None => <[p := h]> m
  end.

Definition SetDynamicChannel (request_enable : bool) (request_psm : Psm)
    : WorldM Status :=
  if request_enable then
    on_facade (fun f =>
      set_l2cap_layer_ (l2cap_layer_ f ++ [RegisterService request_psm]) f) ;;
    on_facade (fun f =>
      set_dynamic_channel_helper_map_
        (emplace request_psm (new_L2capDynamicChannelHelper request_psm)
           (dynamic_channel_helper_map_ f)) f) ;;
    ret Status_OK
  else
    service_helper <- find request_psm ;;
    match service_helper with
    | None => ret Psm_not_registered
    | Some _ =>
        with_helper request_psm
          (s <- deref_service_ ;; modify (set_service_ (Some (Unregister s)))) ;;
        ret Status_OK
    end.

(** [std::unique_lock<std::mutex> lock(channel_map_mutex_)] *)
Definition lock_channel_map : WorldM unit := fun w =>
  if channel_map_mutex_ (facade w) then None
  else Some (tt, set_facade (set_channel_map_mutex_ true (facade w)) w).

Definition unlock_channel_map : WorldM unit :=
  on_facade (set_channel_map_mutex_ false).

Definition SendDynamicChannelPacket (request_psm : Psm) (request_payload : Payload)
    : WorldM Status :=
  lock_channel_map ;;
  service_helper <- find request_psm ;;
  match service_helper with
  | None => unlock_channel_map ;; ret Psm_not_registered
  | Some _ =>
      let packet := request_payload in
      sent <- SendPacket request_psm packet ;;
      if negb sent then unlock_channel_map ;; ret Channel_not_open
      else unlock_channel_map ;; ret Status_OK
  end.

(** The service as [L2capLeModuleFacadeModule::Start] makes it. *)
Definition new_L2capLeModuleFacadeService : L2capLeModuleFacadeService :=
  {| l2cap_layer_ := []; channel_map_mutex_ := false;
     dynamic_channel_helper_map_ := ∅;
     pending_l2cap_data_ := {| pending := []; written := []; published := [] |} |}.

Definition start (ag : Agenda) : World :=
  {| facade := new_L2capLeModuleFacadeService; promises_set := [];
     next_promise := 0; agenda := ag; now_ms := 0 |}.

(** ** Histories of the facade *)

Inductive Action :=
| call_SetDynamicChannel (enable : bool) (p : Psm)
| call_OpenDynamicChannel (p : Psm) (remote : string)
| call_CloseDynamicChannel (p : Psm)
| call_SendDynamicChannelPacket (p : Psm) (packet : Payload)
(** an activity of another context between two control calls *)
| happens (a : Activity)
(** what the other contexts will do during the waits that follow *)
| plan (ag : Agenda).

Definition perform (x : Action) : WorldM unit :=
  match x with
  | call_SetDynamicChannel enable p => _ <- SetDynamicChannel enable p ;; ret tt
  | call_OpenDynamicChannel p remote => _ <- OpenDynamicChannel p remote ;; ret tt
  | call_CloseDynamicChannel p => _ <- CloseDynamicChannel p ;; ret tt
  | call_SendDynamicChannelPacket p packet =>
      _ <- SendDynamicChannelPacket p packet ;; ret tt
  | happens a => run_activity a
  | plan ag => modify (set_agenda ag)
  end.

Fixpoint run (xs : list Action) : WorldM unit :=
  match xs with
  | [] => ret tt
  | x :: rest => perform x ;; run rest
  end.

End Facade.

(** ** Reading a world *)

Definition helper_at (p : Psm) (w : World) : option L2capDynamicChannelHelper :=
  dynamic_channel_helper_map_ (facade w) !! p.

Definition relay (w : World) : GrpcEventQueue := pending_l2cap_data_ (facade w).

(** The events of one port, in the order of the list. *)
Definition of_port (p : Psm) (l : list L2capPacket) : list L2capPacket :=
  filter (fun e => psm e = p) l.

(** Nothing on the agenda is due within [budget] milliseconds. *)
Definition quiet (budget : nat) (ag : Agenda) : bool :=
  match ag with
  | [] => true
  | (d, _) :: _ => budget <? d
  end.

(** The agenda as a wait of [budget] milliseconds leaves it when nothing
    was due. *)
Definition postpone (budget : nat) (ag : Agenda) : Agenda :=
  match ag with
  | [] => []
  | (d, a) :: rest => (d - budget, a) :: rest
  end.

(** The channel's outbound slot of the helper at [p]. *)
Definition outbound_slot (p : Psm) (w : World) : option EnqueueCallback :=
  h ← helper_at p w; c ← channel_ h; enqueue_registered c.

(** ** Concrete collaborators for examples *)

Definition hex_digit (c : Ascii.ascii) : option N :=
  let n := Ascii.N_of_ascii c in
  if ((48 <=? n) && (n <=? 57))%N then Some (n - 48)%N
  else if ((97 <=? n) && (n <=? 102))%N then Some (n - 87)%N
  else if ((65 <=? n) && (n <=? 70))%N then Some (n - 55)%N
  else None.

Fixpoint parse_octets (s : string) (acc : N) : option N :=
  match s with
  | String a (String b rest) =>
      match hex_digit a, hex_digit b with
      | Some hi, Some lo =>
          let acc' := (acc * 256 + hi * 16 + lo)%N in
          match rest with
          | EmptyString => Some acc'
          | String ":"%char rest' => parse_octets rest' acc'
          | _ => None
          end
      | _, _ => None
      end
  | _ => None
  end.

(** Six octets in hexadecimal separated by colons. *)
Definition colon_hex_address (s : string) : option Address :=
  if String.length s =? 17 then parse_octets s 0%N else None.

Definition collaborators_with
    (occupied : EnqueueCallback -> EnqueueCallback -> option EnqueueCallback)
    : Collaborators :=
  {| Address_FromString := colon_hex_address;
     ConnectionResult_default := {| l2cap_connection_response_result := 0 |};
     RegisterEnqueue_occupied := occupied;
     RawBuilder_AddOctets := fun max_bytes octets =>
       if length octets <=? max_bytes then octets else [] |}.

(** The queue end does not return from a second registration. *)
Definition queue_end_asserts : Collaborators :=
  collaborators_with (fun _ _ => None).
(** The queue end keeps the callable it holds. *)
Definition queue_end_keeps : Collaborators :=
  collaborators_with (fun old _ => Some old).
(** The queue end takes the new callable. *)
Definition queue_end_replaces : Collaborators :=
  collaborators_with (fun _ new => Some new).

Definition peer_string : string := "c0:de:c0:de:00:01".
Definition refused : ConnectionResult :=
  {| l2cap_connection_response_result := 4 |}.
Definition payload1 : Payload := [Byte.x61].
Definition payload2 : Payload := [Byte.x62].

(** A service with one helper, as [SetDynamicChannel] registers it. *)
Definition world_with (h : L2capDynamicChannelHelper) (ag : Agenda) : World :=
  {| facade :=
       {| l2cap_layer_ := [RegisterService (psm_ h)];
          channel_map_mutex_ := false;
          dynamic_channel_helper_map_ := {[ psm_ h := h ]};
          pending_l2cap_data_ :=
            {| pending := []; written := []; published := [] |} |};
     promises_set := []; next_promise := 0; agenda := ag; now_ms := 0 |}.

(** A helper whose registration has completed and whose channel is [c]. *)
Definition helper_with (p : Psm) (c : option DynamicChannel)
    : L2capDynamicChannelHelper :=
  {| psm_ := p; service_ := Some {| unregister_requested := false |};
     channel_ := c;
     channel_open_fail_reason_ := {| l2cap_connection_response_result := 0 |};
     channel_open_cv_mutex_ := false; channel_writes := [] |}.

Definition open_channel (rx : list Payload) (slot : option EnqueueCallback)
    : DynamicChannel :=
  {| close_requested := false; on_close_registered := true;
     dequeue_registered := true; rx_buffer := rx;
     enqueue_registered := slot; tx_buffer := [] |}.

(** ** Scenarios *)

Section Scenarios.
Context `{Collaborators}.

(** [EnablePort(1)] twice: the two statuses. *)
Definition enable_twice : option (Status * Status) :=
  fst <$> (s1 <- SetDynamicChannel true 1 ;;
           s2 <- SetDynamicChannel true 1 ;;
           ret (s1, s2)) (start []).

(** [EnablePort(1)], then a [Connect] during which [ag] runs: what the
    call returns, the milliseconds it took and whether the channel is open
    when it returns. *)
Definition connect_once (ag : Agenda)
    : option (Status * option Z * nat * bool) :=
  fst <$> (SetDynamicChannel true 1 ;;
           modify (set_agenda ag) ;;
           r <- OpenDynamicChannel 1 peer_string ;;
           t <- gets now_ms ;;
           o <- gets (channel_is_open 1) ;;
           ret (r, t, o)) (start []).

(** A refused [Connect] followed by one that opens: what the two calls
    return and whether the channel is open in the end. *)
Definition reconnect_after_failure
    : option (Status * option Z * (Status * option Z) * bool) :=
  fst <$> (SetDynamicChannel true 1 ;;
           modify (set_agenda [(100, do_connect_fail 1 refused)]) ;;
           r1 <- OpenDynamicChannel 1 peer_string ;;
           modify (set_agenda [(100, do_connection_open 1 fresh_channel)]) ;;
           r2 <- OpenDynamicChannel 1 peer_string ;;
           o <- gets (channel_is_open 1) ;;
           ret (r1, r2, o)) (start []).

(** Two sends on an open channel whose queue never gets ready: the two
    statuses and the outbound slot afterwards. *)
Definition send_twice : option (Status * Status * option EnqueueCallback) :=
  fst <$> (SetDynamicChannel true 1 ;;
           run_activity (do_connection_open 1 fresh_channel) ;;
           s1 <- SendDynamicChannelPacket 1 payload1 ;;
           s2 <- SendDynamicChannelPacket 1 payload2 ;;
           slot <- gets (outbound_slot 1) ;;
           ret (s1, s2, slot)) (start []).

(** [EnablePort(1)], the registration completes, [DisablePort(1)]: the
    status of the latter, whether a lookup of port 1 still finds a helper,
    and the status of a [Close(1)] that follows. *)
Definition disable_then_lookup : option (Status * bool * Status) :=
  fst <$> (SetDynamicChannel true 1 ;;
           run_activity (do_registration_complete 1 SUCCESS
                           {| unregister_requested := false |}) ;;
           s <- SetDynamicChannel false 1 ;;
           h <- find 1 ;;
           c <- CloseDynamicChannel 1 ;;
           ret (s, bool_decide (is_Some h), c)) (start []).

(** [DisablePort(1)] before the registration of port 1 has completed. *)
Definition disable_before_registration : option Status :=
  fst <$> (SetDynamicChannel true 1 ;; SetDynamicChannel false 1) (start []).

(** A channel opens on port 1 and closes again: the instrumentation of the
    helper's assignments to [channel_]. *)
Definition open_then_close : option (list bool) :=
  fst <$> (SetDynamicChannel true 1 ;;
           run_activity (do_connection_open 1 fresh_channel) ;;
           run_activity (do_close_callback 1 0%Z) ;;
           with_helper 1 (gets channel_writes)) (start []).

End Scenarios.

(** The inbound units buffered on the channel of the helper at [p]. *)
Definition inbound_units (p : Psm) (w : World) : option (list Payload) :=
  h ← helper_at p w; c ← channel_ h; Some (rx_buffer c).

(** Two ports, each with an open channel, receive and publish in turn
    while the stream is being written. *)
Definition two_ports : list Action :=
  [ call_SetDynamicChannel true 1; call_SetDynamicChannel true 2;
    happens (do_connection_open 1 fresh_channel);
    happens (do_connection_open 2 fresh_channel);
    happens (do_receive 1 payload1); happens (do_receive 2 payload2);
    happens (do_receive 1 payload2);
    happens (do_incoming_packet 1); happens do_stream_write;
    happens (do_incoming_packet 2); happens (do_incoming_packet 1);
    happens do_stream_write ].

Definition after `{Collaborators} (xs : list Action) : World :=
  match run xs (start []) with
  | Some (_, w) => w
  | None => start []
  end.

(** ** Invariants *)

(** Everything published has been written to the stream or is pending,
    in that order. *)
Definition relay_ok (w : World) : Prop :=
  published (relay w) = written (relay w) ++ pending (relay w).

(** Each helper sits under the port it was made for. *)
Definition keyed (w : World) : Prop :=
  forall p h, helper_at p w = Some h -> psm_ h = p.

Definition sound (w : World) : Prop := relay_ok w /\ keyed w.

Definition keeps {A} (m : WorldM A) : Prop :=
  forall w a w', sound w -> m w = Some (a, w') -> sound w'.

Definition keeps_psm_ {A} (m : HelperM A) : Prop :=
  forall h a h', m h = Some (a, h') -> psm_ h' = psm_ h.

(** ** What an agenda holds for a port *)

(** [a] is the callback that opens a channel on [p]. *)
Definition opens (p : Psm) (a : Activity) : bool :=
  match a with
  | do_connection_open this _ => bool_decide (this = p)
  | do_connection_open_begin this _ => bool_decide (this = p)
  | _ => false
  end.

(** [a] is one of the two callbacks that complete a Connect on [p]. *)
Definition answers (p : Psm) (a : Activity) : bool :=
  match a with
  | do_connection_open this _ => bool_decide (this = p)
  | do_connection_open_begin this _ => bool_decide (this = p)
  | do_connect_fail this _ => bool_decide (this = p)
  | _ => false
  end.

Definition never_opens (p : Psm) (ag : Agenda) : bool :=
  forallb (fun e => negb (opens p (snd e))) ag.

Definition unanswered (p : Psm) (ag : Agenda) : bool :=
  forallb (fun e => negb (answers p (snd e))) ag.

(** The helper at [p] has no channel and holds the reason [r]. *)
Definition idle_with (p : Psm) (r : ConnectionResult)
    (f : L2capLeModuleFacadeService) : Prop :=
  exists h, dynamic_channel_helper_map_ f !! p = Some h
            /\ channel_ h = None /\ channel_open_fail_reason_ h = r.
(** The helper at [p] has no channel. *)
Definition idle (p : Psm) (f : L2capLeModuleFacadeService) : Prop :=
  exists h, dynamic_channel_helper_map_ f !! p = Some h /\ channel_ h = None.

(** ** The mutexes *)

(** The mutex of the registry is held or not ([b]), and the mutex of a
    helper is held exactly for the port [held]. *)
Definition locks (b : bool) (held : option Psm) (w : World) : Prop :=
  channel_map_mutex_ (facade w) = b
  /\ forall q h, helper_at q w = Some h ->
                 channel_open_cv_mutex_ h = bool_decide (held = Some q).

(** Between two control calls no mutex is held. *)
Definition at_rest : World -> Prop := locks false None.

Definition from_to {A} (P : World -> Prop) (m : WorldM A) (Q : World -> Prop)
    : Prop :=
  forall w a w', P w -> m w = Some (a, w') -> Q w'.

Definition keeps_mutex {A} (m : HelperM A) : Prop :=
  forall h a h', m h = Some (a, h') ->
                 channel_open_cv_mutex_ h' = channel_open_cv_mutex_ h.

Definition releases {A} (m : HelperM A) : Prop :=
  forall h a h', m h = Some (a, h') ->
                 channel_open_cv_mutex_ h = false ->
                 channel_open_cv_mutex_ h' = false.

(** ** Further readers *)

(** The units handed to the queue of the channel of the helper at [p]. *)
Definition outbound_units (p : Psm) (w : World) : option (list Payload) :=
  h ← helper_at p w; c ← channel_ h; Some (tx_buffer c).

(** The channel of the helper at [p]. *)
Definition channel_at (p : Psm) (w : World) : option DynamicChannel :=
  h ← helper_at p w; channel_ h.

(** Port [p] has a helper made for the port [k]. *)
Definition registered_as (p k : Psm) (w : World) : Prop :=
  exists h, helper_at p w = Some h /\ psm_ h = k.

(** From [w] to [w'] at most [n] milliseconds have passed, none backwards,
    and every helper of [w] is still registered in [w'], for the port it
    was made for. *)
Definition within (n : nat) (w w' : World) : Prop :=
  (now_ms w <= now_ms w' /\ now_ms w' <= now_ms w + n)
  /\ forall p k, registered_as p k w -> registered_as p k w'.

Definition takes {A} (n : nat) (m : WorldM A) : Prop :=
  forall w a w', m w = Some (a, w') -> within n w w'.

(** * The Hands-Free client bridge
      (android/app/jni/com_android_bluetooth_hfpclient.cpp)

    The natives of [HeadsetClientStateMachine] and the callbacks the
    Bluetooth stack calls back.  The Java runtime and the stack are not
    part of the file: what they answer during one call is an input of
    that call, and what the bridge asks of them is recorded in its
    state.  The file has no lock of its own; an entry is modelled as
    running to its end before the next one starts. *)

(** [bt_status_t]: the bridge tells [BT_STATUS_SUCCESS] from the rest. *)
Inductive bt_status_t :=
| BT_STATUS_SUCCESS
| BT_STATUS_other (code : nat).

Definition jobject := nat.

(** What [sBluetoothHfpClientInterface] has been asked, in order; for
    [init], whether it answered [BT_STATUS_SUCCESS]. *)
Inductive HalCall :=
| hal_init (succeeded : bool)
| hal_cleanup
| hal_connect (addr : Payload)
| hal_disconnect (addr : Payload)
| hal_connect_audio (addr : Payload)
| hal_disconnect_audio (addr : Payload)
| hal_start_voice_recognition (addr : Payload)
| hal_stop_voice_recognition (addr : Payload)
| hal_volume_control (addr : Payload) (type volume : Z)
| hal_dial (addr : Payload) (number : option string)
| hal_dial_memory (addr : Payload) (location : Z)
| hal_handle_call_action (addr : Payload) (action index : Z)
| hal_query_current_calls (addr : Payload)
| hal_query_current_operator_name (addr : Payload)
| hal_retrieve_subscriber_info (addr : Payload)
| hal_send_dtmf (addr : Payload) (code : Z)
| hal_request_last_voice_tag_number (addr : Payload)
| hal_send_at_cmd (addr : Payload) (cmd val1 val2 : Z) (arg : option string).

(** The [jmethodID]s of the file, by the Java method they stand for. *)
Inductive Method :=
| onConnectionStateChanged | onAudioStateChanged | onVrStateChanged
| onNetworkState | onNetworkRoaming | onNetworkSignal | onBatteryLevel
| onCurrentOperator | onCall | onCallSetup | onCallHeld | onRespAndHold
| onClip | onCallWaiting | onCurrentCalls | onVolumeChange | onCmdResult
| onSubscriberInfo | onInBandRing | onLastVoiceTagNumber | onRingIndication.

(** An argument of [CallVoidMethod]: a [jint], a [jbyteArray] with its
    bytes, a [jstring], or a null reference. *)
Inductive Jvalue :=
| Jint (i : Z)
| Jbytes (b : Payload)
| Jstring (s : string)
| On_null.

Record JavaCall := {
  receiver : option jobject;
  (** the method ID passed, [None] for a null ID *)
  method_id : option Method;
  arguments : list Jvalue
}.

Inductive Errno := EINVAL.

(** What a native finds in a parameter of type [jbyteArray]: a reference
    to a Java [byte[]] with these elements, or a word that is no
    reference, as when the runtime passes a [byte] in that place. *)
Inductive jbyteArray :=
| reference_to (elements : Payload)
| no_reference (word : Z).

#[global] Instance Method_eq_dec : EqDecision Method.
Proof. solve_decision. Defined.

Record Bridge := {
  (** [sBluetoothHfpClientInterface != NULL] *)
  sBluetoothHfpClientInterface : bool;
  mCallbacksObj : option jobject;
  (** the [method_on...] statics that hold an ID *)
  method_ids : list Method;
  hal_calls : list HalCall;
  (** the global references that have not been deleted *)
  global_refs : list jobject;
  (** arrays pinned by [GetByteArrayElements] and not yet released *)
  pinned_arrays : nat;
  (** strings pinned by [GetStringUTFChars] and not yet released *)
  pinned_strings : nat;
  (** local references made by a callback and not yet deleted *)
  local_refs : nat;
  thrown : list Errno;
  java_calls : list JavaCall
}.

(** What the runtime and the stack answer during one call. *)
Record Answers := {
  (** [getBluetoothInterface() != NULL] *)
  bluetooth_loaded : bool;
  (** [get_profile_interface(BT_PROFILE_HANDSFREE_CLIENT_ID) != NULL] *)
  profile_found : bool;
  (** what the function of the interface that is called returns *)
  hal_status : bt_status_t;
  (** [NewGlobalRef] returns a reference *)
  global_ref_made : bool;
  (** [GetByteArrayElements] returns the elements, not null *)
  elements_got : bool;
  (** the word that stands for the reference to a [byte[]] argument *)
  reference_word : Z;
  (** [GetStringUTFChars] returns the characters *)
  utf_chars_got : bool;
  (** [sCallbackEnv.valid()] *)
  callback_env_valid : bool;
  (** [NewByteArray] returns an array *)
  byte_array_made : bool;
  (** [NewStringUTF] returns a string *)
  string_made : bool
}.

Definition BridgeM := M Bridge.

Definition set_interface (v : bool) (s : Bridge) : Bridge :=
  {| sBluetoothHfpClientInterface := v; mCallbacksObj := mCallbacksObj s;
     method_ids := method_ids s; hal_calls := hal_calls s;
     global_refs := global_refs s; pinned_arrays := pinned_arrays s;
     pinned_strings := pinned_strings s; local_refs := local_refs s;
     thrown := thrown s; java_calls := java_calls s |}.

Definition set_callbacks (v : option jobject) (g : list jobject) (s : Bridge)
    : Bridge :=
  {| sBluetoothHfpClientInterface := sBluetoothHfpClientInterface s;
     mCallbacksObj := v; method_ids := method_ids s; hal_calls := hal_calls s;
     global_refs := g; pinned_arrays := pinned_arrays s;
     pinned_strings := pinned_strings s; local_refs := local_refs s;
     thrown := thrown s; java_calls := java_calls s |}.

Definition set_method_ids (v : list Method) (s : Bridge) : Bridge :=
  {| sBluetoothHfpClientInterface := sBluetoothHfpClientInterface s;
     mCallbacksObj := mCallbacksObj s; method_ids := v;
     hal_calls := hal_calls s; global_refs := global_refs s;
     pinned_arrays := pinned_arrays s; pinned_strings := pinned_strings s;
     local_refs := local_refs s; thrown := thrown s;
     java_calls := java_calls s |}.

Definition set_hal_calls (v : list HalCall) (s : Bridge) : Bridge :=
  {| sBluetoothHfpClientInterface := sBluetoothHfpClientInterface s;
     mCallbacksObj := mCallbacksObj s; method_ids := method_ids s;
     hal_calls := v; global_refs := global_refs s;
     pinned_arrays := pinned_arrays s; pinned_strings := pinned_strings s;
     local_refs := local_refs s; thrown := thrown s;
     java_calls := java_calls s |}.

Definition set_pins (arrays strings locals : nat) (s : Bridge) : Bridge :=
  {| sBluetoothHfpClientInterface := sBluetoothHfpClientInterface s;
     mCallbacksObj := mCallbacksObj s; method_ids := method_ids s;
     hal_calls := hal_calls s; global_refs := global_refs s;
     pinned_arrays := arrays; pinned_strings := strings; local_refs := locals;
     thrown := thrown s; java_calls := java_calls s |}.

Definition set_thrown (v : list Errno) (s : Bridge) : Bridge :=
  {| sBluetoothHfpClientInterface := sBluetoothHfpClientInterface s;
     mCallbacksObj := mCallbacksObj s; method_ids := method_ids s;
     hal_calls := hal_calls s; global_refs := global_refs s;
     pinned_arrays := pinned_arrays s; pinned_strings := pinned_strings s;
     local_refs := local_refs s; thrown := v; java_calls := java_calls s |}.

Definition set_java_calls (v : list JavaCall) (s : Bridge) : Bridge :=
  {| sBluetoothHfpClientInterface := sBluetoothHfpClientInterface s;
     mCallbacksObj := mCallbacksObj s; method_ids := method_ids s;
     hal_calls := hal_calls s; global_refs := global_refs s;
     pinned_arrays := pinned_arrays s; pinned_strings := pinned_strings s;
     local_refs := local_refs s; thrown := thrown s; java_calls := v |}.

(** The statics of the file before any native has run. *)
Definition loaded : Bridge :=
  {| sBluetoothHfpClientInterface := false; mCallbacksObj := None;
     method_ids := []; hal_calls := []; global_refs := [];
     pinned_arrays := 0; pinned_strings := 0; local_refs := 0;
     thrown := []; java_calls := [] |}.

(** ** The runtime, as the bridge uses it *)

(** A call of a function of [sBluetoothHfpClientInterface]. *)
Definition hal (ans : Answers) (c : HalCall) : BridgeM bt_status_t := fun s =>
  Some (hal_status ans, set_hal_calls (hal_calls s ++ [c]) s).

(** [status == BT_STATUS_SUCCESS] *)
Definition succeeded (status : bt_status_t) : bool :=
  match status with
  | BT_STATUS_SUCCESS => true
  | BT_STATUS_other _ => false
  end.

(** [env->GetByteArrayElements(address, NULL)]: null, or the elements of
    the array, pinned.  Behind a word that is no reference there are no
    elements to return: the call has no continuation. *)
Definition GetByteArrayElements (ans : Answers) (address : jbyteArray)
    : BridgeM (option Payload) := fun s =>
  if elements_got ans then
    match address with
    | reference_to elements =>
        Some (Some elements,
              set_pins (S (pinned_arrays s)) (pinned_strings s) (local_refs s) s)
    | no_reference _ => None
    end
  else Some (None, s).

(** [env->ReleaseByteArrayElements(address, addr, 0)] *)
Definition ReleaseByteArrayElements : BridgeM unit :=
  modify (fun s =>
    set_pins (pred (pinned_arrays s)) (pinned_strings s) (local_refs s) s).

(** [env->GetStringUTFChars(str, NULL)] *)
Definition GetStringUTFChars (ans : Answers) (str : string)
    : BridgeM (option string) := fun s =>
  if utf_chars_got ans then
    Some (Some str,
          set_pins (pinned_arrays s) (S (pinned_strings s)) (local_refs s) s)
  else Some (None, s).

(** [env->ReleaseStringUTFChars(str, chars)] *)
Definition ReleaseStringUTFChars : BridgeM unit :=
  modify (fun s =>
    set_pins (pinned_arrays s) (pred (pinned_strings s)) (local_refs s) s).

Definition jniThrowIOException (e : Errno) : BridgeM unit :=
  modify (fun s => set_thrown (thrown s ++ [e]) s).

(** [env->DeleteGlobalRef(ref)] *)
Fixpoint DeleteGlobalRef (o : jobject) (g : list jobject) : list jobject :=
  match g with
  | [] => []
  | o' :: rest =>
      if bool_decide (o' = o) then rest else o' :: DeleteGlobalRef o rest
  end.

(** [sCallbackEnv->NewByteArray(n)] *)
Definition NewByteArray (ans : Answers) (n : nat) : BridgeM (option Payload) :=
  fun s =>
  if byte_array_made ans then
    Some (Some (replicate n Byte.x00),
          set_pins (pinned_arrays s) (pinned_strings s) (S (local_refs s)) s)
  else Some (None, s).

(** [sCallbackEnv->SetByteArrayRegion(array, start, len, buf)] *)
Definition SetByteArrayRegion (array : Payload) (start len : nat) (buf : Payload)
    : Payload :=
  take start array ++ take len buf ++ drop (start + len) array.

(** [sCallbackEnv->NewStringUTF(chars)] *)
Definition NewStringUTF (ans : Answers) (chars : string) : BridgeM Jvalue :=
  fun s =>
  if string_made ans then
    Some (Jstring chars,
          set_pins (pinned_arrays s) (pinned_strings s) (S (local_refs s)) s)
  else Some (On_null, s).

(** [sCallbackEnv->DeleteLocalRef(ref)]: nothing to delete behind a null
    reference. *)
Definition DeleteLocalRef (ref : Jvalue) : BridgeM unit :=
  match ref with
  | On_null => ret tt
  | _ =>
      modify (fun s =>
        set_pins (pinned_arrays s) (pinned_strings s) (pred (local_refs s)) s)
  end.

(** [sCallbackEnv->CallVoidMethod(mCallbacksObj, method_..., ...)]: the
    static holds an ID once [classInitNative] has found the method. *)
Definition CallVoidMethod (m : Method) (args : list Jvalue) : BridgeM unit :=
  modify (fun s =>
    set_java_calls
      (java_calls s ++
       [{| receiver := mCallbacksObj s;
           method_id := if bool_decide (m ∈ method_ids s) then Some m else None;
           arguments := args |}]) s).

(** A word read as a [jbyte]: its low eight bits, signed. *)
Definition jbyte_of_word (word : Z) : Z :=
  ((word + 128) mod 256 - 128)%Z.

(** [(jint) u] for an [unsigned int]. *)
Definition jint_of_unsigned (u : Z) : Z :=
  (if u <? 2 ^ 31 then u else u - 2 ^ 32)%Z.

(** [sizeof(bt_bdaddr_t)] *)
Definition sizeof_bt_bdaddr_t : nat := 6.

(** ** The natives *)

Definition all_methods : list Method :=
  [ onConnectionStateChanged; onAudioStateChanged; onVrStateChanged;
    onNetworkState; onNetworkRoaming; onNetworkSignal; onBatteryLevel;
    onCurrentOperator; onCall; onCallSetup; onCallHeld; onRespAndHold;
    onClip; onCallWaiting; onCurrentCalls; onVolumeChange; onCmdResult;
    onSubscriberInfo; onInBandRing; onLastVoiceTagNumber; onRingIndication ].

(** [classInitNative]: every [method_on...] takes what [GetMethodID]
    returns for its method, an ID where the class has the method. *)
Definition classInitNative (found : Method -> bool) : BridgeM unit :=
  modify (set_method_ids (filter (fun m => found m = true) all_methods)).

(** The two clean-ups that [initializeNative] and [cleanupNative] share
    word for word. *)
Definition clean_interface (ans : Answers) : BridgeM unit := fun s =>
  if sBluetoothHfpClientInterface s then
    (hal ans hal_cleanup ;; modify (set_interface false)) s
  else ret tt s.

Definition clean_callbacks : BridgeM unit := fun s =>
  match mCallbacksObj s with
  | Some o => Some (tt, set_callbacks None (DeleteGlobalRef o (global_refs s)) s)
  | None => ret tt s
  end.

Definition initializeNative (ans : Answers) (object : jobject) : BridgeM unit :=
  if negb (bluetooth_loaded ans) then ret tt
  else
    clean_interface ans ;;
    clean_callbacks ;;
    modify (set_interface (profile_found ans)) ;;
    if negb (profile_found ans) then ret tt
    else
      status <- hal ans (hal_init (succeeded (hal_status ans))) ;;
      if negb (succeeded status) then modify (set_interface false)
      else
        modify (fun s =>
          if global_ref_made ans
          then set_callbacks (Some object) (object :: global_refs s) s
          else set_callbacks None (global_refs s) s).

Definition cleanupNative (ans : Answers) : BridgeM unit :=
  if negb (bluetooth_loaded ans) then ret tt
  else clean_interface ans ;; clean_callbacks.

Definition connectNative (ans : Answers) (address : jbyteArray) : BridgeM bool :=
  fun s =>
  if negb (sBluetoothHfpClientInterface s) then ret false s
  else
    (addr <- GetByteArrayElements ans address ;;
     match addr with
     | None => jniThrowIOException EINVAL ;; ret false
     | Some addr =>
         status <- hal ans (hal_connect addr) ;;
         ReleaseByteArrayElements ;;
         ret (succeeded status)
     end) s.

Definition disconnectNative (ans : Answers) (address : jbyteArray) : BridgeM bool :=
  fun s =>
  if negb (sBluetoothHfpClientInterface s) then ret false s
  else
    (addr <- GetByteArrayElements ans address ;;
     match addr with
     | None => jniThrowIOException EINVAL ;; ret false
     | Some addr =>
         status <- hal ans (hal_disconnect addr) ;;
         ReleaseByteArrayElements ;;
         ret (succeeded status)
     end) s.

Definition connectAudioNative (ans : Answers) (address : jbyteArray) : BridgeM bool :=
  fun s =>
  if negb (sBluetoothHfpClientInterface s) then ret false s
  else
    (addr <- GetByteArrayElements ans address ;;
     match addr with
     | None => jniThrowIOException EINVAL ;; ret false
     | Some addr =>
         status <- hal ans (hal_connect_audio addr) ;;
         ReleaseByteArrayElements ;;
         ret (succeeded status)
     end) s.

Definition disconnectAudioNative (ans : Answers) (address : jbyteArray)
    : BridgeM bool := fun s =>
  if negb (sBluetoothHfpClientInterface s) then ret false s
  else
    (addr <- GetByteArrayElements ans address ;;
     match addr with
     | None => jniThrowIOException EINVAL ;; ret false
     | Some addr =>
         status <- hal ans (hal_disconnect_audio addr) ;;
         ReleaseByteArrayElements ;;
         ret (succeeded status)
     end) s.

Definition startVoiceRecognitionNative (ans : Answers) (address : jbyteArray)
    : BridgeM bool := fun s =>
  if negb (sBluetoothHfpClientInterface s) then ret false s
  else
    (addr <- GetByteArrayElements ans address ;;
     match addr with
     | None => jniThrowIOException EINVAL ;; ret false
     | Some addr =>
         status <- hal ans (hal_start_voice_recognition addr) ;;
         ReleaseByteArrayElements ;;
         ret (succeeded status)
     end) s.

Definition stopVoiceRecognitionNative (ans : Answers) (address : jbyteArray)
    : BridgeM bool := fun s =>
  if negb (sBluetoothHfpClientInterface s) then ret false s
  else
    (addr <- GetByteArrayElements ans address ;;
     match addr with
     | None => jniThrowIOException EINVAL ;; ret false
     | Some addr =>
         status <- hal ans (hal_stop_voice_recognition addr) ;;
         ReleaseByteArrayElements ;;
         ret (succeeded status)
     end) s.

Definition setVolumeNative (ans : Answers) (address : jbyteArray)
    (volume_type volume : Z) : BridgeM bool := fun s =>
  if negb (sBluetoothHfpClientInterface s) then ret false s
  else
    (addr <- GetByteArrayElements ans address ;;
     match addr with
     | None => jniThrowIOException EINVAL ;; ret false
     | Some addr =>
         status <- hal ans (hal_volume_control addr volume_type volume) ;;
         ReleaseByteArrayElements ;;
         ret (succeeded status)
     end) s.

Definition dialNative (ans : Answers) (address : jbyteArray)
    (number_str : option string) : BridgeM bool := fun s =>
  if negb (sBluetoothHfpClientInterface s) then ret false s
  else
    (addr <- GetByteArrayElements ans address ;;
     match addr with
     | None => jniThrowIOException EINVAL ;; ret false
     | Some addr =>
         number <- match number_str with
                   | Some str => GetStringUTFChars ans str
                   | None => ret None
                   end ;;
         status <- hal ans (hal_dial addr number) ;;
         match number with
         | Some _ => ReleaseStringUTFChars
         | None => ret tt
         end ;;
         ReleaseByteArrayElements ;;
         ret (succeeded status)
     end) s.

Definition dialMemoryNative (ans : Answers) (address : jbyteArray) (location : Z)
    : BridgeM bool := fun s =>
  if negb (sBluetoothHfpClientInterface s) then ret false s
  else
    (addr <- GetByteArrayElements ans address ;;
     match addr with
     | None => jniThrowIOException EINVAL ;; ret false
     | Some addr =>
         status <- hal ans (hal_dial_memory addr location) ;;
         ReleaseByteArrayElements ;;
         ret (succeeded status)
     end) s.

Definition handleCallActionNative (ans : Answers) (address : jbyteArray)
    (action index : Z) : BridgeM bool := fun s =>
  if negb (sBluetoothHfpClientInterface s) then ret false s
  else
    (addr <- GetByteArrayElements ans address ;;
     match addr with
     | None => jniThrowIOException EINVAL ;; ret false
     | Some addr =>
         status <- hal ans (hal_handle_call_action addr action index) ;;
         ReleaseByteArrayElements ;;
         ret (succeeded status)
     end) s.

Definition queryCurrentCallsNative (ans : Answers) (address : jbyteArray)
    : BridgeM bool := fun s =>
  if negb (sBluetoothHfpClientInterface s) then ret false s
  else
    (addr <- GetByteArrayElements ans address ;;
     match addr with
     | None => jniThrowIOException EINVAL ;; ret false
     | Some addr =>
         status <- hal ans (hal_query_current_calls addr) ;;
         ReleaseByteArrayElements ;;
         ret (succeeded status)
     end) s.

Definition queryCurrentOperatorNameNative (ans : Answers) (address : jbyteArray)
    : BridgeM bool := fun s =>
  if negb (sBluetoothHfpClientInterface s) then ret false s
  else
    (addr <- GetByteArrayElements ans address ;;
     match addr with
     | None => jniThrowIOException EINVAL ;; ret false
     | Some addr =>
         status <- hal ans (hal_query_current_operator_name addr) ;;
         ReleaseByteArrayElements ;;
         ret (succeeded status)
     end) s.

Definition retrieveSubscriberInfoNative (ans : Answers) (address : jbyteArray)
    : BridgeM bool := fun s =>
  if negb (sBluetoothHfpClientInterface s) then ret false s
  else
    (addr <- GetByteArrayElements ans address ;;
     match addr with
     | None => jniThrowIOException EINVAL ;; ret false
     | Some addr =>
         status <- hal ans (hal_retrieve_subscriber_info addr) ;;
         ReleaseByteArrayElements ;;
         ret (succeeded status)
     end) s.

Definition sendDtmfNative (ans : Answers) (code : Z) (address : jbyteArray)
    : BridgeM bool := fun s =>
  if negb (sBluetoothHfpClientInterface s) then ret false s
  else
    (addr <- GetByteArrayElements ans address ;;
     match addr with
     | None => jniThrowIOException EINVAL ;; ret false
     | Some addr =>
         status <- hal ans (hal_send_dtmf addr code) ;;
         ReleaseByteArrayElements ;;
         ret (succeeded status)
     end) s.

Definition requestLastVoiceTagNumberNative (ans : Answers) (address : jbyteArray)
    : BridgeM bool := fun s =>
  if negb (sBluetoothHfpClientInterface s) then ret false s
  else
    (addr <- GetByteArrayElements ans address ;;
     match addr with
     | None => jniThrowIOException EINVAL ;; ret false
     | Some addr =>
         status <- hal ans (hal_request_last_voice_tag_number addr) ;;
         ReleaseByteArrayElements ;;
         ret (succeeded status)
     end) s.

Definition sendATCmdNative (ans : Answers) (address : jbyteArray)
    (cmd val1 val2 : Z) (arg_str : option string) : BridgeM bool := fun s =>
  if negb (sBluetoothHfpClientInterface s) then ret false s
  else
    (addr <- GetByteArrayElements ans address ;;
     match addr with
     | None => jniThrowIOException EINVAL ;; ret false
     | Some addr =>
         arg <- match arg_str with
                | Some str => GetStringUTFChars ans str
                | None => ret None
                end ;;
         status <- hal ans (hal_send_at_cmd addr cmd val1 val2 arg) ;;
         match arg with
         | Some _ => ReleaseStringUTFChars
         | None => ret tt
         end ;;
         ReleaseByteArrayElements ;;
         ret (succeeded status)
     end) s.

(** ** The callbacks *)

Definition connection_state_cb (ans : Answers) (bd_addr : Payload)
    (state peer_feat chld_feat : Z) : BridgeM unit :=
  if negb (callback_env_valid ans) then ret tt
  else
    addr <- NewByteArray ans sizeof_bt_bdaddr_t ;;
    match addr with
    | None => ret tt
    | Some addr =>
        let addr := SetByteArrayRegion addr 0 sizeof_bt_bdaddr_t bd_addr in
        CallVoidMethod onConnectionStateChanged
          [Jint state; Jint (jint_of_unsigned peer_feat);
           Jint (jint_of_unsigned chld_feat); Jbytes addr] ;;
        DeleteLocalRef (Jbytes addr)
    end.

Definition audio_state_cb (ans : Answers) (bd_addr : Payload) (state : Z)
    : BridgeM unit :=
  if negb (callback_env_valid ans) then ret tt
  else
    addr <- NewByteArray ans sizeof_bt_bdaddr_t ;;
    match addr with
    | None => ret tt
    | Some addr =>
        let addr := SetByteArrayRegion addr 0 sizeof_bt_bdaddr_t bd_addr in
        CallVoidMethod onAudioStateChanged [Jint state; Jbytes addr] ;;
        DeleteLocalRef (Jbytes addr)
    end.

Definition vr_cmd_cb (ans : Answers) (bd_addr : Payload) (state : Z)
    : BridgeM unit :=
  if negb (callback_env_valid ans) then ret tt
  else CallVoidMethod onVrStateChanged [Jint state].

Definition network_state_cb (ans : Answers) (bd_addr : Payload) (state : Z)
    : BridgeM unit :=
  if negb (callback_env_valid ans) then ret tt
  else CallVoidMethod onNetworkState [Jint state].

Definition network_roaming_cb (ans : Answers) (bd_addr : Payload) (type : Z)
    : BridgeM unit :=
  if negb (callback_env_valid ans) then ret tt
  else CallVoidMethod onNetworkRoaming [Jint type].

Definition network_signal_cb (ans : Answers) (bd_addr : Payload) (signal : Z)
    : BridgeM unit :=
  if negb (callback_env_valid ans) then ret tt
  else CallVoidMethod onNetworkSignal [Jint signal].

Definition battery_level_cb (ans : Answers) (bd_addr : Payload) (level : Z)
    : BridgeM unit :=
  if negb (callback_env_valid ans) then ret tt
  else CallVoidMethod onBatteryLevel [Jint level].

Definition current_operator_cb (ans : Answers) (bd_addr : Payload)
    (name : string) : BridgeM unit :=
  if negb (callback_env_valid ans) then ret tt
  else
    js_name <- NewStringUTF ans name ;;
    CallVoidMethod onCurrentOperator [js_name] ;;
    DeleteLocalRef js_name.

Definition call_cb (ans : Answers) (bd_addr : Payload) (call : Z)
    : BridgeM unit :=
  if negb (callback_env_valid ans) then ret tt
  else CallVoidMethod onCall [Jint call].

Definition callsetup_cb (ans : Answers) (bd_addr : Payload) (callsetup : Z)
    : BridgeM unit :=
  if negb (callback_env_valid ans) then ret tt
  else CallVoidMethod onCallSetup [Jint callsetup].

Definition callheld_cb (ans : Answers) (bd_addr : Payload) (callheld : Z)
    : BridgeM unit :=
  if negb (callback_env_valid ans) then ret tt
  else CallVoidMethod onCallHeld [Jint callheld].

Definition resp_and_hold_cb (ans : Answers) (bd_addr : Payload)
    (resp_and_hold : Z) : BridgeM unit :=
  if negb (callback_env_valid ans) then ret tt
  else CallVoidMethod onRespAndHold [Jint resp_and_hold].

Definition clip_cb (ans : Answers) (bd_addr : Payload) (number : string)
    : BridgeM unit :=
  if negb (callback_env_valid ans) then ret tt
  else
    js_number <- NewStringUTF ans number ;;
    CallVoidMethod onClip [js_number] ;;
    DeleteLocalRef js_number.

Definition call_waiting_cb (ans : Answers) (bd_addr : Payload) (number : string)
    : BridgeM unit :=
  if negb (callback_env_valid ans) then ret tt
  else
    js_number <- NewStringUTF ans number ;;
    CallVoidMethod onCallWaiting [js_number] ;;
    DeleteLocalRef js_number.

Definition current_calls_cb (ans : Answers) (bd_addr : Payload)
    (index dir state mpty : Z) (number : string) : BridgeM unit :=
  if negb (callback_env_valid ans) then ret tt
  else
    js_number <- NewStringUTF ans number ;;
    CallVoidMethod onCurrentCalls
      [Jint index; Jint dir; Jint state; Jint mpty; js_number] ;;
    DeleteLocalRef js_number.

Definition volume_change_cb (ans : Answers) (bd_addr : Payload)
    (type volume : Z) : BridgeM unit :=
  if negb (callback_env_valid ans) then ret tt
  else CallVoidMethod onVolumeChange [Jint type; Jint volume].

Definition cmd_complete_cb (ans : Answers) (bd_addr : Payload) (type cme : Z)
    : BridgeM unit :=
  if negb (callback_env_valid ans) then ret tt
  else CallVoidMethod onCmdResult [Jint type; Jint cme].

Definition subscriber_info_cb (ans : Answers) (bd_addr : Payload)
    (name : string) (type : Z) : BridgeM unit :=
  if negb (callback_env_valid ans) then ret tt
  else
    js_name <- NewStringUTF ans name ;;
    CallVoidMethod onSubscriberInfo [js_name; Jint type] ;;
    DeleteLocalRef js_name.

Definition in_band_ring_cb (ans : Answers) (bd_addr : Payload) (in_band : Z)
    : BridgeM unit :=
  if negb (callback_env_valid ans) then ret tt
  else CallVoidMethod onInBandRing [Jint in_band].

Definition last_voice_tag_number_cb (ans : Answers) (bd_addr : Payload)
    (number : string) : BridgeM unit :=
  if negb (callback_env_valid ans) then ret tt
  else
    js_number <- NewStringUTF ans number ;;
    CallVoidMethod onLastVoiceTagNumber [js_number] ;;
    DeleteLocalRef js_number.

Definition ring_indication_cb (ans : Answers) (bd_addr : Payload)
    : BridgeM unit :=
  if negb (callback_env_valid ans) then ret tt
  else CallVoidMethod onRingIndication [].

(** ** The two tables of the file *)

(** [sBluetoothHfpClientCallbacks]: what the stack may call, with the
    arguments it passes. *)
Inductive Callback :=
| cb_connection_state (bd_addr : Payload) (state peer_feat chld_feat : Z)
| cb_audio_state (bd_addr : Payload) (state : Z)
| cb_vr_cmd (bd_addr : Payload) (state : Z)
| cb_network_state (bd_addr : Payload) (state : Z)
| cb_network_roaming (bd_addr : Payload) (type : Z)
| cb_network_signal (bd_addr : Payload) (signal : Z)
| cb_battery_level (bd_addr : Payload) (level : Z)
| cb_current_operator (bd_addr : Payload) (name : string)
| cb_call (bd_addr : Payload) (call : Z)
| cb_callsetup (bd_addr : Payload) (callsetup : Z)
| cb_callheld (bd_addr : Payload) (callheld : Z)
| cb_resp_and_hold (bd_addr : Payload) (resp_and_hold : Z)
| cb_clip (bd_addr : Payload) (number : string)
| cb_call_waiting (bd_addr : Payload) (number : string)
| cb_current_calls (bd_addr : Payload) (index dir state mpty : Z)
    (number : string)
| cb_volume_change (bd_addr : Payload) (type volume : Z)
| cb_cmd_complete (bd_addr : Payload) (type cme : Z)
| cb_subscriber_info (bd_addr : Payload) (name : string) (type : Z)
| cb_in_band_ring (bd_addr : Payload) (in_band : Z)
| cb_last_voice_tag_number (bd_addr : Payload) (number : string)
| cb_ring_indication (bd_addr : Payload).

Definition sBluetoothHfpClientCallbacks (ans : Answers) (cb : Callback)
    : BridgeM unit :=
  match cb with
  | cb_connection_state a state peer_feat chld_feat =>
      connection_state_cb ans a state peer_feat chld_feat
  | cb_audio_state a state => audio_state_cb ans a state
  | cb_vr_cmd a state => vr_cmd_cb ans a state
  | cb_network_state a state => network_state_cb ans a state
  | cb_network_roaming a type => network_roaming_cb ans a type
  | cb_network_signal a signal => network_signal_cb ans a signal
  | cb_battery_level a level => battery_level_cb ans a level
  | cb_current_operator a name => current_operator_cb ans a name
  | cb_call a call => call_cb ans a call
  | cb_callsetup a callsetup => callsetup_cb ans a callsetup
  | cb_callheld a callheld => callheld_cb ans a callheld
  | cb_resp_and_hold a resp_and_hold => resp_and_hold_cb ans a resp_and_hold
  | cb_clip a number => clip_cb ans a number
  | cb_call_waiting a number => call_waiting_cb ans a number
  | cb_current_calls a index dir state mpty number =>
      current_calls_cb ans a index dir state mpty number
  | cb_volume_change a type volume => volume_change_cb ans a type volume
  | cb_cmd_complete a type cme => cmd_complete_cb ans a type cme
  | cb_subscriber_info a name type => subscriber_info_cb ans a name type
  | cb_in_band_ring a in_band => in_band_ring_cb ans a in_band
  | cb_last_voice_tag_number a number => last_voice_tag_number_cb ans a number
  | cb_ring_indication a => ring_indication_cb ans a
  end.

(** [sMethods]: the natives that answer with a [jboolean], with the
    arguments Java passes, in the order of the signature that the table
    registers for the native. *)
Inductive Command :=
| cmd_connect (address : Payload)
| cmd_disconnect (address : Payload)
| cmd_connectAudio (address : Payload)
| cmd_disconnectAudio (address : Payload)
| cmd_startVoiceRecognition (address : Payload)
| cmd_stopVoiceRecognition (address : Payload)
| cmd_setVolume (address : Payload) (volume_type volume : Z)
| cmd_dial (address : Payload) (number_str : option string)
| cmd_dialMemory (address : Payload) (location : Z)
| cmd_handleCallAction (address : Payload) (action index : Z)
| cmd_queryCurrentCalls (address : Payload)
| cmd_queryCurrentOperatorName (address : Payload)
| cmd_retrieveSubscriberInfo (address : Payload)
(** ["([BB)Z"]: the array, then the byte *)
| cmd_sendDtmf (address : Payload) (code : Z)
| cmd_requestLastVoiceTagNumber (address : Payload)
| cmd_sendATCmd (address : Payload) (cmd val1 val2 : Z)
    (arg_str : option string).

(** The runtime enters a native with the arguments in the order of the
    registered signature, the function takes them in the order of its
    declaration. *)
Definition sMethods (ans : Answers) (c : Command) : BridgeM bool :=
  match c with
  | cmd_connect a => connectNative ans (reference_to a)
  | cmd_disconnect a => disconnectNative ans (reference_to a)
  | cmd_connectAudio a => connectAudioNative ans (reference_to a)
  | cmd_disconnectAudio a => disconnectAudioNative ans (reference_to a)
  | cmd_startVoiceRecognition a =>
      startVoiceRecognitionNative ans (reference_to a)
  | cmd_stopVoiceRecognition a =>
      stopVoiceRecognitionNative ans (reference_to a)
  | cmd_setVolume a volume_type volume =>
      setVolumeNative ans (reference_to a) volume_type volume
  | cmd_dial a number_str => dialNative ans (reference_to a) number_str
  | cmd_dialMemory a location => dialMemoryNative ans (reference_to a) location
  | cmd_handleCallAction a action index =>
      handleCallActionNative ans (reference_to a) action index
  | cmd_queryCurrentCalls a => queryCurrentCallsNative ans (reference_to a)
  | cmd_queryCurrentOperatorName a =>
      queryCurrentOperatorNameNative ans (reference_to a)
  | cmd_retrieveSubscriberInfo a =>
      retrieveSubscriberInfoNative ans (reference_to a)
  | cmd_sendDtmf a code =>
      (* the function is declared [(jbyte code, jbyteArray address)]: it
         finds the reference in [code] and the byte in [address] *)
      sendDtmfNative ans (jbyte_of_word (reference_word ans))
        (no_reference code)
  | cmd_requestLastVoiceTagNumber a =>
      requestLastVoiceTagNumberNative ans (reference_to a)
  | cmd_sendATCmd a cmd val1 val2 arg_str =>
      sendATCmdNative ans (reference_to a) cmd val1 val2 arg_str
  end.

(** What can enter the file: Java through a native, the stack through a
    callback. *)
Inductive Entry :=
| enter_classInit (found : Method -> bool)
| enter_initialize (object : jobject)
| enter_cleanup
| enter_command (c : Command)
| enter_callback (cb : Callback).

Definition enter (ans : Answers) (e : Entry) : BridgeM unit :=
  match e with
  | enter_classInit found => classInitNative found
  | enter_initialize object => initializeNative ans object
  | enter_cleanup => cleanupNative ans
  | enter_command c => _ <- sMethods ans c ;; ret tt
  | enter_callback cb => sBluetoothHfpClientCallbacks ans cb
  end.

(** The entries of a session one after the other, each with the answers
    it gets. *)
Fixpoint session (es : list (Answers * Entry)) : BridgeM unit :=
  match es with
  | [] => ret tt
  | (ans, e) :: rest => enter ans e ;; session rest
  end.

(** ** Readers for the statements about the bridge *)

(** The order the interface's functions may be called in: [init] on an
    interface that is down, everything else on one that is up; [Some up]
    when the calls keep to it. *)
Fixpoint protocol (up : bool) (calls : list HalCall) : option bool :=
  match calls with
  | [] => Some up
  | hal_init ok :: rest => if up then None else protocol ok rest
  | hal_cleanup :: rest => if up then protocol false rest else None
  | _ :: rest => if up then protocol true rest else None
  end.

(** The registered signature and the declaration of the native differ in
    the order of the arguments. *)
Definition crossed (c : Command) : bool :=
  match c with
  | cmd_sendDtmf _ _ => true
  | _ => false
  end.

(** The interface call a command stands for, with the elements of its
    address and, where [chars] holds, the characters of its string. *)
Definition hal_call_of (c : Command) (chars : bool) : HalCall :=
  let pinned (str : option string) := if chars then str else None in
  match c with
  | cmd_connect a => hal_connect a
  | cmd_disconnect a => hal_disconnect a
  | cmd_connectAudio a => hal_connect_audio a
  | cmd_disconnectAudio a => hal_disconnect_audio a
  | cmd_startVoiceRecognition a => hal_start_voice_recognition a
  | cmd_stopVoiceRecognition a => hal_stop_voice_recognition a
  | cmd_setVolume a volume_type volume => hal_volume_control a volume_type volume
  | cmd_dial a number_str => hal_dial a (pinned number_str)
  | cmd_dialMemory a location => hal_dial_memory a location
  | cmd_handleCallAction a action index => hal_handle_call_action a action index
  | cmd_queryCurrentCalls a => hal_query_current_calls a
  | cmd_queryCurrentOperatorName a => hal_query_current_operator_name a
  | cmd_retrieveSubscriberInfo a => hal_retrieve_subscriber_info a
  | cmd_sendDtmf a code => hal_send_dtmf a code
  | cmd_requestLastVoiceTagNumber a => hal_request_last_voice_tag_number a
  | cmd_sendATCmd a cmd val1 val2 arg_str =>
      hal_send_at_cmd a cmd val1 val2 (pinned arg_str)
  end.

(** The global references the file should hold for its [mCallbacksObj]. *)
Definition refs_of (o : option jobject) : list jobject :=
  match o with
  | Some o => [o]
  | None => []
  end.

(** The method a callback reports through. *)
Definition method_of (cb : Callback) : Method :=
  match cb with
  | cb_connection_state _ _ _ _ => onConnectionStateChanged
  | cb_audio_state _ _ => onAudioStateChanged
  | cb_vr_cmd _ _ => onVrStateChanged
  | cb_network_state _ _ => onNetworkState
  | cb_network_roaming _ _ => onNetworkRoaming
  | cb_network_signal _ _ => onNetworkSignal
  | cb_battery_level _ _ => onBatteryLevel
  | cb_current_operator _ _ => onCurrentOperator
  | cb_call _ _ => onCall
  | cb_callsetup _ _ => onCallSetup
  | cb_callheld _ _ => onCallHeld
  | cb_resp_and_hold _ _ => onRespAndHold
  | cb_clip _ _ => onClip
  | cb_call_waiting _ _ => onCallWaiting
  | cb_current_calls _ _ _ _ _ _ => onCurrentCalls
  | cb_volume_change _ _ _ => onVolumeChange
  | cb_cmd_complete _ _ _ => onCmdResult
  | cb_subscriber_info _ _ _ => onSubscriberInfo
  | cb_in_band_ring _ _ => onInBandRing
  | cb_last_voice_tag_number _ _ => onLastVoiceTagNumber
  | cb_ring_indication _ => onRingIndication
  end.

(** Whether a callback makes a byte array for the address before it
    reports. *)
Definition needs_byte_array (cb : Callback) : bool :=
  match cb with
  | cb_connection_state _ _ _ _ | cb_audio_state _ _ => true
  | _ => false
  end.

(** What every entry keeps: the interface's protocol, one global
    reference for the callbacks object, nothing pinned. *)
Definition tidy (s : Bridge) : Prop :=
  protocol false (hal_calls s) = Some (sBluetoothHfpClientInterface s)
  /\ global_refs s = refs_of (mCallbacksObj s)
  /\ (is_Some (mCallbacksObj s) -> sBluetoothHfpClientInterface s = true)
  /\ pinned_arrays s = 0 /\ pinned_strings s = 0 /\ local_refs s = 0.

(** ** Concrete answers and bridges *)

(** Answers that grant everything but what the arguments say. *)
Definition answering (loaded elements env : bool) (status : bt_status_t)
    : Answers :=
  {| bluetooth_loaded := loaded; profile_found := true; hal_status := status;
     global_ref_made := true; elements_got := elements;
     reference_word := 1879048192; utf_chars_got := true;
     callback_env_valid := env; byte_array_made := true; string_made := true |}.

Definition granted : Answers := answering true true true BT_STATUS_SUCCESS.

Definition peer_octets : Payload :=
  [Byte.xc0; Byte.xde; Byte.xc0; Byte.xde; Byte.x00; Byte.x01].

(** The bridge after a first [initializeNative] for [object] went well. *)
Definition working (object : jobject) : Bridge :=
  {| sBluetoothHfpClientInterface := true; mCallbacksObj := Some object;
     method_ids := all_methods; hal_calls := [hal_init true];
     global_refs := [object]; pinned_arrays := 0; pinned_strings := 0;
     local_refs := 0; thrown := []; java_calls := [] |}.

(** A session: the class is initialised, the bridge too, a number is
    dialled, the phone rings, the bridge is initialised a second time for
    another object and cleaned up. *)
Definition one_session : list (Answers * Entry) :=
  [ (granted, enter_classInit (fun _ => true));
    (granted, enter_initialize 7);
    (granted, enter_command (cmd_dial peer_octets (Some "112"%string)));
    (granted, enter_callback (cb_ring_indication peer_octets));
    (granted, enter_initialize 8);
    (granted, enter_cleanup) ].

(** * Proofs *)

(** ** Symbolic execution of the embedding *)

Ltac unfold_world :=
  unfold OpenDynamicChannel, CloseDynamicChannel, SetDynamicChannel,
    SendDynamicChannelPacket, SendPacket, Connect, cv_wait_for, future_wait_for,
    lock_channel_map, unlock_channel_map, find, run_activity, on_incoming_packet,
    enqueue_callback, receive_unit, FetchL2capData_write, promise_set_value,
    new_promise, promises_destroyed, with_helper, on_facade, helper_at, relay, outbound_slot,
    inbound_units, channel_is_open in *.
Ltac unfold_helper :=
  unfold on_connection_open, on_connection_open_begin, on_connection_open_end,
    on_close_callback, on_connect_fail,
    on_l2cap_service_registration_complete, channel_TryDequeue,
    channel_RegisterEnqueue, RegisterEnqueue, TryDequeue, on_channel_,
    deref_channel_, deref_service_, deref_packet, lock, unlock, emplace in *.
Ltac unfold_monad := unfold bind, ret, gets, modify, crash in *.
Ltac unfold_setters :=
  unfold set_facade, set_promises, set_agenda, advance, set_l2cap_layer_,
    set_channel_map_mutex_, set_dynamic_channel_helper_map_,
    set_pending_l2cap_data_, set_service_, put_channel_, assign_channel_,
    set_channel_open_fail_reason_, set_channel_open_cv_mutex_ in *.
Ltac reduce :=
  cbn -[lookup insert Nat.leb Nat.ltb Nat.sub Nat.add wait_for wait_loop let_go]
    in *.
Ltac exec_step :=
  first
    [ rewrite lookup_insert_eq
    | match goal with
      | E : ?m !! ?p = _ |- context [?m !! ?p] => rewrite E
      | E : ?x = _ |- context [match ?x with _ => _ end] => rewrite E
      end
    | rewrite insert_insert_eq ].
Ltac exec :=
  unfold_world; unfold_helper; unfold_monad; unfold_setters; reduce;
  repeat (exec_step; reduce).

(** Naming the fields of a world, of the helper and of its channel. *)
Ltac open_world w := destruct w as [[L mm m q] ps n ag t].
Ltac open_helper h := destruct h as [hp hs hc hr hm hw].
Ltac open_channel_ c := destruct c as [c1 c2 c3 rx slot tx].

Section Proofs.
Context `{Collaborators}.

(** ** Bounded waits *)

Lemma wait_for_quiet pred budget w :
  pred w = false -> quiet budget (agenda w) = true ->
  wait_for pred budget w
  = Some (false, advance budget (set_agenda (postpone budget (agenda w)) w)).
Proof.
  unfold wait_for. intros Hp Hq. destruct (agenda w) as [|[d a] rest]; cbn.
  - rewrite Hp. reflexivity.
  - rewrite Hp. cbn in Hq. apply Nat.ltb_lt in Hq.
    destruct (Nat.leb_spec d budget); [lia|]. reflexivity.
Qed.

Lemma wait_loop_ready pred budget ag w :
  pred w = true -> wait_loop pred budget ag w = Some (true, set_agenda ag w).
Proof. intros Hp. destruct ag as [|[d a] rest]; cbn; now rewrite Hp. Qed.

Lemma wait_loop_runs pred budget d a rest w w' :
  pred w = false -> d <= budget ->
  run_activity a (advance d w) = Some (tt, w') ->
  wait_loop pred budget ((d, a) :: rest) w = wait_loop pred (budget - d) rest w'.
Proof.
  intros Hp Hd Ha. cbn [wait_loop]. rewrite Hp, Ha.
  destruct (Nat.leb_spec d budget); [reflexivity | lia].
Qed.

Lemma wait_loop_expires pred budget w :
  pred w = false ->
  wait_loop pred budget [] w = Some (false, advance budget (set_agenda [] w)).
Proof. intros Hp. cbn. now rewrite Hp. Qed.

(** The activities of the other contexts take no time of the clock. *)
Lemma run_activity_now_ms a w w' :
  run_activity a w = Some (tt, w') -> now_ms w' = now_ms w.
Proof.
  intros E. open_world w.
  destruct a; exec; repeat case_match; simplify_eq; reflexivity.
Qed.

(** A wait never takes longer than its budget, whatever the agenda. *)
Lemma wait_loop_bounded pred ag : forall budget w r w',
  wait_loop pred budget ag w = Some (r, w') -> now_ms w' <= now_ms w + budget.
Proof.
  induction ag as [|[d a] rest IH]; intros budget w r w' E; cbn in E.
  - destruct (pred w); simplify_eq; cbn; lia.
  - destruct (pred w); [simplify_eq; cbn; lia|].
    destruct (Nat.leb_spec d budget); [|simplify_eq; cbn; lia].
    destruct (run_activity a (advance d w)) as [[[] w1]|] eqn:Ea; [|discriminate].
    apply IH in E. apply run_activity_now_ms in Ea. cbn in Ea. lia.
Qed.

(** ** The control calls on a port that is registered *)

Lemma SendDynamicChannelPacket_not_open w p h packet :
  helper_at p w = Some h ->
  channel_ h = None ->
  channel_open_cv_mutex_ h = false ->
  channel_map_mutex_ (facade w) = false ->
  quiet 2000 (agenda w) = true ->
  exists w',
    SendDynamicChannelPacket p packet w = Some (Channel_not_open, w')
    /\ now_ms w' = now_ms w + 2000.
Proof.
  intros Hh Hc Hm Hmm Hq. open_world w. open_helper h.
  reduce. subst hc hm mm. exec.
  rewrite wait_for_quiet; [| exec; reflexivity | exact Hq].
  exec. eexists. split; reflexivity.
Qed.

Lemma on_close_callback_clears w p h c error_code :
  helper_at p w = Some h ->
  channel_ h = Some c ->
  channel_open_cv_mutex_ h = false ->
  run_activity (do_close_callback p error_code) w
  = Some (tt, set_facade
                (set_dynamic_channel_helper_map_
                   (<[p := assign_channel_ None
                             (put_channel_ (Some (UnregisterDequeue c)) h)]>
                      (dynamic_channel_helper_map_ (facade w)))
                   (facade w)) w).
Proof.
  intros Hh Hc Hm. open_world w. open_helper h.
  reduce. subst hc hm. exec. reflexivity.
Qed.

Lemma CloseDynamicChannel_not_open w p h :
  helper_at p w = Some h ->
  channel_ h = None ->
  CloseDynamicChannel p w = Some (Channel_not_open, w).
Proof. intros Hh Hc. open_world w. exec. reflexivity. Qed.

Lemma on_incoming_packet_drains w p h c u rest :
  helper_at p w = Some h ->
  channel_ h = Some c ->
  rx_buffer c = u :: rest ->
  exists w',
    on_incoming_packet p w = Some (tt, w')
    /\ inbound_units p w' = Some rest
    /\ pending (relay w') = pending (relay w) ++ [{| psm := psm_ h; payload := u |}]
    /\ published (relay w')
       = published (relay w) ++ [{| psm := psm_ h; payload := u |}]
    /\ written (relay w') = written (relay w).
Proof.
  intros Hh Hc Hrx. open_world w. open_helper h. open_channel_ c.
  reduce. subst hc rx. exec.
  eexists. split; [reflexivity|]. exec. auto.
Qed.

Lemma on_incoming_packet_empty w p h c :
  helper_at p w = Some h ->
  channel_ h = Some c ->
  rx_buffer c = [] ->
  on_incoming_packet p w = None.
Proof.
  intros Hh Hc Hrx. open_world w. open_helper h. open_channel_ c.
  reduce. subst hc rx. exec. reflexivity.
Qed.

(** A Connect that is answered by [on_connect_fail] waits its two
    seconds out and returns the reason of that callback. *)
Lemma OpenDynamicChannel_fails w p remote address h d result :
  helper_at p w = Some h ->
  Address_FromString remote = Some address ->
  channel_ h = None ->
  channel_open_cv_mutex_ h = false ->
  agenda w = [(d, do_connect_fail p result)] ->
  d <= 2000 ->
  exists w',
    OpenDynamicChannel p remote w
    = Some ((Status_OK, Some (l2cap_connection_response_result result)), w')
    /\ channel_is_open p w' = false
    /\ now_ms w' = now_ms w + 2000.
Proof.
  intros Hh Ha Hc Hm Hag Hd. open_world w. open_helper h.
  reduce. subst hc hm ag. exec.
  unfold wait_for. reduce.
  erewrite wait_loop_runs; [| exec; reflexivity | exact Hd | exec; reflexivity].
  rewrite wait_loop_expires; [| exec; reflexivity].
  exec. eexists. split; [reflexivity|]. exec. split; [reflexivity|]. lia.
Qed.

(** A Connect that is answered by [on_connection_open] returns when the
    callback has run, with the reason the helper held before the call. *)
Lemma OpenDynamicChannel_opens w p remote address h d channel rest :
  helper_at p w = Some h ->
  Address_FromString remote = Some address ->
  channel_ h = None ->
  channel_open_cv_mutex_ h = false ->
  agenda w = (d, do_connection_open p channel) :: rest ->
  d <= 2000 ->
  exists w',
    OpenDynamicChannel p remote w
    = Some ((Status_OK,
             Some (l2cap_connection_response_result (channel_open_fail_reason_ h))),
            w')
    /\ channel_is_open p w' = true
    /\ now_ms w' = now_ms w + d.
Proof.
  intros Hh Ha Hc Hm Hag Hd. open_world w. open_helper h.
  reduce. subst hc hm ag. exec.
  unfold wait_for. reduce.
  erewrite wait_loop_runs; [| exec; reflexivity | exact Hd | exec; reflexivity].
  rewrite wait_loop_ready; [| exec; reflexivity].
  exec. eexists. split; [reflexivity|]. exec. auto.
Qed.

(** The first send of a pair: the queue does not get ready within the
    half second, the call fails and its callable stays registered. *)
Lemma SendDynamicChannelPacket_times_out w p h c packet :
  helper_at p w = Some h ->
  channel_ h = Some c ->
  enqueue_registered c = None ->
  channel_map_mutex_ (facade w) = false ->
  next_promise w ∉ promises_set w ->
  quiet 500 (agenda w) = true ->
  exists w',
    SendDynamicChannelPacket p packet w = Some (Channel_not_open, w')
    /\ outbound_slot p w' = Some (packet, next_promise w).
Proof.
  intros Hh Hc Hslot Hmm Hfresh Hq. open_world w. open_helper h. open_channel_ c.
  reduce. subst hc slot mm. exec.
  rewrite wait_for_quiet; [| reduce; now apply bool_decide_eq_false | exact Hq].
  exec. eexists. split; [reflexivity|]. exec. auto.
Qed.

Lemma SendDynamicChannelPacket_slot_refused w p h c old packet :
  helper_at p w = Some h ->
  channel_ h = Some c ->
  enqueue_registered c = Some old ->
  channel_map_mutex_ (facade w) = false ->
  RegisterEnqueue_occupied old (packet, next_promise w) = None ->
  SendDynamicChannelPacket p packet w = None.
Proof.
  intros Hh Hc Hslot Hmm Hkept. open_world w. open_helper h. open_channel_ c.
  reduce. subst hc slot mm. exec. reflexivity.
Qed.

(** ** Who holds the mutex when [channel_] is assigned *)

Lemma on_connection_open_writes_locked h channel :
  channel_open_cv_mutex_ h = false ->
  exists h',
    on_connection_open channel h = Some (tt, h')
    /\ channel_writes h' = channel_writes h ++ [true].
Proof.
  intros Hm. open_helper h. reduce. subst hm. exec.
  eexists. split; reflexivity.
Qed.

Lemma on_connect_fail_writes_locked h result :
  channel_open_cv_mutex_ h = false ->
  exists h',
    on_connect_fail result h = Some (tt, h')
    /\ channel_writes h' = channel_writes h ++ [true].
Proof.
  intros Hm. open_helper h. reduce. subst hm. exec.
  eexists. split; reflexivity.
Qed.

Lemma on_close_callback_writes_unlocked h c error_code :
  channel_ h = Some c ->
  channel_open_cv_mutex_ h = false ->
  exists h',
    on_close_callback error_code h = Some (tt, h')
    /\ channel_writes h' = channel_writes h ++ [false].
Proof.
  intros Hc Hm. open_helper h. reduce. subst hm hc. exec.
  eexists. split; reflexivity.
Qed.

(** So does the destructor of a helper that still has a channel. *)
Lemma destructor_writes_unlocked h c :
  channel_ h = Some c ->
  channel_open_cv_mutex_ h = false ->
  exists h',
    delete_L2capDynamicChannelHelper h = Some (tt, h')
    /\ channel_ h' = None
    /\ channel_writes h' = channel_writes h ++ [false].
Proof.
  intros Hc Hm. open_helper h. reduce. subst hm hc.
  unfold delete_L2capDynamicChannelHelper. exec.
  eexists. repeat split.
Qed.

(** ** What every history keeps *)

Lemma keeps_ret {A} (a : A) : keeps (ret a).
Proof. intros w a' w' Hw E. unfold ret in E. now simplify_eq. Qed.

Lemma keeps_crash {A} : keeps (@crash World A).
Proof. intros w a w' _ E. discriminate E. Qed.

Lemma keeps_gets {A} (f : World -> A) : keeps (gets f).
Proof. intros w a' w' Hw E. unfold gets in E. now simplify_eq. Qed.

Lemma keeps_bind {A B} (m : WorldM A) (k : A -> WorldM B) :
  keeps m -> (forall a, keeps (k a)) -> keeps (x <- m ;; k x).
Proof.
  intros Hm Hk w b w' Hw E. unfold bind in E.
  destruct (m w) as [[a w1]|] eqn:E1; [|discriminate].
  eapply Hk; [|exact E]. eapply Hm; eauto.
Qed.

Lemma keeps_same_facade {A} (m : WorldM A) :
  (forall w a w', m w = Some (a, w') -> facade w' = facade w) -> keeps m.
Proof.
  intros Hm w a w' [Hr Hk] E. apply Hm in E.
  unfold sound, relay_ok, keyed, relay, helper_at in *. now rewrite E.
Qed.

Lemma keeps_on_facade f :
  (forall s, pending_l2cap_data_ (f s) = pending_l2cap_data_ s) ->
  (forall s, dynamic_channel_helper_map_ (f s) = dynamic_channel_helper_map_ s) ->
  keeps (on_facade f).
Proof.
  intros Hq Hm w a w' [Hr Hk] E. unfold on_facade, modify in E. simplify_eq.
  unfold sound, relay_ok, keyed, relay, helper_at in *. cbn. now rewrite Hq, Hm.
Qed.

Lemma keeps_with_helper {A} p (m : HelperM A) :
  keeps_psm_ m -> keeps (with_helper p m).
Proof.
  intros Hm w a w' [Hr Hk] E. unfold with_helper in E.
  destruct (dynamic_channel_helper_map_ (facade w) !! p) as [h|] eqn:Eh;
    [|discriminate].
  destruct (m h) as [[a' h']|] eqn:Em; [|discriminate]. simplify_eq.
  split; [exact Hr|]. intros p0 h0. unfold helper_at. cbn.
  rewrite lookup_insert. case_decide as Hp.
  - intros [= <-]. subst p0. rewrite (Hm _ _ _ Em). now apply Hk.
  - apply Hk.
Qed.

Lemma keeps_psm_ret {A} (a : A) : keeps_psm_ (ret a).
Proof. intros h a' h' E. unfold ret in E. now simplify_eq. Qed.

Lemma keeps_psm_gets {A} (f : L2capDynamicChannelHelper -> A) : keeps_psm_ (gets f).
Proof. intros h a' h' E. unfold gets in E. now simplify_eq. Qed.

Lemma keeps_psm_crash {A} : keeps_psm_ (@crash L2capDynamicChannelHelper A).
Proof. intros h a h' E. discriminate E. Qed.

Lemma keeps_psm_bind {A B} (m : HelperM A) (k : A -> HelperM B) :
  keeps_psm_ m -> (forall a, keeps_psm_ (k a)) -> keeps_psm_ (x <- m ;; k x).
Proof.
  intros Hm Hk h b h' E. unfold bind in E.
  destruct (m h) as [[a h1]|] eqn:E1; [|discriminate].
  rewrite (Hk _ _ _ _ E). eapply Hm; eauto.
Qed.

Lemma keeps_psm_modify f :
  (forall h, psm_ (f h) = psm_ h) -> keeps_psm_ (modify f).
Proof. intros Hf h a h' E. unfold modify in E. simplify_eq. apply Hf. Qed.

Lemma keeps_psm_lock : keeps_psm_ lock.
Proof.
  intros h a h' E. unfold lock in E.
  destruct (channel_open_cv_mutex_ h); now simplify_eq.
Qed.

Lemma keeps_psm_unlock : keeps_psm_ unlock.
Proof. now apply keeps_psm_modify. Qed.

Lemma keeps_psm_deref_channel_ : keeps_psm_ deref_channel_.
Proof.
  intros h a h' E. unfold deref_channel_ in E. destruct (channel_ h); now simplify_eq.
Qed.

Lemma keeps_psm_deref_service_ : keeps_psm_ deref_service_.
Proof.
  intros h a h' E. unfold deref_service_ in E. destruct (service_ h); now simplify_eq.
Qed.

Lemma keeps_psm_on_channel_ f : keeps_psm_ (on_channel_ f).
Proof.
  apply keeps_psm_bind; [apply keeps_psm_deref_channel_|].
  intros c. now apply keeps_psm_modify.
Qed.

Create HintDb keeps.
#[local] Hint Resolve keeps_ret keeps_crash keeps_gets keeps_with_helper
  keeps_psm_ret keeps_psm_gets keeps_psm_crash keeps_psm_lock keeps_psm_unlock
  keeps_psm_deref_channel_ keeps_psm_deref_service_ keeps_psm_on_channel_ : keeps.

Ltac keeps_step :=
  first
    [ solve [auto with keeps]
    | apply keeps_with_helper
    | apply keeps_bind; [| intros ?]
    | apply keeps_psm_bind; [| intros ?]
    | apply keeps_psm_modify; intros ?; reflexivity
    | apply keeps_on_facade; intros ?; reflexivity
    | apply keeps_same_facade; intros ? ? ? E; unfold_monad; now simplify_eq ].

Lemma keeps_psm_on_connection_open channel : keeps_psm_ (on_connection_open channel).
Proof. unfold on_connection_open. repeat keeps_step. Qed.

Lemma keeps_psm_on_connection_open_begin channel :
  keeps_psm_ (on_connection_open_begin channel).
Proof. unfold on_connection_open_begin. repeat keeps_step. Qed.

Lemma keeps_psm_on_connection_open_end : keeps_psm_ on_connection_open_end.
Proof. unfold on_connection_open_end. repeat keeps_step. Qed.

Lemma keeps_psm_on_close_callback e : keeps_psm_ (on_close_callback e).
Proof. unfold on_close_callback. repeat keeps_step. Qed.

Lemma keeps_psm_on_connect_fail r : keeps_psm_ (on_connect_fail r).
Proof. unfold on_connect_fail. repeat keeps_step. Qed.

Lemma keeps_psm_registration r s :
  keeps_psm_ (on_l2cap_service_registration_complete r s).
Proof.
  unfold on_l2cap_service_registration_complete. destruct r; repeat keeps_step.
Qed.

Lemma keeps_psm_channel_TryDequeue : keeps_psm_ channel_TryDequeue.
Proof.
  unfold channel_TryDequeue. keeps_step; [keeps_step|].
  destruct (TryDequeue a). repeat keeps_step.
Qed.

Lemma keeps_psm_channel_RegisterEnqueue cb : keeps_psm_ (channel_RegisterEnqueue cb).
Proof.
  unfold channel_RegisterEnqueue. keeps_step; [keeps_step|].
  destruct (RegisterEnqueue cb a) as [[c' gone]|]; repeat keeps_step.
Qed.

#[local] Hint Resolve keeps_psm_on_connection_open keeps_psm_on_close_callback
  keeps_psm_on_connection_open_begin keeps_psm_on_connection_open_end
  keeps_psm_on_connect_fail keeps_psm_registration keeps_psm_channel_TryDequeue
  keeps_psm_channel_RegisterEnqueue : keeps.


Lemma keeps_publish e :
  keeps (on_facade (fun f =>
    set_pending_l2cap_data_ (OnIncomingEvent e (pending_l2cap_data_ f)) f)).
Proof.
  intros w a w' [Hr Hk] E. unfold on_facade, modify in E. simplify_eq.
  split; [|exact Hk]. unfold relay_ok, relay in *. cbn.
  rewrite Hr. now rewrite app_assoc.
Qed.

Lemma keeps_FetchL2capData_write : keeps FetchL2capData_write.
Proof.
  intros w a w' [Hr Hk] E. unfold FetchL2capData_write, on_facade, modify in E.
  simplify_eq. split; [|exact Hk]. unfold relay_ok, relay in *. cbn.
  unfold RunLoop_write. destruct (pending (pending_l2cap_data_ (facade w))) as [|e rest] eqn:Ep.
  - rewrite Ep. exact Hr.
  - cbn. rewrite Hr. now rewrite <- app_assoc.
Qed.

Lemma keeps_on_incoming_packet p : keeps (on_incoming_packet p).
Proof.
  unfold on_incoming_packet. keeps_step; [keeps_step|].
  keeps_step; [destruct a; cbn [deref_packet]; keeps_step|].
  keeps_step; [keeps_step|]. apply keeps_publish.
Qed.

Lemma keeps_promise_set_value n : keeps (promise_set_value n).
Proof.
  apply keeps_same_facade. intros w a w' E. unfold promise_set_value in E.
  case_bool_decide; now simplify_eq.
Qed.

Lemma keeps_new_promise : keeps new_promise.
Proof.
  apply keeps_same_facade. intros w a w' E. unfold new_promise in E. now simplify_eq.
Qed.

Lemma keeps_promises_destroyed ps : keeps (promises_destroyed ps).
Proof.
  apply keeps_same_facade. intros w a w' E.
  unfold promises_destroyed, modify in E. now simplify_eq.
Qed.

Lemma keeps_receive_unit p u : keeps (receive_unit p u).
Proof.
  intros w a w' Hw E. unfold receive_unit in E.
  destruct (with_helper p _ w) as [[a1 w1]|] eqn:E1; simplify_eq; [|exact Hw].
  eapply keeps_with_helper; [|exact Hw|exact E1]. auto with keeps.
Qed.

#[local] Hint Resolve keeps_publish keeps_FetchL2capData_write
  keeps_on_incoming_packet keeps_promise_set_value keeps_new_promise
  keeps_promises_destroyed keeps_receive_unit : keeps.

Lemma keeps_run_activity a : keeps (run_activity a).
Proof.
  destruct a; unfold run_activity, enqueue_callback; repeat keeps_step.
Qed.

Lemma sound_advance d w : sound w -> sound (advance d w).
Proof. intros Hw. exact Hw. Qed.

Lemma sound_set_agenda ag w : sound w -> sound (set_agenda ag w).
Proof. intros Hw. exact Hw. Qed.

Lemma keeps_wait_loop pred ag : forall budget w r w',
  sound w -> wait_loop pred budget ag w = Some (r, w') -> sound w'.
Proof.
  induction ag as [|[d a] rest IH]; intros budget w r w' Hw E; cbn in E.
  - destruct (pred w); simplify_eq; exact Hw.
  - destruct (pred w); [simplify_eq; exact Hw|].
    destruct (d <=? budget); [|simplify_eq; exact Hw].
    destruct (run_activity a (advance d w)) as [[[] w1]|] eqn:Ea; [|discriminate].
    eapply IH; [|exact E].
    eapply keeps_run_activity; [|exact Ea]. now apply sound_advance.
Qed.

Lemma keeps_wait_for pred budget : keeps (wait_for pred budget).
Proof. intros w r w' Hw E. eapply keeps_wait_loop; eauto. Qed.

#[local] Hint Resolve keeps_run_activity keeps_wait_for : keeps.

Lemma keeps_cv_wait_for p budget : keeps (cv_wait_for p budget).
Proof. unfold cv_wait_for. repeat keeps_step. Qed.

Lemma keeps_future_wait_for n budget : keeps (future_wait_for n budget).
Proof. unfold future_wait_for. keeps_step. Qed.

#[local] Hint Resolve keeps_cv_wait_for keeps_future_wait_for : keeps.

Lemma keeps_Connect p address : keeps (Connect p address).
Proof. unfold Connect. repeat keeps_step. Qed.

Lemma keeps_SendPacket p packet : keeps (SendPacket p packet).
Proof.
  unfold SendPacket. keeps_step; [keeps_step|].
  keeps_step; [destruct (channel_ a); repeat keeps_step|].
  destruct (negb a0); repeat keeps_step.
  match goal with |- context [negb ?x] => destruct (negb x) end;
    repeat keeps_step.
Qed.

#[local] Hint Resolve keeps_Connect keeps_SendPacket : keeps.

Lemma keeps_OpenDynamicChannel p remote : keeps (OpenDynamicChannel p remote).
Proof.
  unfold OpenDynamicChannel, find. keeps_step; [keeps_step|].
  destruct a; [|keeps_step].
  destruct (Address_FromString remote); repeat keeps_step.
Qed.

Lemma keeps_CloseDynamicChannel p : keeps (CloseDynamicChannel p).
Proof.
  unfold CloseDynamicChannel, find. keeps_step; [keeps_step|].
  destruct a as [h|]; [|keeps_step].
  destruct (channel_ h); repeat keeps_step.
Qed.

Lemma keeps_emplace p :
  keeps (on_facade (fun f =>
    set_dynamic_channel_helper_map_
      (emplace p (new_L2capDynamicChannelHelper p) (dynamic_channel_helper_map_ f))
      f)).
Proof.
  intros w a w' [Hr Hk] E. unfold on_facade, modify in E. simplify_eq.
  split; [exact Hr|]. intros p0 h0. unfold helper_at, emplace. cbn.
  destruct (dynamic_channel_helper_map_ (facade w) !! p) eqn:Ep; [apply Hk|].
  rewrite lookup_insert. case_decide as Hp; [|apply Hk].
  intros [= <-]. now subst p0.
Qed.

Lemma keeps_SetDynamicChannel enable p : keeps (SetDynamicChannel enable p).
Proof.
  unfold SetDynamicChannel, find. destruct enable.
  - keeps_step; [keeps_step|]. keeps_step; [apply keeps_emplace|keeps_step].
  - keeps_step; [keeps_step|]. destruct a; repeat keeps_step.
Qed.

Lemma keeps_SendDynamicChannelPacket p packet :
  keeps (SendDynamicChannelPacket p packet).
Proof.
  unfold SendDynamicChannelPacket, find, unlock_channel_map.
  keeps_step.
  { intros w a w' Hw E. unfold lock_channel_map in E.
    destruct (channel_map_mutex_ (facade w)); simplify_eq. exact Hw. }
  keeps_step; [keeps_step|].
  destruct a0; repeat keeps_step.
  destruct (negb a0); repeat keeps_step.
Qed.

#[local] Hint Resolve keeps_OpenDynamicChannel keeps_CloseDynamicChannel
  keeps_SetDynamicChannel keeps_SendDynamicChannelPacket : keeps.

Lemma keeps_perform x : keeps (perform x).
Proof.
  destruct x; unfold perform; repeat keeps_step.
Qed.

Lemma keeps_run xs : keeps (run xs).
Proof.
  induction xs as [|x rest IH]; cbn [run]; [keeps_step|].
  apply keeps_bind; [apply keeps_perform | intros _; exact IH].
Qed.

Lemma sound_start ag : sound (start ag).
Proof.
  split; [reflexivity|]. intros p h. unfold helper_at. cbn.
  now rewrite lookup_empty.
Qed.

(** X17: every history of control calls and callbacks, from the start of
    the service, leaves each helper under the port it was made for. *)
Lemma run_keyed xs ag w p h :
  run xs (start ag) = Some (tt, w) -> helper_at p w = Some h -> psm_ h = p.
Proof.
  intros E. destruct (keeps_run xs _ _ _ (sound_start ag) E) as [_ Hk]. apply Hk.
Qed.


(** ** What a wait leaves alone *)

Lemma with_helper_other {A} p q (m : HelperM A) w a w' :
  with_helper q m w = Some (a, w') -> q <> p -> helper_at p w' = helper_at p w.
Proof.
  intros E Hq. unfold with_helper in E. repeat case_match; simplify_eq.
  unfold helper_at. cbn. now rewrite lookup_insert_ne.
Qed.

Lemma run_activity_idle p a w w' :
  opens p a = false ->
  idle p (facade w) -> run_activity a w = Some (tt, w') -> idle p (facade w').
Proof.
  intros Ha (h & Hh & Hc) E. open_world w. open_helper h. reduce. subst hc.
  destruct a; reduce;
    try (destruct (decide (this = p)) as [->|Hne]);
    try (rewrite bool_decide_eq_true_2 in Ha by reflexivity; discriminate Ha).
  all: unfold idle.
  all: exec; repeat case_match; simplify_eq; reduce.
  all: eexists; split;
    [ repeat (rewrite lookup_insert_ne by done);
      first [apply lookup_insert_eq | eassumption]
    | reflexivity ].
Qed.

Lemma run_activity_idle_with p r a w w' :
  answers p a = false ->
  idle_with p r (facade w) -> run_activity a w = Some (tt, w') ->
  idle_with p r (facade w').
Proof.
  intros Ha (h & Hh & Hc & Hr) E. open_world w. open_helper h. reduce. subst hc hr.
  destruct a; reduce;
    try (destruct (decide (this = p)) as [->|Hne]);
    try (rewrite bool_decide_eq_true_2 in Ha by reflexivity; discriminate Ha).
  all: unfold idle_with.
  all: exec; repeat case_match; simplify_eq; reduce.
  all: eexists; split;
    [ repeat (rewrite lookup_insert_ne by done);
      first [apply lookup_insert_eq | eassumption]
    | split; reflexivity ].
Qed.

Lemma wait_loop_never (I : L2capLeModuleFacadeService -> Prop) pred ag :
  (forall w, I (facade w) -> pred w = false) ->
  Forall (fun e => forall w w',
            I (facade w) -> run_activity (snd e) w = Some (tt, w') -> I (facade w'))
         ag ->
  forall budget w r w',
    I (facade w) -> wait_loop pred budget ag w = Some (r, w') ->
    r = false /\ I (facade w') /\ now_ms w' = now_ms w + budget.
Proof.
  intros Hpred Hag. induction Hag as [|[d a] rest Ha _ IH];
    intros budget w r w' Hw E; cbn in E; rewrite (Hpred w Hw) in E.
  - simplify_eq. cbn. auto.
  - destruct (Nat.leb_spec d budget); [|simplify_eq; cbn; auto].
    destruct (run_activity a (advance d w)) as [[[] w1]|] eqn:Ea; [|discriminate].
    pose proof (run_activity_now_ms _ _ _ Ea) as Ht. cbn in Ht.
    destruct (IH _ _ _ _ (Ha (advance d w) w1 Hw Ea) E) as (-> & Hw' & Ht').
    repeat split; [exact Hw' | lia].
Qed.

Lemma wait_for_never_opens p budget w r w' :
  never_opens p (agenda w) = true ->
  idle p (facade w) ->
  wait_for (channel_is_open p) budget w = Some (r, w') ->
  r = false /\ idle p (facade w') /\ now_ms w' = now_ms w + budget.
Proof.
  intros Hag Hw E. eapply wait_loop_never; [| |exact Hw|exact E].
  - intros w0 (h & Hh & Hc). unfold channel_is_open. now rewrite Hh, Hc.
  - unfold never_opens in Hag. rewrite forallb_forall in Hag.
    apply Forall_forall. intros e He w0 w0'. apply run_activity_idle.
    apply negb_true_iff, Hag. now apply list_elem_of_In.
Qed.

Lemma wait_for_unanswered p reason budget w r w' :
  unanswered p (agenda w) = true ->
  idle_with p reason (facade w) ->
  wait_for (channel_is_open p) budget w = Some (r, w') ->
  r = false /\ idle_with p reason (facade w') /\ now_ms w' = now_ms w + budget.
Proof.
  intros Hag Hw E. eapply wait_loop_never; [| |exact Hw|exact E].
  - intros w0 (h & Hh & Hc & _). unfold channel_is_open. now rewrite Hh, Hc.
  - unfold unanswered in Hag. rewrite forallb_forall in Hag.
    apply Forall_forall. intros e He w0 w0'. apply run_activity_idle_with.
    apply negb_true_iff, Hag. now apply list_elem_of_In.
Qed.

Lemma OpenDynamicChannel_when_unanswered w p remote address h r w' :
  helper_at p w = Some h ->
  Address_FromString remote = Some address ->
  channel_ h = None ->
  unanswered p (agenda w) = true ->
  OpenDynamicChannel p remote w = Some (r, w') ->
  r = (Status_OK,
       Some (l2cap_connection_response_result (channel_open_fail_reason_ h)))
  /\ now_ms w' = now_ms w + 2000
  /\ channel_is_open p w' = false.
Proof.
  intros Hh Ha Hc Hag. open_world w. open_helper h. reduce. subst hc.
  exec. destruct hm; [intros E; discriminate E|]. exec.
  destruct (wait_for _ 2000 _) as [[r1 w1]|] eqn:Ew; [|intros E; discriminate E].
  apply (wait_for_unanswered p hr) in Ew; [|exact Hag|].
  2:{ eexists. split; [apply lookup_insert_eq|]. split; reflexivity. }
  destruct Ew as (-> & (h1 & Hh1 & Hc1 & Hr1) & Ht).
  destruct w1 as [[L1 mm1 m1 q1] ps1 n1 ag1 t1].
  destruct h1 as [hp1 hs1 hc1 hr1 hm1 hw1]. reduce. subst hc1 hr1.
  exec. destruct hm1; [intros E; discriminate E|]. exec.
  intros E. simplify_eq. exec. auto.
Qed.

Lemma SendDynamicChannelPacket_when_never_open w p h packet s w' :
  helper_at p w = Some h ->
  channel_ h = None ->
  never_opens p (agenda w) = true ->
  SendDynamicChannelPacket p packet w = Some (s, w') ->
  s = Channel_not_open
  /\ now_ms w' = now_ms w + 2000
  /\ channel_is_open p w' = false.
Proof.
  intros Hh Hc Hag. open_world w. open_helper h. reduce. subst hc.
  exec. destruct mm; [intros E; discriminate E|]. exec.
  destruct hm; [intros E; discriminate E|]. exec.
  destruct (wait_for _ 2000 _) as [[r1 w1]|] eqn:Ew; [|intros E; discriminate E].
  apply (wait_for_never_opens p) in Ew; [|exact Hag|].
  2:{ eexists. split; [apply lookup_insert_eq|]. reflexivity. }
  destruct Ew as (-> & (h1 & Hh1 & Hc1) & Ht).
  destruct w1 as [[L1 mm1 m1 q1] ps1 n1 ag1 t1].
  destruct h1 as [hp1 hs1 hc1 hr1 hm1 hw1]. reduce. subst hc1.
  exec. destruct hm1; [intros E; discriminate E|]. exec.
  intros E. simplify_eq. exec. auto.
Qed.


(** The statuses of a send. *)
Lemma SendDynamicChannelPacket_statuses w p h packet s w' :
  helper_at p w = Some h ->
  SendDynamicChannelPacket p packet w = Some (s, w') ->
  s = Status_OK \/ s = Channel_not_open.
Proof.
  intros Hh.
  unfold SendDynamicChannelPacket, lock_channel_map, unlock_channel_map, find,
    on_facade, helper_at in *.
  unfold_monad. destruct (channel_map_mutex_ (facade w)); [discriminate|].
  cbn. rewrite Hh.
  destruct (SendPacket p packet _) as [[[] w1]|]; cbn; intros E; simplify_eq; auto.
Qed.

(** ** The mutexes along a history *)

Lemma from_to_ret {A} P (a : A) : from_to P (ret a) P.
Proof. intros w a' w' Hw E. unfold ret in E. now simplify_eq. Qed.

Lemma from_to_gets {A} P (f : World -> A) : from_to P (gets f) P.
Proof. intros w a' w' Hw E. unfold gets in E. now simplify_eq. Qed.

Lemma from_to_crash {A} P Q : from_to P (@crash World A) Q.
Proof. intros w a w' _ E. discriminate E. Qed.

Lemma from_to_bind {A B} P Q R (m : WorldM A) (k : A -> WorldM B) :
  from_to P m Q -> (forall a, from_to Q (k a) R) -> from_to P (x <- m ;; k x) R.
Proof.
  intros Hm Hk w b w' Hw E. unfold bind in E.
  destruct (m w) as [[a w1]|] eqn:E1; [|discriminate].
  eapply Hk; [|exact E]. eapply Hm; eauto.
Qed.

Lemma from_to_same_facade {A} b o (m : WorldM A) :
  (forall w a w', m w = Some (a, w') -> facade w' = facade w) ->
  from_to (locks b o) m (locks b o).
Proof.
  intros Hm w a w' Hw E. apply Hm in E.
  unfold locks, helper_at in *. now rewrite E.
Qed.

Lemma from_to_on_facade b o f :
  (forall s, channel_map_mutex_ (f s) = channel_map_mutex_ s) ->
  (forall s, dynamic_channel_helper_map_ (f s) = dynamic_channel_helper_map_ s) ->
  from_to (locks b o) (on_facade f) (locks b o).
Proof.
  intros Hb Hm w a w' Hw E. unfold on_facade, modify in E. simplify_eq.
  unfold locks, helper_at in *. cbn. now rewrite Hb, Hm.
Qed.

Lemma from_to_with_helper {A} b o p (m : HelperM A) :
  keeps_mutex m -> from_to (locks b o) (with_helper p m) (locks b o).
Proof.
  intros Hm w a w' [Hb Hw] E. unfold with_helper in E.
  destruct (dynamic_channel_helper_map_ (facade w) !! p) as [h|] eqn:Eh;
    [|discriminate].
  destruct (m h) as [[a' h']|] eqn:Em; [|discriminate]. simplify_eq.
  split; [done|]. intros q h0. unfold helper_at. cbn.
  rewrite lookup_insert. case_decide as Hp.
  - intros [= <-]. subst q. rewrite (Hm _ _ _ Em). now apply Hw.
  - apply Hw.
Qed.

Lemma from_to_callback {A} b p (m : HelperM A) :
  releases m -> from_to (locks b None) (with_helper p m) (locks b None).
Proof.
  intros Hm w a w' [Hb Hw] E. unfold with_helper in E.
  destruct (dynamic_channel_helper_map_ (facade w) !! p) as [h|] eqn:Eh;
    [|discriminate].
  destruct (m h) as [[a' h']|] eqn:Em; [|discriminate]. simplify_eq.
  split; [done|]. intros q h0. unfold helper_at. cbn.
  rewrite lookup_insert. case_decide as Hp.
  - intros [= <-]. subst q. apply (Hm _ _ _ Em). now apply (Hw p).
  - apply Hw.
Qed.

Lemma from_to_lock b p :
  from_to (locks b None) (with_helper p lock) (locks b (Some p)).
Proof.
  intros w a w' [Hb Hw] E. unfold with_helper, lock in E.
  destruct (dynamic_channel_helper_map_ (facade w) !! p) as [h|] eqn:Eh;
    [|discriminate].
  destruct (channel_open_cv_mutex_ h); simplify_eq.
  split; [done|]. intros q h0. unfold helper_at. cbn.
  rewrite lookup_insert. case_decide as Hp.
  - intros [= <-]. subst q. cbn. now rewrite bool_decide_eq_true_2.
  - intros Hq. rewrite (Hw _ _ Hq). cbn.
    symmetry. apply bool_decide_eq_false_2. congruence.
Qed.

Lemma from_to_unlock b p :
  from_to (locks b (Some p)) (with_helper p unlock) (locks b None).
Proof.
  intros w a w' [Hb Hw] E. unfold with_helper, unlock, modify in E.
  destruct (dynamic_channel_helper_map_ (facade w) !! p) as [h|] eqn:Eh;
    [|discriminate].
  simplify_eq.
  split; [done|]. intros q h0. unfold helper_at. cbn.
  rewrite lookup_insert. case_decide as Hp.
  - intros [= <-]. reflexivity.
  - intros Hq. rewrite (Hw _ _ Hq).
    apply bool_decide_eq_false_2. congruence.
Qed.

Lemma keeps_mutex_ret {A} (a : A) : keeps_mutex (ret a).
Proof. intros h a' h' E. unfold ret in E. now simplify_eq. Qed.

Lemma keeps_mutex_gets {A} (f : L2capDynamicChannelHelper -> A) :
  keeps_mutex (gets f).
Proof. intros h a' h' E. unfold gets in E. now simplify_eq. Qed.

Lemma keeps_mutex_crash {A} : keeps_mutex (@crash L2capDynamicChannelHelper A).
Proof. intros h a h' E. discriminate E. Qed.

Lemma keeps_mutex_bind {A B} (m : HelperM A) (k : A -> HelperM B) :
  keeps_mutex m -> (forall a, keeps_mutex (k a)) -> keeps_mutex (x <- m ;; k x).
Proof.
  intros Hm Hk h b h' E. unfold bind in E.
  destruct (m h) as [[a h1]|] eqn:E1; [|discriminate].
  rewrite (Hk _ _ _ _ E). eapply Hm; eauto.
Qed.

Lemma keeps_mutex_modify f :
  (forall h, channel_open_cv_mutex_ (f h) = channel_open_cv_mutex_ h) ->
  keeps_mutex (modify f).
Proof. intros Hf h a h' E. unfold modify in E. simplify_eq. apply Hf. Qed.

Lemma keeps_mutex_deref_channel_ : keeps_mutex deref_channel_.
Proof.
  intros h a h' E. unfold deref_channel_ in E. destruct (channel_ h); now simplify_eq.
Qed.

Lemma keeps_mutex_deref_service_ : keeps_mutex deref_service_.
Proof.
  intros h a h' E. unfold deref_service_ in E. destruct (service_ h); now simplify_eq.
Qed.

Lemma keeps_mutex_on_channel_ f : keeps_mutex (on_channel_ f).
Proof.
  apply keeps_mutex_bind; [apply keeps_mutex_deref_channel_|].
  intros c. now apply keeps_mutex_modify.
Qed.

Lemma keeps_mutex_registration r s :
  keeps_mutex (on_l2cap_service_registration_complete r s).
Proof.
  destruct r; cbn; [now apply keeps_mutex_modify | apply keeps_mutex_ret].
Qed.

Lemma keeps_mutex_channel_TryDequeue : keeps_mutex channel_TryDequeue.
Proof.
  unfold channel_TryDequeue. apply keeps_mutex_bind; [apply keeps_mutex_deref_channel_|].
  intros c. destruct (TryDequeue c).
  apply keeps_mutex_bind; [now apply keeps_mutex_modify|].
  intros _. apply keeps_mutex_ret.
Qed.

Lemma keeps_mutex_channel_RegisterEnqueue cb :
  keeps_mutex (channel_RegisterEnqueue cb).
Proof.
  unfold channel_RegisterEnqueue.
  apply keeps_mutex_bind; [apply keeps_mutex_deref_channel_|].
  intros c. destruct (RegisterEnqueue cb c) as [[c' gone]|];
    [|apply keeps_mutex_crash].
  apply keeps_mutex_bind; [now apply keeps_mutex_modify|].
  intros _. apply keeps_mutex_ret.
Qed.

Lemma keeps_mutex_releases {A} (m : HelperM A) : keeps_mutex m -> releases m.
Proof. intros Hm h a h' E Hh. now rewrite (Hm _ _ _ E). Qed.

(** The three callbacks that take the mutex have given it back when
    they return. *)
Lemma releases_on_connection_open channel : releases (on_connection_open channel).
Proof.
  intros h a h' E Hm. open_helper h. reduce. subst hm.
  revert E. exec. repeat case_match; intros; simplify_eq; reflexivity.
Qed.

Lemma releases_on_connection_open_begin channel :
  releases (on_connection_open_begin channel).
Proof.
  intros h a h' E Hm. open_helper h. reduce. subst hm.
  revert E. exec. repeat case_match; intros; simplify_eq; reflexivity.
Qed.

Lemma keeps_mutex_on_connection_open_end : keeps_mutex on_connection_open_end.
Proof.
  unfold on_connection_open_end.
  apply keeps_mutex_bind; [apply keeps_mutex_on_channel_|].
  intros _. apply keeps_mutex_on_channel_.
Qed.

Lemma releases_on_close_callback e : releases (on_close_callback e).
Proof.
  intros h a h' E Hm. open_helper h. reduce. subst hm.
  revert E. exec. repeat case_match; intros; simplify_eq; reflexivity.
Qed.

Lemma releases_on_connect_fail r : releases (on_connect_fail r).
Proof.
  intros h a h' E Hm. open_helper h. reduce. subst hm.
  revert E. exec. repeat case_match; intros; simplify_eq; reflexivity.
Qed.

Create HintDb locks.
#[local] Hint Resolve from_to_ret from_to_crash from_to_lock from_to_unlock
  keeps_mutex_ret keeps_mutex_gets keeps_mutex_crash keeps_mutex_deref_channel_
  keeps_mutex_deref_service_ keeps_mutex_on_channel_ keeps_mutex_registration
  keeps_mutex_channel_TryDequeue keeps_mutex_channel_RegisterEnqueue
  releases_on_connection_open releases_on_close_callback
  releases_on_connect_fail releases_on_connection_open_begin
  keeps_mutex_on_connection_open_end : locks.

Lemma from_to_on_incoming_packet b p :
  from_to (locks b None) (on_incoming_packet p) (locks b None).
Proof.
  unfold on_incoming_packet.
  eapply from_to_bind; [apply from_to_with_helper; auto with locks|]. intros packet.
  eapply from_to_bind; [destruct packet; cbn [deref_packet]; auto with locks|].
  intros data.
  eapply from_to_bind; [apply from_to_with_helper; auto with locks|]. intros p0.
  now apply from_to_on_facade.
Qed.

Lemma from_to_promise_set_value b o n :
  from_to (locks b o) (promise_set_value n) (locks b o).
Proof.
  apply from_to_same_facade. intros w a w' E. unfold promise_set_value in E.
  case_bool_decide; now simplify_eq.
Qed.

Lemma from_to_new_promise b o : from_to (locks b o) new_promise (locks b o).
Proof.
  apply from_to_same_facade. intros w a w' E. unfold new_promise in E.
  now simplify_eq.
Qed.

Lemma from_to_promises_destroyed b o ps :
  from_to (locks b o) (promises_destroyed ps) (locks b o).
Proof.
  apply from_to_same_facade. intros w a w' E.
  unfold promises_destroyed, modify in E. now simplify_eq.
Qed.

Lemma from_to_enqueue_callback b p packet n :
  from_to (locks b None) (enqueue_callback p packet n) (locks b None).
Proof.
  unfold enqueue_callback.
  eapply from_to_bind; [apply from_to_with_helper; auto with locks|]. intros _.
  eapply from_to_bind; [apply from_to_promise_set_value|]. intros _.
  apply from_to_ret.
Qed.

Lemma from_to_receive_unit b p u :
  from_to (locks b None) (receive_unit p u) (locks b None).
Proof.
  intros w a w' Hw E. unfold receive_unit in E.
  destruct (with_helper p _ w) as [[a1 w1]|] eqn:E1; simplify_eq; [|exact Hw].
  eapply from_to_with_helper; [|exact Hw|exact E1]. auto with locks.
Qed.

Lemma from_to_run_activity b a :
  from_to (locks b None) (run_activity a) (locks b None).
Proof.
  destruct a; unfold run_activity.
  - apply from_to_callback, keeps_mutex_releases. auto with locks.
  - apply from_to_callback. auto with locks.
  - apply from_to_callback. auto with locks.
  - apply from_to_callback. auto with locks.
  - apply from_to_on_incoming_packet.
  - eapply from_to_bind; [apply from_to_enqueue_callback|].
    intros ?; apply from_to_with_helper; auto with locks.
  - apply from_to_receive_unit.
  - unfold FetchL2capData_write. now apply from_to_on_facade.
  - apply from_to_callback. auto with locks.
  - apply from_to_callback, keeps_mutex_releases. auto with locks.
  - eapply from_to_bind; [apply from_to_enqueue_callback|].
    intros _. apply from_to_ret.
  - apply from_to_with_helper; auto with locks.
Qed.

Lemma from_to_wait_loop b pred ag : forall budget w r w',
  locks b None w -> wait_loop pred budget ag w = Some (r, w') -> locks b None w'.
Proof.
  induction ag as [|[d a] rest IH]; intros budget w r w' Hw E; cbn in E.
  - destruct (pred w); simplify_eq; exact Hw.
  - destruct (pred w); [simplify_eq; exact Hw|].
    destruct (d <=? budget); [|simplify_eq; exact Hw].
    destruct (run_activity a (advance d w)) as [[[] w1]|] eqn:Ea; [|discriminate].
    eapply IH; [|exact E].
    eapply from_to_run_activity; [|exact Ea]. exact Hw.
Qed.

Lemma from_to_wait_for b pred budget :
  from_to (locks b None) (wait_for pred budget) (locks b None).
Proof. intros w r w' Hw E. eapply from_to_wait_loop; eauto. Qed.

Lemma from_to_cv_wait_for b p budget :
  from_to (locks b (Some p)) (cv_wait_for p budget) (locks b (Some p)).
Proof.
  unfold cv_wait_for.
  eapply from_to_bind; [apply from_to_unlock|]. intros _.
  eapply from_to_bind; [apply from_to_wait_for|]. intros r.
  eapply from_to_bind; [apply from_to_lock|]. intros _.
  apply from_to_ret.
Qed.

Lemma from_to_Connect b p address :
  from_to (locks b None) (Connect p address) (locks b None).
Proof.
  unfold Connect.
  eapply from_to_bind; [apply from_to_with_helper; auto with locks|]. intros p0.
  eapply from_to_bind; [now apply from_to_on_facade|]. intros _.
  eapply from_to_bind; [apply from_to_lock|]. intros _.
  eapply from_to_bind; [apply from_to_cv_wait_for|]. intros _.
  apply from_to_unlock.
Qed.

Lemma from_to_SendPacket b p packet :
  from_to (locks b None) (SendPacket p packet) (locks b None).
Proof.
  unfold SendPacket.
  eapply from_to_bind; [apply from_to_with_helper; auto with locks|]. intros h.
  eapply from_to_bind with (Q := locks b None).
  { destruct (channel_ h); [apply from_to_ret|].
    eapply from_to_bind; [apply from_to_lock|]. intros _.
    eapply from_to_bind; [apply from_to_cv_wait_for|]. intros r.
    eapply from_to_bind; [apply from_to_unlock|]. intros _.
    apply from_to_ret. }
  intros opened. destruct (negb opened); [apply from_to_ret|].
  eapply from_to_bind; [apply from_to_new_promise|]. intros promise.
  eapply from_to_bind; [apply from_to_with_helper; auto with locks|]. intros gone.
  eapply from_to_bind; [apply from_to_promises_destroyed|]. intros _.
  eapply from_to_bind; [apply from_to_wait_for|]. intros ready.
  destruct (negb ready); apply from_to_ret.
Qed.

Lemma at_rest_OpenDynamicChannel p remote :
  from_to at_rest (OpenDynamicChannel p remote) at_rest.
Proof.
  unfold OpenDynamicChannel, find, at_rest.
  eapply from_to_bind; [apply from_to_gets|]. intros [h|];
    [|apply from_to_ret].
  destruct (Address_FromString remote); [|apply from_to_crash].
  eapply from_to_bind; [apply from_to_Connect|]. intros _.
  eapply from_to_bind; [apply from_to_with_helper; auto with locks|]. intros r.
  apply from_to_ret.
Qed.

Lemma at_rest_CloseDynamicChannel p : from_to at_rest (CloseDynamicChannel p) at_rest.
Proof.
  unfold CloseDynamicChannel, find, at_rest.
  eapply from_to_bind; [apply from_to_gets|]. intros [h|];
    [|apply from_to_ret].
  destruct (channel_ h); [|apply from_to_ret].
  eapply from_to_bind; [apply from_to_with_helper; auto with locks|]. intros _.
  apply from_to_ret.
Qed.

Lemma at_rest_emplace p :
  from_to at_rest
    (on_facade (fun f =>
       set_dynamic_channel_helper_map_
         (emplace p (new_L2capDynamicChannelHelper p) (dynamic_channel_helper_map_ f))
         f))
    at_rest.
Proof.
  intros w a w' [Hb Hw] E. unfold on_facade, modify in E. simplify_eq.
  split; [exact Hb|]. intros q h0. unfold helper_at, emplace. cbn.
  destruct (dynamic_channel_helper_map_ (facade w) !! p) eqn:Ep; [apply Hw|].
  rewrite lookup_insert. case_decide as Hp; [|apply Hw].
  intros [= <-]. reflexivity.
Qed.

Lemma at_rest_SetDynamicChannel enable p :
  from_to at_rest (SetDynamicChannel enable p) at_rest.
Proof.
  unfold SetDynamicChannel, find. destruct enable.
  - eapply from_to_bind; [now apply from_to_on_facade|]. intros _.
    eapply from_to_bind; [apply at_rest_emplace|]. intros _. apply from_to_ret.
  - eapply from_to_bind; [apply from_to_gets|]. intros [h|];
      [|apply from_to_ret].
    eapply from_to_bind; [|intros _; apply from_to_ret].
    apply from_to_with_helper.
    apply keeps_mutex_bind; [apply keeps_mutex_deref_service_|]. intros s.
    now apply keeps_mutex_modify.
Qed.

Lemma from_to_lock_channel_map :
  from_to at_rest lock_channel_map (locks true None).
Proof.
  intros w a w' [Hb Hw] E. unfold lock_channel_map in E.
  rewrite Hb in E. simplify_eq. split; [reflexivity|exact Hw].
Qed.

Lemma from_to_unlock_channel_map b :
  from_to (locks b None) unlock_channel_map at_rest.
Proof.
  intros w a w' [Hb Hw] E. unfold unlock_channel_map, on_facade, modify in E.
  simplify_eq. split; [reflexivity|exact Hw].
Qed.

Lemma at_rest_SendDynamicChannelPacket p packet :
  from_to at_rest (SendDynamicChannelPacket p packet) at_rest.
Proof.
  unfold SendDynamicChannelPacket, find.
  eapply from_to_bind; [apply from_to_lock_channel_map|]. intros _.
  eapply from_to_bind; [apply from_to_gets|]. intros [h|].
  - eapply from_to_bind; [apply from_to_SendPacket|]. intros sent.
    destruct (negb sent);
      (eapply from_to_bind; [apply from_to_unlock_channel_map|]; intros _;
       apply from_to_ret).
  - eapply from_to_bind; [apply from_to_unlock_channel_map|]. intros _.
    apply from_to_ret.
Qed.

Lemma at_rest_perform x : from_to at_rest (perform x) at_rest.
Proof.
  destruct x; unfold perform.
  - eapply from_to_bind; [apply at_rest_SetDynamicChannel|]. intros _. apply from_to_ret.
  - eapply from_to_bind; [apply at_rest_OpenDynamicChannel|]. intros _. apply from_to_ret.
  - eapply from_to_bind; [apply at_rest_CloseDynamicChannel|]. intros _. apply from_to_ret.
  - eapply from_to_bind; [apply at_rest_SendDynamicChannelPacket|]. intros _.
    apply from_to_ret.
  - apply from_to_run_activity.
  - intros w a w' Hw E. unfold modify in E. simplify_eq. exact Hw.
Qed.

Lemma at_rest_run xs : from_to at_rest (run xs) at_rest.
Proof.
  induction xs as [|x rest IH]; cbn [run]; [apply from_to_ret|].
  eapply from_to_bind; [apply at_rest_perform | intros _; exact IH].
Qed.

Lemma at_rest_start ag : at_rest (start ag).
Proof.
  split; [reflexivity|]. intros q h. unfold helper_at. cbn.
  now rewrite lookup_empty.
Qed.

(** X18: after any history of control calls and callbacks that returns,
    no mutex is held: neither the map mutex nor the mutex of any
    helper. *)
Lemma run_at_rest xs ag w :
  run xs (start ag) = Some (tt, w) ->
  channel_map_mutex_ (facade w) = false
  /\ forall p h, helper_at p w = Some h -> channel_open_cv_mutex_ h = false.
Proof.
  intros E. destruct (at_rest_run xs _ _ _ (at_rest_start ag) E) as [Hb Hw].
  split; [exact Hb|]. intros p h Hh. now rewrite (Hw _ _ Hh).
Qed.


(** ** The callables a queue end lets go of *)

Lemma let_go_kept kept cbs : snd kept ∉ let_go kept cbs.
Proof. unfold let_go. intros [E _]%list_elem_of_filter. now apply E. Qed.

Lemma let_go_other kept cbs n :
  n <> snd kept -> n ∈ map snd cbs -> n ∈ let_go kept cbs.
Proof. intros Hn Hin. unfold let_go. now apply list_elem_of_filter. Qed.

(** ** The claims *)

(** C1, as the code has it.  Take a registered port without a channel.
    A Connect that neither [on_connection_open] nor [on_connect_fail]
    answers has, when it returns, taken exactly its 2000 ms, whatever else
    the other contexts did meanwhile; and when nothing at all is due in
    those two seconds it does return: it blocks neither on the mutex nor
    on the condition variable.  There is no status for the timeout.  The
    call answers [OK], and the status field of the response is the reason
    the helper held before the call. *)
Theorem OpenDynamicChannel_unanswered w p remote address h :
  helper_at p w = Some h ->
  Address_FromString remote = Some address ->
  channel_ h = None ->
  (unanswered p (agenda w) = true ->
   forall r w',
     OpenDynamicChannel p remote w = Some (r, w') ->
     r = (Status_OK,
          Some (l2cap_connection_response_result (channel_open_fail_reason_ h)))
     /\ now_ms w' = now_ms w + 2000
     /\ channel_is_open p w' = false)
  /\ (channel_open_cv_mutex_ h = false ->
      quiet 2000 (agenda w) = true ->
      exists w',
        OpenDynamicChannel p remote w
        = Some ((Status_OK,
                 Some (l2cap_connection_response_result
                         (channel_open_fail_reason_ h))),
                w')
        /\ now_ms w' = now_ms w + 2000
        /\ helper_at p w' = Some h
        /\ channel_is_open p w' = false).
Proof.
  intros Hh Ha Hc. split.
  - intros Hag r w'. now apply OpenDynamicChannel_when_unanswered with address.
  - intros Hm Hq. open_world w. open_helper h.
    reduce. subst hc hm. exec.
    rewrite wait_for_quiet; [| exec; reflexivity | exact Hq].
    exec. eexists. split; [reflexivity|]. exec. auto.
Qed.

(** C2, as the code has it.  A send on a registered port answers [OK] or
    [FAILED_PRECONDITION "Channel not open"], the status of a port without
    a channel, and nothing else.  On an open channel whose outbound slot
    still holds the callable of an earlier send, what a second send
    answers, when [RegisterEnqueue] returns, follows from the callable
    that the queue end holds afterwards.  If that is not the new one, the
    new callable is destroyed and its promise with it: the future is
    ready, and the send answers [OK] at once, its packet neither in the
    slot nor handed to the channel.  If it is the new one, the send fails
    with "Channel not open" when its 500 ms are over and nothing was due.
    The facade does not write the slot: it holds what the queue end
    kept. *)
Theorem SendDynamicChannelPacket_slot_occupied w p h packet :
  helper_at p w = Some h ->
  (forall s w',
     SendDynamicChannelPacket p packet w = Some (s, w') ->
     s = Status_OK \/ s = Channel_not_open)
  /\ (forall c old kept,
        channel_ h = Some c ->
        enqueue_registered c = Some old ->
        channel_map_mutex_ (facade w) = false ->
        next_promise w ∉ promises_set w ->
        RegisterEnqueue_occupied old (packet, next_promise w) = Some kept ->
        (snd kept <> next_promise w ->
         exists w',
           SendDynamicChannelPacket p packet w = Some (Status_OK, w')
           /\ now_ms w' = now_ms w
           /\ agenda w' = agenda w
           /\ outbound_slot p w' = Some kept
           /\ outbound_units p w' = Some (tx_buffer c))
        /\ (snd kept = next_promise w ->
            quiet 500 (agenda w) = true ->
            exists w',
              SendDynamicChannelPacket p packet w = Some (Channel_not_open, w')
              /\ now_ms w' = now_ms w + 500
              /\ outbound_slot p w' = Some kept
              /\ outbound_units p w' = Some (tx_buffer c))).
Proof.
  intros Hh. split.
  - intros s w'. now apply SendDynamicChannelPacket_statuses with h.
  - intros c old kept Hc Hslot Hmm Hfresh Hkept. open_world w. open_helper h.
    open_channel_ c. reduce. subst hc slot mm. split.
    + intros Hother. exec. unfold wait_for. reduce.
      rewrite wait_loop_ready.
      2:{ reduce. apply bool_decide_eq_true, elem_of_app. left.
          apply let_go_other; [auto | set_solver]. }
      exec. eexists. split; [reflexivity|]. unfold outbound_units. exec. auto.
    + intros Hnew Hq. exec.
      rewrite wait_for_quiet; [| | exact Hq].
      2:{ reduce. apply bool_decide_eq_false. intros [Hin|Hin]%elem_of_app.
          - rewrite <- Hnew in Hin. now apply let_go_kept in Hin.
          - now apply Hfresh. }
      exec. eexists. split; [reflexivity|]. unfold outbound_units. exec. auto.
Qed.

(** C3, as the code has it.  Enabling a port that already has a helper
    answers [OK].  The registry keeps the helper it has, untouched; the
    only trace of the call is one more [RegisterService] request, made by
    the constructor of the helper that [emplace] then drops. *)
Theorem SetDynamicChannel_enable_registered w p h :
  helper_at p w = Some h ->
  SetDynamicChannel true p w
  = Some (Status_OK,
          set_facade
            (set_l2cap_layer_ (l2cap_layer_ (facade w) ++ [RegisterService p])
               (facade w)) w).
Proof. intros Hh. open_world w. exec. reflexivity. Qed.

(** C4, as the code has it.  Disabling a port without a helper answers
    [FAILED_PRECONDITION "Psm not registered"] and changes nothing.
    Disabling a port whose helper holds its service asks that service to
    unregister and answers [OK]; the helper stays in the registry under
    its port, with its channel as it was, and no other helper changes. *)
Theorem SetDynamicChannel_disable w p :
  (helper_at p w = None ->
   SetDynamicChannel false p w = Some (Psm_not_registered, w))
  /\ (forall h s,
        helper_at p w = Some h -> service_ h = Some s ->
        exists w',
          SetDynamicChannel false p w = Some (Status_OK, w')
          /\ helper_at p w' = Some (set_service_ (Some (Unregister s)) h)
          /\ channel_ (set_service_ (Some (Unregister s)) h) = channel_ h
          /\ (forall p', p' <> p -> helper_at p' w' = helper_at p' w)).
Proof.
  split.
  - intros Hh. open_world w. exec. reflexivity.
  - intros h s Hh Hs. open_world w. open_helper h. reduce. subst hs. exec.
    eexists. split; [reflexivity|]. exec. split; [reflexivity|].
    split; [reflexivity|]. intros p' Hp'. now rewrite lookup_insert_ne.
Qed.

(** C6.  On a registered port, a send while the helper has no channel
    answers [FAILED_PRECONDITION "Channel not open"]: it is the only answer
    as long as no [on_connection_open] for the port runs during the two
    seconds the send waits, and the send does answer when nothing is due
    in them.  When [on_close_callback] has run for the open channel of the
    port, the next close answers the same status, and so does the next
    send. *)
Theorem NotOpen_before_open_and_after_close w p h packet :
  helper_at p w = Some h ->
  channel_open_cv_mutex_ h = false ->
  (channel_ h = None ->
   (never_opens p (agenda w) = true ->
    forall s w',
      SendDynamicChannelPacket p packet w = Some (s, w') -> s = Channel_not_open)
   /\ (channel_map_mutex_ (facade w) = false ->
       quiet 2000 (agenda w) = true ->
       exists w',
         SendDynamicChannelPacket p packet w = Some (Channel_not_open, w')))
  /\ (forall c error_code,
        channel_ h = Some c ->
        exists w1,
          run_activity (do_close_callback p error_code) w = Some (tt, w1)
          /\ CloseDynamicChannel p w1 = Some (Channel_not_open, w1)
          /\ (never_opens p (agenda w) = true ->
              forall s w2,
                SendDynamicChannelPacket p packet w1 = Some (s, w2) ->
                s = Channel_not_open)
          /\ (channel_map_mutex_ (facade w) = false ->
              quiet 2000 (agenda w) = true ->
              exists w2,
                SendDynamicChannelPacket p packet w1
                = Some (Channel_not_open, w2))).
Proof.
  intros Hh Hm. split.
  - intros Hc. split.
    + intros Hag s w' E.
      now destruct (SendDynamicChannelPacket_when_never_open _ _ _ _ _ _ Hh Hc Hag E).
    + intros Hmm Hq.
      destruct (SendDynamicChannelPacket_not_open w p h packet) as (w' & E & _);
        eauto.
  - intros c error_code Hc.
    eexists. split; [eapply on_close_callback_clears; eauto|].
    set (h1 := assign_channel_ None (put_channel_ (Some (UnregisterDequeue c)) h)).
    set (w1 := set_facade _ w).
    assert (Hh1 : helper_at p w1 = Some h1).
    { subst w1. unfold helper_at. cbn. apply lookup_insert_eq. }
    split; [eapply CloseDynamicChannel_not_open; eauto|]. split.
    + intros Hag s w2 E.
      now destruct (SendDynamicChannelPacket_when_never_open
                      _ _ _ _ _ _ Hh1 eq_refl Hag E).
    + intros Hmm Hq.
      destruct (SendDynamicChannelPacket_not_open w1 p h1 packet) as (w2 & E & _);
        eauto.
Qed.

(** C7.  A run of [on_incoming_packet] for the helper of port [p] with a
    unit buffered takes exactly the unit at the head of the receive path
    and publishes exactly one event, the pair of [p] and the bytes of that
    unit; and a run that returns had a unit buffered. *)
Theorem on_incoming_packet_one_unit w p h c :
  helper_at p w = Some h ->
  psm_ h = p ->
  channel_ h = Some c ->
  (forall u rest,
     rx_buffer c = u :: rest ->
     exists w',
       on_incoming_packet p w = Some (tt, w')
       /\ inbound_units p w' = Some rest
       /\ pending (relay w') = pending (relay w) ++ [{| psm := p; payload := u |}]
       /\ published (relay w')
          = published (relay w) ++ [{| psm := p; payload := u |}]
       /\ written (relay w') = written (relay w))
  /\ (forall w', on_incoming_packet p w = Some (tt, w') -> rx_buffer c <> []).
Proof.
  intros Hh Hp Hc. split.
  - intros u rest Hrx. subst p. eapply on_incoming_packet_drains; eauto.
  - intros w' E Hrx.
    rewrite (on_incoming_packet_empty w p h c Hh Hc Hrx) in E. discriminate E.
Qed.

(** C8.  After any history of control calls and of activities of the
    other contexts, the events of a port that the stream has written are
    an initial part of the events of that port in the order in which they
    were published. *)
Theorem stream_keeps_publish_order_per_port xs ag w p :
  run xs (start ag) = Some (tt, w) ->
  of_port p (written (relay w)) `prefix_of` of_port p (published (relay w)).
Proof.
  intros E. destruct (keeps_run xs _ _ _ (sound_start ag) E) as [Hr _].
  unfold relay_ok in Hr. rewrite Hr. unfold of_port. rewrite filter_app.
  now apply prefix_app_r.
Qed.

(** C10.  [on_incoming_packet] dereferences what [TryDequeue] returns
    without looking at it: on an open channel with an empty receive path
    the callback has no continuation, and with a unit buffered it
    returns. *)
Theorem on_incoming_packet_needs_a_unit w p h c :
  helper_at p w = Some h ->
  channel_ h = Some c ->
  (rx_buffer c = [] -> on_incoming_packet p w = None)
  /\ (rx_buffer c <> [] -> is_Some (on_incoming_packet p w)).
Proof.
  intros Hh Hc. split.
  - now apply on_incoming_packet_empty with h.
  - intros Hrx. destruct (rx_buffer c) as [|u rest] eqn:E; [congruence|].
    destruct (on_incoming_packet_drains w p h c u rest) as (w' & -> & _); eauto.
Qed.

End Proofs.

(** ** The claims at concrete inputs *)

(** C1 at port 1, registered and idle, with nothing on the agenda. *)
Lemma OpenDynamicChannel_unanswered_at_port_1 :
  exists w',
    @OpenDynamicChannel queue_end_asserts 1 peer_string
      (world_with (helper_with 1 None) [])
    = Some ((Status_OK, Some 0%Z), w')
    /\ now_ms w' = 0 + 2000
    /\ helper_at 1 w' = Some (helper_with 1 None)
    /\ channel_is_open 1 w' = false.
Proof.
  apply (proj2 (@OpenDynamicChannel_unanswered queue_end_asserts
                  (world_with (helper_with 1 None) []) 1 peer_string
                  212062951047169%N (helper_with 1 None)
                  eq_refl eq_refl eq_refl)); reflexivity.
Defined.

(** The answer of a Connect that timed out is the answer of a Connect
    that opened its channel: [OK] with status field 0.  The first call
    returned after 2000 ms with no channel, the second after 100 ms with
    one. *)
Lemma Connect_timeout_answers_like_an_open :
  @connect_once queue_end_asserts [] = Some (Status_OK, Some 0%Z, 2000, false)
  /\ @connect_once queue_end_asserts [(100, do_connection_open 1 fresh_channel)]
     = Some (Status_OK, Some 0%Z, 100, true).
Proof. split; vm_compute; reflexivity. Qed.

(** C2 at port 1 with [payload1] in the slot, once on a queue end that
    keeps what it holds and once on one that takes the new callable. *)
Lemma SendDynamicChannelPacket_slot_occupied_at_port_1 :
  (exists w',
     @SendDynamicChannelPacket queue_end_keeps 1 payload2
       (set_promises [] 1
          (world_with (helper_with 1 (Some (open_channel [] (Some (payload1, 0))))) []))
     = Some (Status_OK, w')
     /\ now_ms w' = 0
     /\ agenda w' = []
     /\ outbound_slot 1 w' = Some (payload1, 0)
     /\ outbound_units 1 w' = Some [])
  /\ (exists w',
        @SendDynamicChannelPacket queue_end_replaces 1 payload2
          (set_promises [] 1
             (world_with
                (helper_with 1 (Some (open_channel [] (Some (payload1, 0))))) []))
        = Some (Channel_not_open, w')
        /\ now_ms w' = 0 + 500
        /\ outbound_slot 1 w' = Some (payload2, 1)
        /\ outbound_units 1 w' = Some []).
Proof.
  split.
  - apply (proj1 (proj2 (@SendDynamicChannelPacket_slot_occupied queue_end_keeps
                           (set_promises [] 1
                              (world_with
                                 (helper_with 1
                                    (Some (open_channel [] (Some (payload1, 0)))))
                                 []))
                           1
                           (helper_with 1
                              (Some (open_channel [] (Some (payload1, 0)))))
                           payload2 eq_refl)
                    (open_channel [] (Some (payload1, 0))) (payload1, 0)
                    (payload1, 0) eq_refl eq_refl eq_refl
                    (not_elem_of_nil _) eq_refl)).
    intros E. discriminate E.
  - apply (proj2 (proj2 (@SendDynamicChannelPacket_slot_occupied queue_end_replaces
                           (set_promises [] 1
                              (world_with
                                 (helper_with 1
                                    (Some (open_channel [] (Some (payload1, 0)))))
                                 []))
                           1
                           (helper_with 1
                              (Some (open_channel [] (Some (payload1, 0)))))
                           payload2 eq_refl)
                    (open_channel [] (Some (payload1, 0))) (payload1, 0)
                    (payload2, 1) eq_refl eq_refl eq_refl
                    (not_elem_of_nil _) eq_refl));
      reflexivity.
Defined.

(** Two sends on port 1 while the queue never gets ready; the first
    answers "Channel not open" when its 500 ms are over.  Whatever the
    queue end does with the second registration, the second send has no
    status of its own.  The call does not return; or the queue end lets
    go of the new callable and the call answers [OK], with [payload1]
    still in the slot and [payload2] nowhere; or the queue end takes the
    new callable and the call answers "Channel not open" as the first
    did, with [payload2] in place of [payload1]. *)
Lemma second_Send_has_no_SendBusy :
  @send_twice queue_end_asserts = None
  /\ @send_twice queue_end_keeps
     = Some (Channel_not_open, Status_OK, Some (payload1, 0))
  /\ @send_twice queue_end_replaces
     = Some (Channel_not_open, Channel_not_open, Some (payload2, 1)).
Proof. repeat split; vm_compute; reflexivity. Qed.

(** C3 at port 1. *)
Lemma SetDynamicChannel_enable_registered_at_port_1 :
  @SetDynamicChannel queue_end_asserts true 1 (world_with (helper_with 1 None) [])
  = Some (Status_OK,
          set_facade
            (set_l2cap_layer_ [RegisterService 1; RegisterService 1]
               (facade (world_with (helper_with 1 None) [])))
            (world_with (helper_with 1 None) [])).
Proof.
  apply (@SetDynamicChannel_enable_registered queue_end_asserts
           (world_with (helper_with 1 None) []) 1 (helper_with 1 None)).
  reflexivity.
Defined.

(** The second of two [EnablePort(1)] answers [OK]. *)
Lemma second_EnablePort_answers_OK :
  @enable_twice queue_end_asserts = Some (Status_OK, Status_OK).
Proof. vm_compute. reflexivity. Qed.

(** C4 at port 1, whose helper holds its service and an open channel. *)
Lemma SetDynamicChannel_disable_at_port_1 :
  exists w',
    @SetDynamicChannel queue_end_asserts false 1
      (world_with (helper_with 1 (Some (open_channel [] None))) [])
    = Some (Status_OK, w')
    /\ helper_at 1 w'
       = Some (set_service_ (Some {| unregister_requested := true |})
                 (helper_with 1 (Some (open_channel [] None))))
    /\ channel_ (set_service_ (Some {| unregister_requested := true |})
                   (helper_with 1 (Some (open_channel [] None))))
       = Some (open_channel [] None)
    /\ (forall p', p' <> 1%N ->
          helper_at p' w'
          = helper_at p' (world_with (helper_with 1 (Some (open_channel [] None))) [])).
Proof.
  apply (proj2 (@SetDynamicChannel_disable queue_end_asserts
                  (world_with (helper_with 1 (Some (open_channel [] None))) []) 1)
           (helper_with 1 (Some (open_channel [] None)))
           {| unregister_requested := false |}); reflexivity.
Defined.

(** After [DisablePort(1)] has answered [OK], a lookup of port 1 still
    finds the helper: a Close on the port answers "Channel not open", not
    "Psm not registered". *)
Lemma DisablePort_keeps_the_registry_entry :
  @disable_then_lookup queue_end_asserts
  = Some (Status_OK, true, Channel_not_open).
Proof. vm_compute. reflexivity. Qed.

(** [DisablePort(1)] before the registration callback of port 1 has run
    dereferences the null [service_]. *)
Lemma DisablePort_before_registration_has_no_service :
  @disable_before_registration queue_end_asserts = None.
Proof. vm_compute. reflexivity. Qed.

(** C5 at port 1: a Connect that was refused with reason 4, then a Connect
    that opens the channel.  The second call returns the 4 of the first. *)
Theorem Connect_that_opens_reports_the_earlier_failure :
  @reconnect_after_failure queue_end_asserts
  = Some (Status_OK, Some 4%Z, (Status_OK, Some 4%Z), true).
Proof. vm_compute. reflexivity. Qed.

(** C6 at port 1, once idle and once with a channel that closes. *)
Lemma NotOpen_at_port_1 :
  (exists w',
     @SendDynamicChannelPacket queue_end_asserts 1 payload1
       (world_with (helper_with 1 None) [])
     = Some (Channel_not_open, w'))
  /\ (exists w1,
        @run_activity queue_end_asserts (do_close_callback 1 0%Z)
          (world_with (helper_with 1 (Some (open_channel [] None))) [])
        = Some (tt, w1)
        /\ CloseDynamicChannel 1 w1 = Some (Channel_not_open, w1)
        /\ (exists w2,
              @SendDynamicChannelPacket queue_end_asserts 1 payload1 w1
              = Some (Channel_not_open, w2))).
Proof.
  split.
  - apply (proj2 (proj1 (@NotOpen_before_open_and_after_close queue_end_asserts
                           (world_with (helper_with 1 None) []) 1
                           (helper_with 1 None) payload1 eq_refl eq_refl)
                    eq_refl));
      reflexivity.
  - destruct (proj2 (@NotOpen_before_open_and_after_close queue_end_asserts
                       (world_with (helper_with 1 (Some (open_channel [] None))) [])
                       1 (helper_with 1 (Some (open_channel [] None)))
                       payload1 eq_refl eq_refl)
                (open_channel [] None) 0%Z eq_refl)
      as (w1 & Eclose & EClose & _ & ESend).
    exists w1. split; [exact Eclose|]. split; [exact EClose|].
    apply ESend; reflexivity.
Defined.

(** C7 at port 1 with two units buffered. *)
Lemma on_incoming_packet_one_unit_at_port_1 :
  exists w',
    @on_incoming_packet 1
      (world_with (helper_with 1 (Some (open_channel [payload1; payload2] None))) [])
    = Some (tt, w')
    /\ inbound_units 1 w' = Some [payload2]
    /\ pending (relay w') = [] ++ [{| psm := 1; payload := payload1 |}]
    /\ published (relay w') = [] ++ [{| psm := 1; payload := payload1 |}]
    /\ written (relay w') = [].
Proof.
  apply (proj1 (on_incoming_packet_one_unit
                  (world_with
                     (helper_with 1 (Some (open_channel [payload1; payload2] None))) [])
                  1
                  (helper_with 1 (Some (open_channel [payload1; payload2] None)))
                  (open_channel [payload1; payload2] None)
                  eq_refl eq_refl eq_refl)
           payload1 [payload2]).
  reflexivity.
Defined.

(** C8 on two ports that publish in turn. *)
Lemma stream_keeps_publish_order_of_port_1 :
  of_port 1 (written (relay (@after queue_end_asserts two_ports)))
  `prefix_of` of_port 1 (published (relay (@after queue_end_asserts two_ports))).
Proof.
  apply (@stream_keeps_publish_order_per_port queue_end_asserts two_ports []).
  vm_compute. reflexivity.
Defined.

(** C9 at port 1: a channel opens and closes.  [on_connection_open]
    assigned [channel_] with the mutex held, [on_close_callback] without. *)
Theorem on_close_callback_assigns_channel_unlocked :
  @open_then_close queue_end_asserts = Some [true; false].
Proof. vm_compute. reflexivity. Qed.

(** C10 at port 1 with an open channel and nothing buffered. *)
Lemma on_incoming_packet_on_an_empty_queue :
  @on_incoming_packet 1
    (world_with (helper_with 1 (Some (open_channel [] None))) [])
  = None.
Proof.
  apply (proj1 (on_incoming_packet_needs_a_unit
                  (world_with (helper_with 1 (Some (open_channel [] None))) [])
                  1 (helper_with 1 (Some (open_channel [] None)))
                  (open_channel [] None) eq_refl eq_refl)).
  reflexivity.
Defined.

(** * More of the facade *)

Ltac unfold_more := unfold outbound_units, channel_at in *.

Section More.
Context `{Collaborators}.

(** The two parts of a callback, one after the other, are the callback. *)
Lemma on_connection_open_in_two_parts channel h :
  on_connection_open channel h
  = (on_connection_open_begin channel ;; on_connection_open_end) h.
Proof. open_helper h. destruct hm; exec; reflexivity. Qed.

Lemma enqueue_callback_in_two_parts p packet promise w :
  run_activity (do_enqueue_callback p packet promise) w
  = (run_activity (do_enqueue_callback_begin p packet promise) ;;
     run_activity
       (do_enqueue_callback_end p (RawBuilder_AddOctets 2000 packet))) w.
Proof.
  cbn [run_activity]. unfold enqueue_callback, bind, ret.
  repeat case_match; simplify_eq; reflexivity.
Qed.

(** X1: on a port that has no helper, OpenDynamicChannel,
    CloseDynamicChannel, the disabling SetDynamicChannel and
    SendDynamicChannelPacket all answer [FAILED_PRECONDITION "Psm not
    registered"] and leave the service as it was: no request reaches the
    L2CAP layer, no time passes, the map mutex is free again. *)
Theorem unregistered_port_answers w p :
  helper_at p w = None ->
  (forall remote,
     OpenDynamicChannel p remote w = Some ((Psm_not_registered, None), w))
  /\ CloseDynamicChannel p w = Some (Psm_not_registered, w)
  /\ SetDynamicChannel false p w = Some (Psm_not_registered, w)
  /\ (forall packet,
        channel_map_mutex_ (facade w) = false ->
        SendDynamicChannelPacket p packet w = Some (Psm_not_registered, w)).
Proof.
  intros Hh. open_world w. repeat split.
  - intros remote. exec. reflexivity.
  - exec. reflexivity.
  - exec. reflexivity.
  - intros packet Hmm. reduce. subst mm. exec. reflexivity.
Qed.

(** X2: enabling a port that has no helper answers [OK] at once, puts a
    new helper under that port and no other, sends one [RegisterService]
    to the L2CAP layer, and leaves the port without a channel: a Close on
    it answers "Channel not open". *)
Theorem SetDynamicChannel_enable_fresh w p :
  helper_at p w = None ->
  exists w',
    SetDynamicChannel true p w = Some (Status_OK, w')
    /\ helper_at p w' = Some (new_L2capDynamicChannelHelper p)
    /\ (forall q, q <> p -> helper_at q w' = helper_at q w)
    /\ l2cap_layer_ (facade w') = l2cap_layer_ (facade w) ++ [RegisterService p]
    /\ CloseDynamicChannel p w' = Some (Channel_not_open, w')
    /\ now_ms w' = now_ms w.
Proof.
  intros Hh. open_world w. exec. eexists. split; [reflexivity|]. exec.
  repeat split. intros q' Hq. now rewrite lookup_insert_ne.
Qed.

(** X3: on a port whose helper holds a channel, CloseDynamicChannel asks
    the channel to close and answers [OK] at once; the helper keeps its
    channel pointer, so a second Close answers [OK] as well, and no other
    port is touched. *)
Theorem CloseDynamicChannel_open w p h c :
  helper_at p w = Some h ->
  channel_ h = Some c ->
  exists w',
    CloseDynamicChannel p w = Some (Status_OK, w')
    /\ helper_at p w' = Some (put_channel_ (Some (Close c)) h)
    /\ (forall q, q <> p -> helper_at q w' = helper_at q w)
    /\ now_ms w' = now_ms w
    /\ exists w'', CloseDynamicChannel p w' = Some (Status_OK, w'').
Proof.
  intros Hh Hc. open_world w. open_helper h. reduce. subst hc. exec.
  eexists. split; [reflexivity|]. exec. repeat split.
  - intros q' Hq. now rewrite lookup_insert_ne.
  - eexists. reflexivity.
Qed.

(** X4: with a channel open, its enqueue slot free and
    [enqueue_callback] setting the promise [d <= 500] ms after the
    registration, SendDynamicChannelPacket answers [OK] after exactly [d]
    ms with the slot free again.  When the call has taken over at
    [promise.set_value()], the channel has not been handed the packet
    yet: it gets it, built by [RawBuilder(2000)], with the return of the
    callback.  When the callback had returned first, the channel has it
    already. *)
Theorem SendDynamicChannelPacket_accepted w p h c packet a d rest :
  helper_at p w = Some h ->
  channel_ h = Some c ->
  enqueue_registered c = None ->
  channel_map_mutex_ (facade w) = false ->
  next_promise w ∉ promises_set w ->
  agenda w = (d, a) :: rest ->
  d <= 500 ->
  a = do_enqueue_callback p packet (next_promise w)
  \/ a = do_enqueue_callback_begin p packet (next_promise w) ->
  exists w',
    SendDynamicChannelPacket p packet w = Some (Status_OK, w')
    /\ now_ms w' = now_ms w + d
    /\ outbound_slot p w' = None
    /\ agenda w' = rest
    /\ outbound_units p w'
       = Some (tx_buffer c ++
               match a with
               | do_enqueue_callback_begin _ _ _ => []
               | _ => [RawBuilder_AddOctets 2000 packet]
               end)
    /\ (a = do_enqueue_callback_begin p packet (next_promise w) ->
        exists w'',
          run_activity
            (do_enqueue_callback_end p (RawBuilder_AddOctets 2000 packet)) w'
          = Some (tt, w'')
          /\ outbound_units p w''
             = Some (tx_buffer c ++ [RawBuilder_AddOctets 2000 packet])).
Proof.
  intros Hh Hc Hslot Hmm Hfresh Hag Hd Ha. open_world w. open_helper h.
  open_channel_ c. reduce. subst hc slot mm ag.
  destruct Ha as [-> | ->].
  - exec. unfold wait_for. reduce.
    erewrite wait_loop_runs; [| reduce; now apply bool_decide_eq_false | exact Hd |].
    2:{ exec. rewrite bool_decide_eq_false_2 by exact Hfresh. exec. reflexivity. }
    rewrite wait_loop_ready; [| reduce; apply bool_decide_eq_true; set_solver].
    exec. eexists. split; [reflexivity|]. unfold_more. exec.
    do 4 (split; [reflexivity|]). intros E. discriminate E.
  - exec. unfold wait_for. reduce.
    erewrite wait_loop_runs; [| reduce; now apply bool_decide_eq_false | exact Hd |].
    2:{ exec. rewrite bool_decide_eq_false_2 by exact Hfresh. exec. reflexivity. }
    rewrite wait_loop_ready; [| reduce; apply bool_decide_eq_true; set_solver].
    exec. eexists. split; [reflexivity|]. unfold_more. exec.
    rewrite app_nil_r.
    do 4 (split; [reflexivity|]). intros _.
    eexists. split; [reflexivity|]. exec. reflexivity.
Qed.


(** X5: a send whose future is not ready within 500 ms answers "Channel
    not open" but leaves its callback registered on the queue end: when
    the queue gets ready later, [enqueue_callback] still hands the packet
    to the channel. *)
Theorem timed_out_Send_is_still_sent w p h c packet :
  helper_at p w = Some h ->
  channel_ h = Some c ->
  enqueue_registered c = None ->
  channel_map_mutex_ (facade w) = false ->
  next_promise w ∉ promises_set w ->
  quiet 500 (agenda w) = true ->
  exists w' w'',
    SendDynamicChannelPacket p packet w = Some (Channel_not_open, w')
    /\ outbound_slot p w' = Some (packet, next_promise w)
    /\ outbound_units p w' = Some (tx_buffer c)
    /\ run_activity (do_enqueue_callback p packet (next_promise w)) w'
       = Some (tt, w'')
    /\ outbound_slot p w'' = None
    /\ outbound_units p w''
       = Some (tx_buffer c ++ [RawBuilder_AddOctets 2000 packet]).
Proof.
  intros Hh Hc Hslot Hmm Hfresh Hq. open_world w. open_helper h. open_channel_ c.
  reduce. subst hc slot mm. exec.
  rewrite wait_for_quiet; [| reduce; now apply bool_decide_eq_false | exact Hq].
  exec. eexists. eexists. split; [reflexivity|]. unfold_more. exec.
  rewrite bool_decide_eq_false_2 by exact Hfresh. exec.
  do 3 (split; [reflexivity|]). exec. auto.
Qed.

Lemma wait_loop_quiet pred budget ag w :
  pred w = false -> quiet budget ag = true ->
  wait_loop pred budget ag w
  = Some (false, advance budget (set_agenda (postpone budget ag) w)).
Proof.
  intros Hp Hq. destruct ag as [|[d a] rest]; cbn.
  - rewrite Hp. reflexivity.
  - rewrite Hp. cbn in Hq. apply Nat.ltb_lt in Hq.
    destruct (Nat.leb_spec d budget); [lia|]. reflexivity.
Qed.

(** X6: when [on_connect_fail] answers a Connect after [d] ms and nothing
    else is due, OpenDynamicChannel still returns only after the full 2000
    ms: the failure notifies the condition variable, but the predicate
    [channel_ != nullptr] stays false.  The status field is the result
    that [on_connect_fail] stored. *)
Theorem Connect_refused_waits_out w p remote address h d result rest :
  helper_at p w = Some h ->
  Address_FromString remote = Some address ->
  channel_ h = None ->
  channel_open_cv_mutex_ h = false ->
  agenda w = (d, do_connect_fail p result) :: rest ->
  d <= 2000 ->
  quiet (2000 - d) rest = true ->
  exists w',
    OpenDynamicChannel p remote w
    = Some ((Status_OK, Some (l2cap_connection_response_result result)), w')
    /\ now_ms w' = now_ms w + 2000
    /\ channel_is_open p w' = false
    /\ (channel_open_fail_reason_ <$> helper_at p w') = Some result.
Proof.
  intros Hh Ha Hc Hm Hag Hd Hq. open_world w. open_helper h.
  reduce. subst hc hm ag. exec.
  unfold wait_for. reduce.
  erewrite wait_loop_runs; [| exec; reflexivity | exact Hd | exec; reflexivity].
  rewrite wait_loop_quiet; [| exec; reflexivity | exact Hq].
  exec. eexists. split; [reflexivity|]. exec. repeat split. lia.
Qed.

(** X7: when [on_connection_open] answers a Connect after [d <= 2000]
    ms, OpenDynamicChannel returns [OK] after exactly [d] ms, the L2CAP
    layer has got one [ConnectChannel] for the parsed address and the
    helper's port, and the helper holds the channel.  When the call has
    taken over at [notify_all], neither the close callback nor the
    dequeue callback is registered on the channel yet: the rest of
    [on_connection_open] registers them.  When the callback had returned
    first, both are registered. *)
Theorem Connect_opens_returns_early w p remote address h a d channel rest :
  helper_at p w = Some h ->
  Address_FromString remote = Some address ->
  channel_ h = None ->
  channel_open_cv_mutex_ h = false ->
  agenda w = (d, a) :: rest ->
  d <= 2000 ->
  a = do_connection_open p channel \/ a = do_connection_open_begin p channel ->
  exists r w',
    OpenDynamicChannel p remote w = Some ((Status_OK, r), w')
    /\ now_ms w' = now_ms w + d
    /\ agenda w' = rest
    /\ l2cap_layer_ (facade w')
       = l2cap_layer_ (facade w) ++ [ConnectChannel address (psm_ h)]
    /\ channel_at p w'
       = Some (match a with
               | do_connection_open_begin _ _ => channel
               | _ => RegisterDequeue (RegisterOnCloseCallback channel)
               end)
    /\ (a = do_connection_open_begin p channel ->
        exists w'',
          run_activity (do_connection_open_end p) w' = Some (tt, w'')
          /\ channel_at p w''
             = Some (RegisterDequeue (RegisterOnCloseCallback channel))).
Proof.
  intros Hh Ha Hc Hm Hag Hd Hform. open_world w. open_helper h.
  reduce. subst hc hm ag.
  destruct Hform as [-> | ->].
  - exec. unfold wait_for. reduce.
    erewrite wait_loop_runs; [| exec; reflexivity | exact Hd | exec; reflexivity].
    rewrite wait_loop_ready; [| exec; reflexivity].
    exec. eexists. eexists. split; [reflexivity|]. unfold_more. exec.
    do 4 (split; [reflexivity|]). intros E. discriminate E.
  - exec. unfold wait_for. reduce.
    erewrite wait_loop_runs; [| exec; reflexivity | exact Hd | exec; reflexivity].
    rewrite wait_loop_ready; [| exec; reflexivity].
    exec. eexists. eexists. split; [reflexivity|]. unfold_more. exec.
    do 4 (split; [reflexivity|]). intros _.
    eexists. split; [reflexivity|]. exec. reflexivity.
Qed.

(** X8: OpenDynamicChannel on a port whose channel is already open sends
    one more [ConnectChannel] to the L2CAP layer and returns at once,
    since the wait's predicate already holds; helper, agenda and clock
    are as before. *)
Theorem Connect_on_open_channel_returns_at_once w p remote address h c :
  helper_at p w = Some h ->
  Address_FromString remote = Some address ->
  channel_ h = Some c ->
  channel_open_cv_mutex_ h = false ->
  exists w',
    OpenDynamicChannel p remote w
    = Some ((Status_OK,
             Some (l2cap_connection_response_result (channel_open_fail_reason_ h))),
            w')
    /\ now_ms w' = now_ms w
    /\ agenda w' = agenda w
    /\ helper_at p w' = Some h
    /\ l2cap_layer_ (facade w')
       = l2cap_layer_ (facade w) ++ [ConnectChannel address (psm_ h)].
Proof.
  intros Hh Ha Hc Hm. open_world w. open_helper h.
  reduce. subst hc hm. exec.
  unfold wait_for. reduce.
  rewrite wait_loop_ready; [| exec; reflexivity].
  exec. eexists. split; [reflexivity|]. exec. auto.
Qed.


(** X9: [on_connect_fail] on a helper that holds an open channel drops
    the channel and stores the result:
    afterwards the port counts as not open and a Close answers "Channel
    not open". *)
Theorem on_connect_fail_drops_an_open_channel w p h c result :
  helper_at p w = Some h ->
  channel_ h = Some c ->
  channel_open_cv_mutex_ h = false ->
  exists w' h',
    run_activity (do_connect_fail p result) w = Some (tt, w')
    /\ helper_at p w' = Some h'
    /\ channel_ h' = None
    /\ channel_open_fail_reason_ h' = result
    /\ channel_is_open p w' = false
    /\ CloseDynamicChannel p w' = Some (Channel_not_open, w').
Proof.
  intros Hh Hc Hm. open_world w. open_helper h. reduce. subst hc hm. exec.
  eexists. eexists. split; [reflexivity|]. exec. repeat split.
Qed.

(** X10: on a helper without a channel, [on_close_callback],
    [on_incoming_packet] and [enqueue_callback] dereference the null
    [channel_] and do not return, while CloseDynamicChannel checks the
    pointer and answers "Channel not open". *)
Theorem callbacks_need_a_channel w p h :
  helper_at p w = Some h ->
  channel_ h = None ->
  (forall error_code, run_activity (do_close_callback p error_code) w = None)
  /\ run_activity (do_incoming_packet p) w = None
  /\ (forall packet promise,
        run_activity (do_enqueue_callback p packet promise) w = None)
  /\ CloseDynamicChannel p w = Some (Channel_not_open, w).
Proof.
  intros Hh Hc. open_world w. open_helper h. reduce. subst hc.
  repeat split; intros; exec; try reflexivity.
  destruct hm; reflexivity.
Qed.

(** X11: disabling a port whose helper has no [service_] dereferences a
    null pointer.  A registration that completes with a result other than
    [SUCCESS] changes nothing, so the port stays in that state; one that
    completes with [SUCCESS] stores the service, and the disabling
    SetDynamicChannel then answers [OK]. *)
Theorem DisablePort_needs_the_service w p h :
  helper_at p w = Some h ->
  service_ h = None ->
  SetDynamicChannel false p w = None
  /\ (forall code s,
        run_activity
          (do_registration_complete p (RegistrationResult_other code) s) w
        = Some (tt, w))
  /\ (forall s,
        exists w',
          run_activity (do_registration_complete p SUCCESS s) w = Some (tt, w')
          /\ exists w'', SetDynamicChannel false p w' = Some (Status_OK, w'')).
Proof.
  intros Hh Hs. open_world w. open_helper h. reduce. subst hs.
  repeat split; intros; exec; try reflexivity.
  - now rewrite (insert_id _ _ _ Hh).
  - eexists. split; [reflexivity|]. exec. eexists. reflexivity.
Qed.

(** X12: whatever they answer, CloseDynamicChannel and
    SetDynamicChannel on port [p] leave the helpers of all other ports,
    the event queue of FetchL2capData, the clock and the agenda as they
    were; Close sends nothing to the L2CAP layer either. *)
Theorem Close_and_SetDynamicChannel_touch_one_port w p :
  (forall s w',
     CloseDynamicChannel p w = Some (s, w') ->
     (forall q, q <> p -> helper_at q w' = helper_at q w)
     /\ relay w' = relay w /\ now_ms w' = now_ms w /\ agenda w' = agenda w
     /\ l2cap_layer_ (facade w') = l2cap_layer_ (facade w))
  /\ (forall enable s w',
        SetDynamicChannel enable p w = Some (s, w') ->
        (forall q, q <> p -> helper_at q w' = helper_at q w)
        /\ relay w' = relay w /\ now_ms w' = now_ms w /\ agenda w' = agenda w).
Proof.
  open_world w. split.
  - intros s w'. exec. repeat case_match; intros; simplify_eq; reduce;
      repeat split; intros; try reflexivity; now rewrite lookup_insert_ne.
  - intros enable s w'. destruct enable; exec;
      repeat case_match; intros; simplify_eq; reduce;
      repeat split; intros; try reflexivity; now rewrite ?lookup_insert_ne.
Qed.

(** X13: SendDynamicChannelPacket on a registered port without a channel
    waits for the channel: if [on_connection_open] assigns it after
    [d1 <= 2000] ms and [enqueue_callback] sets the promise [d2 <= 500]
    ms later, the call answers [OK] after [d1 + d2] ms with the slot free
    again, whether it has taken over at the notification of
    [on_connection_open] or after its return.  The new channel has been
    handed the packet when [enqueue_callback] had returned, and not yet
    when the call has taken over at [promise.set_value()]. *)
Theorem Send_waits_for_the_channel w p h packet d1 channel d2 a rest :
  helper_at p w = Some h ->
  channel_ h = None ->
  channel_open_cv_mutex_ h = false ->
  channel_map_mutex_ (facade w) = false ->
  next_promise w ∉ promises_set w ->
  enqueue_registered channel = None ->
  agenda w = (d1, do_connection_open p channel) :: (d2, a) :: rest
  \/ agenda w = (d1, do_connection_open_begin p channel)
                :: (0, do_connection_open_end p) :: (d2, a) :: rest ->
  a = do_enqueue_callback p packet (next_promise w)
  \/ a = do_enqueue_callback_begin p packet (next_promise w) ->
  d1 <= 2000 -> d2 <= 500 ->
  exists w',
    SendDynamicChannelPacket p packet w = Some (Status_OK, w')
    /\ now_ms w' = now_ms w + d1 + d2
    /\ agenda w' = rest
    /\ outbound_slot p w' = None
    /\ outbound_units p w'
       = Some (tx_buffer channel ++
               match a with
               | do_enqueue_callback_begin _ _ _ => []
               | _ => [RawBuilder_AddOctets 2000 packet]
               end).
Proof.
  intros Hh Hc Hm Hmm Hfresh Hslot Hag Ha Hd1 Hd2. open_world w. open_helper h.
  destruct channel as [k1 k2 k3 krx kslot ktx].
  reduce. subst hc hm mm kslot.
  destruct Hag as [-> | ->], Ha as [-> | ->].
  all: exec; unfold wait_for; reduce.
  all: erewrite wait_loop_runs; [| exec; reflexivity | exact Hd1 | exec; reflexivity].
  all: rewrite wait_loop_ready; [| exec; reflexivity].
  all: exec.
  3,4: erewrite wait_loop_runs;
    [| reduce; now apply bool_decide_eq_false | lia | exec; reflexivity].
  all: erewrite wait_loop_runs;
    [| reduce; now apply bool_decide_eq_false | try exact Hd2; lia |].
  2,4,6,8: exec; rewrite bool_decide_eq_false_2 by exact Hfresh; exec; reflexivity.
  all: rewrite wait_loop_ready; [| reduce; apply bool_decide_eq_true; set_solver].
  all: exec; eexists; (split; [reflexivity|]); unfold_more; exec;
    rewrite ?app_nil_r; repeat split; lia.
Qed.


Lemma on_incoming_packet_takes_the_head w p h c u rest :
  helper_at p w = Some h ->
  channel_ h = Some c ->
  rx_buffer c = u :: rest ->
  on_incoming_packet p w
  = Some (tt,
          set_facade
            (set_pending_l2cap_data_
               (OnIncomingEvent {| psm := psm_ h; payload := u |}
                  (pending_l2cap_data_ (facade w)))
               (set_dynamic_channel_helper_map_
                  (<[p := put_channel_ (Some (set_rx_buffer rest c)) h]>
                     (dynamic_channel_helper_map_ (facade w)))
                  (facade w)))
            w).
Proof.
  intros Hh Hc Hrx. open_world w. open_helper h. open_channel_ c.
  reduce. subst hc rx. exec. reflexivity.
Qed.

(** X14: as many [on_incoming_packet] runs as there are units buffered
    take the units off the channel in their order and append one event
    per unit, in the same order and with the helper's port, to the event
    queue; nothing is written to the stream by that. *)
Theorem on_incoming_packet_publishes_in_order us : forall w p h c rest,
  helper_at p w = Some h ->
  channel_ h = Some c ->
  rx_buffer c = us ++ rest ->
  exists w',
    run (replicate (length us) (happens (do_incoming_packet p))) w = Some (tt, w')
    /\ inbound_units p w' = Some rest
    /\ pending (relay w')
       = pending (relay w) ++ map (fun u => {| psm := psm_ h; payload := u |}) us
    /\ published (relay w')
       = published (relay w) ++ map (fun u => {| psm := psm_ h; payload := u |}) us
    /\ written (relay w') = written (relay w).
Proof.
  induction us as [|u us IH]; intros w p h c rest Hh Hc Hrx.
  - exists w. cbn. unfold inbound_units. rewrite Hh. cbn. rewrite Hc. cbn.
    rewrite Hrx, !app_nil_r. auto.
  - cbn [length replicate run perform run_activity]. unfold bind at 1.
    rewrite (on_incoming_packet_takes_the_head w p h c u (us ++ rest) Hh Hc Hrx).
    set (h1 := put_channel_ (Some (set_rx_buffer (us ++ rest) c)) h).
    set (w1 := set_facade _ w).
    destruct (IH w1 p h1 (set_rx_buffer (us ++ rest) c) rest)
      as (w' & Erun & Hin & Hpend & Hpub & Hwr).
    { subst w1. unfold helper_at. cbn. apply lookup_insert_eq. }
    { reflexivity. }
    { reflexivity. }
    exists w'. split; [exact Erun|]. split; [exact Hin|].
    rewrite Hpend, Hpub, Hwr. subst w1 h1. unfold relay. cbn.
    rewrite <- !app_assoc. auto.
Qed.

End More.

Section Bounds.
Context `{Collaborators}.

Lemma within_refl w : within 0 w w.
Proof. split; [lia|auto]. Qed.

Lemma within_trans n1 n2 w1 w2 w3 :
  within n1 w1 w2 -> within n2 w2 w3 -> within (n1 + n2) w1 w3.
Proof. intros [[? ?] R1] [[? ?] R2]. split; [lia|auto]. Qed.

Lemma within_weaken n n' w w' : n <= n' -> within n w w' -> within n' w w'.
Proof. intros Hn [[? ?] R1]. split; [lia|auto]. Qed.

Lemma takes_weaken {A} n n' (m : WorldM A) : n <= n' -> takes n m -> takes n' m.
Proof. intros Hn Hm w a w' E. eapply within_weaken; eauto. Qed.

Lemma takes_ret {A} (a : A) : takes 0 (ret a).
Proof. intros w a' w' E. unfold ret in E. simplify_eq. apply within_refl. Qed.

Lemma takes_crash {A} n : takes n (@crash World A).
Proof. intros w a w' E. discriminate E. Qed.

Lemma takes_gets {A} (f : World -> A) : takes 0 (gets f).
Proof. intros w a' w' E. unfold gets in E. simplify_eq. apply within_refl. Qed.

Lemma takes_bind {A B} n1 n2 (m : WorldM A) (k : A -> WorldM B) :
  takes n1 m -> (forall a, takes n2 (k a)) -> takes (n1 + n2) (x <- m ;; k x).
Proof.
  intros Hm Hk w b w' E. unfold bind in E.
  destruct (m w) as [[a w1]|] eqn:E1; [|discriminate].
  eapply within_trans; [eapply Hm | eapply Hk]; eauto.
Qed.

(** A step that changes neither the clock nor the registry. *)
Lemma takes_nothing {A} (m : WorldM A) :
  (forall w a w', m w = Some (a, w') ->
     now_ms w' = now_ms w
     /\ dynamic_channel_helper_map_ (facade w')
        = dynamic_channel_helper_map_ (facade w)) ->
  takes 0 m.
Proof.
  intros Hm w a w' E. destruct (Hm _ _ _ E) as [Ht Hmap].
  split; [lia|]. intros p k (h & Hh & Hk). exists h.
  unfold helper_at in *. now rewrite Hmap.
Qed.

Lemma takes_on_facade f :
  (forall s, dynamic_channel_helper_map_ (f s) = dynamic_channel_helper_map_ s) ->
  takes 0 (on_facade f).
Proof.
  intros Hf. apply takes_nothing. intros w a w' E.
  unfold on_facade, modify in E. simplify_eq. cbn. auto.
Qed.

Lemma takes_with_helper {A} q (m : HelperM A) :
  keeps_psm_ m -> takes 0 (with_helper q m).
Proof.
  intros Hm w a w' E. unfold with_helper in E.
  destruct (dynamic_channel_helper_map_ (facade w) !! q) as [h|] eqn:Eh;
    [|discriminate].
  destruct (m h) as [[a' h']|] eqn:Em; [|discriminate]. simplify_eq.
  split; [cbn; lia|]. intros p k (h0 & Hh0 & Hk). unfold registered_as, helper_at in *.
  cbn. rewrite lookup_insert. case_decide as Hp.
  - subst q. exists h'. split; [reflexivity|]. rewrite (Hm _ _ _ Em). congruence.
  - exists h0. auto.
Qed.

Lemma takes_emplace p :
  takes 0 (on_facade (fun f =>
    set_dynamic_channel_helper_map_
      (emplace p (new_L2capDynamicChannelHelper p) (dynamic_channel_helper_map_ f))
      f)).
Proof.
  intros w a w' E. unfold on_facade, modify in E. simplify_eq.
  split; [cbn; lia|]. intros q k (h0 & Hh0 & Hk). unfold registered_as, helper_at in *.
  cbn. unfold emplace.
  destruct (dynamic_channel_helper_map_ (facade w) !! p) eqn:Ep; [eauto|].
  rewrite lookup_insert. case_decide as Hp; [congruence|eauto].
Qed.

Lemma takes_promise_set_value n : takes 0 (promise_set_value n).
Proof.
  apply takes_nothing. intros w a w' E. unfold promise_set_value in E.
  case_bool_decide; simplify_eq. auto.
Qed.

Lemma takes_new_promise : takes 0 new_promise.
Proof.
  apply takes_nothing. intros w a w' E. unfold new_promise in E. simplify_eq. auto.
Qed.

Lemma takes_on_incoming_packet p : takes 0 (on_incoming_packet p).
Proof.
  unfold on_incoming_packet.
  apply (takes_bind 0 0); [apply takes_with_helper, keeps_psm_channel_TryDequeue|].
  intros packet.
  apply (takes_bind 0 0); [destruct packet; [apply takes_ret|apply takes_crash]|].
  intros data.
  apply (takes_bind 0 0); [apply takes_with_helper, keeps_psm_gets|]. intros p0.
  now apply takes_on_facade.
Qed.

Lemma takes_promises_destroyed ps : takes 0 (promises_destroyed ps).
Proof.
  apply takes_nothing. intros w a w' E.
  unfold promises_destroyed, modify in E. simplify_eq. auto.
Qed.

Lemma takes_enqueue_callback p packet n : takes 0 (enqueue_callback p packet n).
Proof.
  unfold enqueue_callback.
  apply (takes_bind 0 0); [apply takes_with_helper, keeps_psm_on_channel_|].
  intros _. apply (takes_bind 0 0); [apply takes_promise_set_value|]. intros _.
  apply takes_ret.
Qed.

Lemma takes_receive_unit p u : takes 0 (receive_unit p u).
Proof.
  intros w a w' E. unfold receive_unit in E.
  destruct (with_helper p _ w) as [[a1 w1]|] eqn:E1; simplify_eq;
    [|apply within_refl].
  eapply takes_with_helper; [|exact E1]. apply keeps_psm_on_channel_.
Qed.

Lemma takes_run_activity a : takes 0 (run_activity a).
Proof.
  destruct a; unfold run_activity.
  - apply takes_with_helper, keeps_psm_registration.
  - apply takes_with_helper, keeps_psm_on_connection_open.
  - apply takes_with_helper, keeps_psm_on_close_callback.
  - apply takes_with_helper, keeps_psm_on_connect_fail.
  - apply takes_on_incoming_packet.
  - apply (takes_bind 0 0); [apply takes_enqueue_callback|].
    intros ?; apply takes_with_helper, keeps_psm_on_channel_.
  - apply takes_receive_unit.
  - unfold FetchL2capData_write. now apply takes_on_facade.
  - apply takes_with_helper, keeps_psm_on_connection_open_begin.
  - apply takes_with_helper, keeps_psm_on_connection_open_end.
  - apply (takes_bind 0 0); [apply takes_enqueue_callback|].
    intros _. apply takes_ret.
  - apply takes_with_helper, keeps_psm_on_channel_.
Qed.

Lemma within_wait_loop pred ag : forall budget w r w',
  wait_loop pred budget ag w = Some (r, w') -> within budget w w'.
Proof.
  induction ag as [|[d a] rest IH]; intros budget w r w' E; cbn in E.
  - destruct (pred w); simplify_eq; (split; [cbn; lia|auto]).
  - destruct (pred w); [simplify_eq; split; [cbn; lia|auto]|].
    destruct (Nat.leb_spec d budget); [|simplify_eq; split; [cbn; lia|auto]].
    destruct (run_activity a (advance d w)) as [[[] w1]|] eqn:Ea; [|discriminate].
    apply IH in E. apply takes_run_activity in Ea.
    destruct Ea as [[? ?] Ra], E as [[? ?] Re]. cbn in *. split; [lia|]. auto.
Qed.

Lemma takes_wait_for pred budget : takes budget (wait_for pred budget).
Proof. intros w r w' E. eapply within_wait_loop; eauto. Qed.

Lemma takes_cv_wait_for p budget : takes budget (cv_wait_for p budget).
Proof.
  unfold cv_wait_for.
  apply (takes_bind 0 budget); [apply takes_with_helper, keeps_psm_unlock|].
  intros _. apply (takes_weaken (budget + 0)); [lia|].
  apply takes_bind; [apply takes_wait_for|]. intros r.
  apply (takes_bind 0 0); [apply takes_with_helper, keeps_psm_lock|]. intros _.
  apply takes_ret.
Qed.

Lemma takes_Connect p address : takes 2000 (Connect p address).
Proof.
  unfold Connect.
  apply (takes_bind 0 2000); [apply takes_with_helper, keeps_psm_gets|]. intros p0.
  apply (takes_bind 0 2000); [now apply takes_on_facade|]. intros _.
  apply (takes_bind 0 2000); [apply takes_with_helper, keeps_psm_lock|]. intros _.
  apply (takes_bind 2000 0); [apply takes_cv_wait_for|]. intros _.
  apply takes_with_helper, keeps_psm_unlock.
Qed.

Lemma takes_SendPacket p packet : takes 2500 (SendPacket p packet).
Proof.
  unfold SendPacket.
  apply (takes_bind 0 2500); [apply takes_with_helper, keeps_psm_gets|]. intros h.
  apply (takes_bind 2000 500).
  { destruct (channel_ h); [apply (takes_weaken 0); [lia|apply takes_ret]|].
    apply (takes_bind 0 2000); [apply takes_with_helper, keeps_psm_lock|]. intros _.
    apply (takes_bind 2000 0); [apply takes_cv_wait_for|]. intros r.
    apply (takes_bind 0 0); [apply takes_with_helper, keeps_psm_unlock|]. intros _.
    apply takes_ret. }
  intros opened. destruct (negb opened); [apply (takes_weaken 0); [lia|apply takes_ret]|].
  apply (takes_bind 0 500); [apply takes_new_promise|]. intros promise.
  apply (takes_bind 0 500);
    [apply takes_with_helper, keeps_psm_channel_RegisterEnqueue|]. intros gone.
  apply (takes_bind 0 500); [apply takes_promises_destroyed|]. intros _.
  apply (takes_bind 500 0); [apply takes_wait_for|]. intros ready.
  destruct (negb ready); apply takes_ret.
Qed.

Lemma takes_OpenDynamicChannel p remote : takes 2000 (OpenDynamicChannel p remote).
Proof.
  unfold OpenDynamicChannel, find.
  apply (takes_bind 0 2000); [apply takes_gets|]. intros [h|];
    [|apply (takes_weaken 0); [lia|apply takes_ret]].
  destruct (Address_FromString remote); [|apply takes_crash].
  apply (takes_bind 2000 0); [apply takes_Connect|]. intros _.
  apply (takes_bind 0 0); [apply takes_with_helper, keeps_psm_gets|]. intros r.
  apply takes_ret.
Qed.

Lemma takes_CloseDynamicChannel p : takes 0 (CloseDynamicChannel p).
Proof.
  unfold CloseDynamicChannel, find.
  apply (takes_bind 0 0); [apply takes_gets|]. intros [h|]; [|apply takes_ret].
  destruct (channel_ h); [|apply takes_ret].
  apply (takes_bind 0 0); [apply takes_with_helper, keeps_psm_on_channel_|].
  intros _. apply takes_ret.
Qed.

Lemma takes_SetDynamicChannel enable p : takes 0 (SetDynamicChannel enable p).
Proof.
  unfold SetDynamicChannel, find. destruct enable.
  - apply (takes_bind 0 0); [now apply takes_on_facade|]. intros _.
    apply (takes_bind 0 0); [apply takes_emplace|]. intros _. apply takes_ret.
  - apply (takes_bind 0 0); [apply takes_gets|]. intros [h|]; [|apply takes_ret].
    apply (takes_bind 0 0); [|intros _; apply takes_ret].
    apply takes_with_helper.
    apply keeps_psm_bind; [apply keeps_psm_deref_service_|]. intros s.
    now apply keeps_psm_modify.
Qed.

Lemma takes_SendDynamicChannelPacket p packet :
  takes 2500 (SendDynamicChannelPacket p packet).
Proof.
  unfold SendDynamicChannelPacket, find, unlock_channel_map.
  apply (takes_bind 0 2500).
  { apply takes_nothing. intros w a w' E. unfold lock_channel_map in E.
    destruct (channel_map_mutex_ (facade w)); simplify_eq. auto. }
  intros _. apply (takes_bind 0 2500); [apply takes_gets|]. intros [h|].
  - apply (takes_bind 2500 0); [apply takes_SendPacket|]. intros sent.
    destruct (negb sent);
      (apply (takes_bind 0 0); [now apply takes_on_facade|]; intros _;
       apply takes_ret).
  - apply (takes_weaken 0); [lia|].
    apply (takes_bind 0 0); [now apply takes_on_facade|]. intros _. apply takes_ret.
Qed.

Lemma takes_perform x : takes 2500 (perform x).
Proof.
  destruct x; unfold perform.
  - apply (takes_weaken 0); [lia|].
    apply (takes_bind 0 0); [apply takes_SetDynamicChannel|]. intros _. apply takes_ret.
  - apply (takes_weaken (2000 + 0)); [lia|].
    apply takes_bind; [apply takes_OpenDynamicChannel|]. intros _. apply takes_ret.
  - apply (takes_weaken 0); [lia|].
    apply (takes_bind 0 0); [apply takes_CloseDynamicChannel|]. intros _. apply takes_ret.
  - apply (takes_bind 2500 0); [apply takes_SendDynamicChannelPacket|]. intros _.
    apply takes_ret.
  - apply (takes_weaken 0); [lia|]. apply takes_run_activity.
  - apply (takes_weaken 0); [lia|]. apply takes_nothing.
    intros w a w' E. unfold modify in E. simplify_eq. auto.
Qed.

Lemma takes_run xs : takes (2500 * length xs) (run xs).
Proof.
  induction xs as [|x rest IH]; cbn [run length].
  - apply takes_ret.
  - apply (takes_weaken (2500 + 2500 * length rest)); [lia|].
    apply takes_bind; [apply takes_perform | intros _; exact IH].
Qed.


(** X16: nothing erases from [dynamic_channel_helper_map_].  A port that
    has a helper has one after any history of control calls and callbacks,
    made for the same port, whatever was disabled or closed in between. *)
Theorem registry_never_shrinks xs w w' p h :
  run xs w = Some (tt, w') ->
  helper_at p w = Some h ->
  exists h', helper_at p w' = Some h' /\ psm_ h' = psm_ h.
Proof.
  intros E Hh. destruct (takes_run xs _ _ _ E) as [_ Hreg].
  apply (Hreg p (psm_ h)). exists h. auto.
Qed.

End Bounds.

(** * The Hands-Free client bridge: proofs *)

Ltac open_bridge s :=
  destruct s as [up obj ids calls refs arrays strings locals errs ups].

Ltac unfold_bridge :=
  unfold enter, sMethods, sBluetoothHfpClientCallbacks,
    connectNative, disconnectNative, connectAudioNative, disconnectAudioNative,
    startVoiceRecognitionNative, stopVoiceRecognitionNative, setVolumeNative,
    dialNative, dialMemoryNative, handleCallActionNative,
    queryCurrentCallsNative, queryCurrentOperatorNameNative,
    retrieveSubscriberInfoNative, sendDtmfNative,
    requestLastVoiceTagNumberNative, sendATCmdNative,
    connection_state_cb, audio_state_cb, vr_cmd_cb, network_state_cb,
    network_roaming_cb, network_signal_cb, battery_level_cb,
    current_operator_cb, call_cb, callsetup_cb, callheld_cb, resp_and_hold_cb,
    clip_cb, call_waiting_cb, current_calls_cb, volume_change_cb,
    cmd_complete_cb, subscriber_info_cb, in_band_ring_cb,
    last_voice_tag_number_cb, ring_indication_cb,
    classInitNative, initializeNative, cleanupNative, clean_interface,
    clean_callbacks, hal, GetByteArrayElements, ReleaseByteArrayElements,
    GetStringUTFChars, ReleaseStringUTFChars, jniThrowIOException,
    NewByteArray, NewStringUTF, DeleteLocalRef, CallVoidMethod,
    bind, ret, modify, gets,
    set_interface, set_callbacks, set_method_ids, set_hal_calls, set_pins,
    set_thrown, set_java_calls in *.

Ltac bridge := unfold_bridge; cbn -[bool_decide filter take drop] in *.

Lemma protocol_app (calls : list HalCall) :
  forall up c,
    protocol up (calls ++ [c]) =
    match protocol up calls with
    | Some up' => protocol up' [c]
    | None => None
    end.
Proof.
  induction calls as [|c0 calls IH]; intros up c; [reflexivity|].
  destruct c0, up; cbn [app protocol]; try reflexivity; apply IH.
Qed.

Lemma DeleteGlobalRef_head (o : jobject) (g : list jobject) :
  DeleteGlobalRef o (o :: g) = g.
Proof. cbn. rewrite bool_decide_eq_true_2; reflexivity. Qed.

Lemma enter_tidy_or_stops (ans : Answers) (e : Entry) (s : Bridge) :
  tidy s ->
  enter ans e s = None \/ exists s', enter ans e s = Some (tt, s') /\ tidy s'.
Proof.
  unfold tidy. open_bridge s. cbn [hal_calls sBluetoothHfpClientInterface
    global_refs mCallbacksObj pinned_arrays pinned_strings local_refs].
  intros (P & G & I & -> & -> & ->).
  destruct e as [found|object| |c|cb].
  - right. eexists; split; [reflexivity|]. bridge. auto 10.
  - right. bridge. destruct (bluetooth_loaded ans); bridge;
      [|eexists; split; [reflexivity|]; auto 10].
    assert (U : protocol false
                  (if up then calls ++ [hal_cleanup] else calls) = Some false).
    { destruct up; [rewrite protocol_app, P; reflexivity | exact P]. }
    assert (R : (match obj with
                 | Some o => DeleteGlobalRef o refs
                 | None => refs
                 end) = []).
    { destruct obj as [o|]; subst refs; [apply DeleteGlobalRef_head | reflexivity]. }
    destruct up, obj as [o|]; bridge;
      destruct (profile_found ans); bridge;
      try (eexists; split; [reflexivity|]; cbn;
           repeat split; try assumption; try (intros [? ?]; discriminate); fail);
      destruct (hal_status ans); bridge;
      try destruct (global_ref_made ans); bridge;
      (eexists; split; [reflexivity|]; cbn;
       rewrite ?R; repeat split; try reflexivity;
       try (intros [? ?]; discriminate);
       rewrite protocol_app, U; reflexivity).
  - right. bridge. destruct (bluetooth_loaded ans); bridge;
      [|eexists; split; [reflexivity|]; auto 10].
    destruct up, obj as [o|]; bridge;
      (eexists; split; [reflexivity|]; cbn; subst refs;
       rewrite ?DeleteGlobalRef_head; repeat split; try reflexivity;
       try (intros [? ?]; discriminate);
       try (rewrite protocol_app, P; reflexivity); try assumption).
  - destruct up.
    + destruct c; bridge; destruct (elements_got ans); bridge;
        try (left; reflexivity);
        try (right; eexists; split; [reflexivity|]; cbn;
             rewrite ?protocol_app, P; auto 10; fail);
        match goal with
        | o : option string |- _ =>
            destruct o; bridge; try destruct (utf_chars_got ans); bridge;
            (right; eexists; split; [reflexivity|]; cbn;
             rewrite ?protocol_app, P; auto 10)
        end.
    + right. destruct c; bridge; (eexists; split; [reflexivity|]; auto 10).
  - right. destruct cb; bridge; destruct (callback_env_valid ans); bridge;
      try (eexists; split; [reflexivity|]; auto 10; fail);
      try (destruct (byte_array_made ans); bridge;
           (eexists; split; [reflexivity|]; auto 10); fail);
      destruct (string_made ans); bridge;
      (eexists; split; [reflexivity|]; auto 10).
Qed.

Lemma enter_tidy (ans : Answers) (e : Entry) (s s' : Bridge) :
  tidy s -> enter ans e s = Some (tt, s') -> tidy s'.
Proof.
  intros T E. destruct (enter_tidy_or_stops ans e s T) as [N | (s1 & E1 & T1)].
  - rewrite N in E. discriminate E.
  - rewrite E1 in E. now simplify_eq.
Qed.

Lemma session_tidy (es : list (Answers * Entry)) :
  forall s s', tidy s -> session es s = Some (tt, s') -> tidy s'.
Proof.
  induction es as [|[ans e] es IH]; intros s s' T E.
  - cbn in E. unfold ret in E. now simplify_eq.
  - cbn [session] in E. unfold bind in E.
    destruct (enter ans e s) as [[[] s1]|] eqn:E1; [|discriminate E].
    apply (IH s1 s' (enter_tidy ans e s s1 T E1) E).
Qed.

Lemma loaded_tidy : tidy loaded.
Proof.
  unfold tidy, loaded; cbn. repeat split; try reflexivity.
  intros [? ?]; discriminate.
Qed.

Lemma all_methods_complete (m : Method) : m ∈ all_methods.
Proof. destruct m; unfold all_methods; set_solver. Qed.

Lemma jint_of_unsigned_keeps_the_bits (u : Z) :
  (0 <= u < 2 ^ 32)%Z ->
  (- 2 ^ 31 <= jint_of_unsigned u < 2 ^ 31)%Z
  /\ (jint_of_unsigned u mod 2 ^ 32 = u)%Z.
Proof.
  intros R. unfold jint_of_unsigned.
  destruct (Z.ltb_spec u (2 ^ 31)).
  - split; [lia|]. apply Z.mod_small; lia.
  - split; [lia|].
    replace (u - 2 ^ 32)%Z with (u + (-1) * 2 ^ 32)%Z by lia.
    rewrite Z.mod_add by lia. apply Z.mod_small; lia.
Qed.

(** X19: whatever natives and callbacks enter the file in whatever order
    and whatever the runtime and the stack answer, as long as the entries
    return, the functions of the interface are called in order: [init]
    only on an interface that is down, [cleanup] and the commands only
    after an [init] that succeeded and before the next [cleanup]; and the
    pointer [sBluetoothHfpClientInterface] is set exactly when the
    interface is up. *)
Theorem session_keeps_the_interface_protocol (es : list (Answers * Entry))
    (s : Bridge) :
  session es loaded = Some (tt, s) ->
  protocol false (hal_calls s) = Some (sBluetoothHfpClientInterface s).
Proof.
  intros E. apply (session_tidy es loaded s loaded_tidy E).
Qed.

(** X20: after any such session the file holds exactly one global
    reference when [mCallbacksObj] is set and none when it is not,
    [mCallbacksObj] is set only while the interface pointer is, and no
    array, string or local reference is left pinned. *)
Theorem session_leaks_no_reference (es : list (Answers * Entry)) (s : Bridge) :
  session es loaded = Some (tt, s) ->
  global_refs s = refs_of (mCallbacksObj s)
  /\ (is_Some (mCallbacksObj s) -> sBluetoothHfpClientInterface s = true)
  /\ pinned_arrays s = 0 /\ pinned_strings s = 0 /\ local_refs s = 0.
Proof.
  intros E. apply (session_tidy es loaded s loaded_tidy E).
Qed.

(** X21: while the interface pointer is null every command native
    answers [JNI_FALSE] and does nothing else: nothing pinned, nothing
    thrown, no call of the interface. *)
Theorem commands_need_the_interface (ans : Answers) (c : Command) (s : Bridge) :
  sBluetoothHfpClientInterface s = false ->
  sMethods ans c s = Some (false, s).
Proof.
  open_bridge s. cbn. intros ->. destruct c; reflexivity.
Qed.

(** X22: with the interface pointer set and the address elements
    pinned, a command native makes exactly its one call of the interface,
    with the address (and the string's characters where it got them),
    answers [JNI_TRUE] exactly when that call returned
    [BT_STATUS_SUCCESS], and has released whatever it pinned.  The one
    exception is [sendDtmfNative] as [sMethods] enters it: registered as
    ["([BB)Z"] and declared [(jbyte code, jbyteArray address)], it asks
    for the elements of what is the code byte and never reaches the
    interface, while the function entered with its arguments as declared
    does what the others do. *)
Theorem command_reaches_the_interface (ans : Answers) (c : Command)
    (s : Bridge) :
  sBluetoothHfpClientInterface s = true ->
  elements_got ans = true ->
  sMethods ans c s =
  (if crossed c then None
   else
     Some (succeeded (hal_status ans),
           set_hal_calls
             (hal_calls s ++ [hal_call_of c (utf_chars_got ans)]) s))
  /\ forall code address,
       sendDtmfNative ans code (reference_to address) s =
       Some (succeeded (hal_status ans),
             set_hal_calls (hal_calls s ++ [hal_send_dtmf address code]) s).
Proof.
  open_bridge s. cbn. intros -> G. split.
  - destruct c; bridge; rewrite G; bridge; try reflexivity;
      match goal with
      | o : option string |- _ =>
          destruct o; bridge; destruct (utf_chars_got ans); reflexivity
      end.
  - intros code address. bridge. rewrite G. reflexivity.
Qed.

(** X23: with the interface pointer set, a command native that cannot
    pin the address elements throws one [IOException(EINVAL)], answers
    [JNI_FALSE] and does not call the interface. *)
Theorem command_without_elements_throws (ans : Answers) (c : Command)
    (s : Bridge) :
  sBluetoothHfpClientInterface s = true ->
  elements_got ans = false ->
  sMethods ans c s = Some (false, set_thrown (thrown s ++ [EINVAL]) s).
Proof.
  open_bridge s. cbn. intros -> G.
  destruct c; bridge; rewrite G; reflexivity.
Qed.

(** X24: a callback whose [CallbackEnv] is not valid, or whose byte
    array for the address cannot be made, returns without a call into
    Java and without any other trace. *)
Theorem callback_that_cannot_report (ans : Answers) (cb : Callback)
    (s : Bridge) :
  callback_env_valid ans = false
  \/ (needs_byte_array cb = true /\ byte_array_made ans = false) ->
  sBluetoothHfpClientCallbacks ans cb s = Some (tt, s).
Proof.
  intros [V | [N A]].
  - destruct cb; bridge; rewrite V; reflexivity.
  - destruct cb; try discriminate N; bridge;
      destruct (callback_env_valid ans); bridge; rewrite ?A; reflexivity.
Qed.

(** X25: otherwise a callback makes exactly one call into Java, on
    [mCallbacksObj] as it is at that moment (null included: no callback
    checks it), with the method ID of its own method, and leaves no local
    reference behind, whether [NewStringUTF] gave a string or null. *)
Theorem callback_reports_once (ans : Answers) (cb : Callback) (s : Bridge) :
  callback_env_valid ans = true ->
  (needs_byte_array cb = true -> byte_array_made ans = true) ->
  exists args,
    sBluetoothHfpClientCallbacks ans cb s =
    Some (tt,
          set_java_calls
            (java_calls s ++
             [{| receiver := mCallbacksObj s;
                 method_id :=
                   if bool_decide (method_of cb ∈ method_ids s)
                   then Some (method_of cb) else None;
                 arguments := args |}]) s).
Proof.
  intros V A. open_bridge s.
  destruct cb; bridge; rewrite V; bridge;
    try (eexists; reflexivity);
    try (rewrite (A eq_refl); bridge; eexists; reflexivity);
    destruct (string_made ans); bridge; eexists; reflexivity.
Qed.

(** X26: [connection_state_cb] hands over the six octets of the
    address, the state, and both feature masks bit for bit: the [jint]
    that Java gets is in range and equals the [unsigned int] modulo
    2^32. *)
Theorem connection_state_cb_passes_address_and_masks (ans : Answers)
    (bd_addr : Payload) (state peer_feat chld_feat : Z) (s : Bridge) :
  callback_env_valid ans = true ->
  byte_array_made ans = true ->
  length bd_addr = sizeof_bt_bdaddr_t ->
  (0 <= peer_feat < 2 ^ 32)%Z ->
  (0 <= chld_feat < 2 ^ 32)%Z ->
  exists s' call peer chld,
    connection_state_cb ans bd_addr state peer_feat chld_feat s = Some (tt, s')
    /\ java_calls s' = java_calls s ++ [call]
    /\ arguments call = [Jint state; Jint peer; Jint chld; Jbytes bd_addr]
    /\ (- 2 ^ 31 <= peer < 2 ^ 31)%Z /\ (peer mod 2 ^ 32 = peer_feat)%Z
    /\ (- 2 ^ 31 <= chld < 2 ^ 31)%Z /\ (chld mod 2 ^ 32 = chld_feat)%Z.
Proof.
  intros V A L P C. open_bridge s.
  destruct (jint_of_unsigned_keeps_the_bits peer_feat P) as [P1 P2].
  destruct (jint_of_unsigned_keeps_the_bits chld_feat C) as [C1 C2].
  unfold sizeof_bt_bdaddr_t in L.
  do 7 (destruct bd_addr as [|? bd_addr]; try discriminate L).
  unfold connection_state_cb. rewrite V. bridge. rewrite A. bridge.
  eexists _, _, (jint_of_unsigned peer_feat), (jint_of_unsigned chld_feat).
  split; [reflexivity|]. cbn.
  split; [reflexivity|].
  split; [reflexivity|auto].
Qed.

Lemma found_by_classInitNative (found : Method -> bool) (m : Method) :
  bool_decide (m ∈ filter (fun m => found m = true) all_methods) = found m.
Proof.
  destruct (found m) eqn:F.
  - apply bool_decide_eq_true_2, list_elem_of_filter.
    split; [exact F | apply all_methods_complete].
  - apply bool_decide_eq_false_2. intros [F' _]%list_elem_of_filter.
    congruence.
Qed.

(** X27: [classInitNative] fills the ID of every method a callback
    uses: after it, the call a callback makes carries the ID of the
    callback's method exactly when the class has that method, and a null
    ID otherwise. *)
Theorem callbacks_use_the_ids_of_classInitNative (found : Method -> bool)
    (ans : Answers) (cb : Callback) (s : Bridge) :
  callback_env_valid ans = true ->
  (needs_byte_array cb = true -> byte_array_made ans = true) ->
  exists s1 s2 call,
    classInitNative found s = Some (tt, s1)
    /\ sBluetoothHfpClientCallbacks ans cb s1 = Some (tt, s2)
    /\ java_calls s2 = java_calls s ++ [call]
    /\ receiver call = mCallbacksObj s
    /\ method_id call =
       if found (method_of cb) then Some (method_of cb) else None.
Proof.
  intros V A.
  pose proof (found_by_classInitNative found (method_of cb)) as F.
  unfold classInitNative, modify.
  exists (set_method_ids (filter (fun m => found m = true) all_methods) s).
  generalize dependent (filter (fun m => found m = true) all_methods).
  intros ids' F. open_bridge s.
  destruct cb; bridge; rewrite V; bridge;
    try rewrite (A eq_refl); bridge;
    try destruct (string_made ans); bridge;
    (eexists _, _; split; [reflexivity|]; split; [reflexivity|]; cbn;
     rewrite F; auto).
Qed.

(** X28: on a bridge that is down, an [initializeNative] to which
    everything is granted sets the interface pointer and holds one new
    global reference to its object; a [cleanupNative] after it gives back
    the bridge as it was, with [init] and [cleanup] added to the calls of
    the interface and the global reference deleted. *)
Theorem cleanupNative_undoes_initializeNative (ans ans' : Answers)
    (object : jobject) (s : Bridge) :
  sBluetoothHfpClientInterface s = false ->
  mCallbacksObj s = None ->
  bluetooth_loaded ans = true ->
  profile_found ans = true ->
  hal_status ans = BT_STATUS_SUCCESS ->
  global_ref_made ans = true ->
  bluetooth_loaded ans' = true ->
  exists s1,
    initializeNative ans object s = Some (tt, s1)
    /\ sBluetoothHfpClientInterface s1 = true
    /\ mCallbacksObj s1 = Some object
    /\ global_refs s1 = object :: global_refs s
    /\ cleanupNative ans' s1 =
       Some (tt, set_hal_calls (hal_calls s ++ [hal_init true; hal_cleanup]) s).
Proof.
  open_bridge s. cbn. intros -> -> B F S G B'.
  bridge. rewrite B, F, S, B'. bridge. rewrite G.
  eexists; split; [reflexivity|]. cbn.
  rewrite bool_decide_eq_true_2 by reflexivity.
  rewrite <- app_assoc. auto.
Qed.

(** X29: an [initializeNative] that finds the Bluetooth module but not
    the profile interface, or whose [init] fails, leaves the bridge down
    whatever it was before: pointer and [mCallbacksObj] are null and every
    command native answers [JNI_FALSE]. *)
Theorem failed_initializeNative_leaves_the_bridge_down (ans ans' : Answers)
    (object : jobject) (c : Command) (s : Bridge) :
  bluetooth_loaded ans = true ->
  profile_found ans = false \/ succeeded (hal_status ans) = false ->
  exists s',
    initializeNative ans object s = Some (tt, s')
    /\ sBluetoothHfpClientInterface s' = false
    /\ mCallbacksObj s' = None
    /\ sMethods ans' c s' = Some (false, s').
Proof.
  intros B F. open_bridge s.
  assert (D : forall s' : Bridge,
             sBluetoothHfpClientInterface s' = false ->
             sMethods ans' c s' = Some (false, s')).
  { intros [up' ? ? ? ? ? ? ? ? ?]. cbn. intros ->. destruct c; reflexivity. }
  unfold initializeNative. rewrite B. cbn [negb].
  destruct up, obj as [o|]; bridge;
    destruct F as [F|F]; rewrite ?F; bridge;
    try (eexists; split; [reflexivity|]; cbn;
         split; [reflexivity|]; split; [reflexivity|]; apply D; reflexivity);
    destruct (profile_found ans); bridge; rewrite ?F; bridge;
    (eexists; split; [reflexivity|]; cbn;
     split; [reflexivity|]; split; [reflexivity|]; apply D; reflexivity).
Qed.

(** X30: when [getBluetoothInterface()] returns null, both
    [initializeNative] and [cleanupNative] return without touching
    anything: a bridge that is up is not cleaned up. *)
Theorem nothing_without_the_bluetooth_module (ans : Answers) (object : jobject)
    (s : Bridge) :
  bluetooth_loaded ans = false ->
  initializeNative ans object s = Some (tt, s)
  /\ cleanupNative ans s = Some (tt, s).
Proof.
  intros B. unfold initializeNative, cleanupNative. rewrite B. split; reflexivity.
Qed.

(** ** The further properties at concrete inputs *)

(** X1 on a service that has just started. *)
Lemma unregistered_port_answers_at_start :
  @OpenDynamicChannel queue_end_asserts 1 peer_string (start [])
  = Some ((Psm_not_registered, None), start [])
  /\ CloseDynamicChannel 1 (start []) = Some (Psm_not_registered, start [])
  /\ @SetDynamicChannel queue_end_asserts false 1 (start [])
     = Some (Psm_not_registered, start [])
  /\ @SendDynamicChannelPacket queue_end_asserts 1 payload1 (start [])
     = Some (Psm_not_registered, start []).
Proof.
  destruct (@unregistered_port_answers queue_end_asserts (start []) 1 eq_refl)
    as (O & C & D & S).
  split; [apply O|]. split; [exact C|]. split; [exact D|].
  apply S. reflexivity.
Defined.

(** X2 at port 1 of a service that has just started. *)
Lemma SetDynamicChannel_enable_fresh_at_port_1 :
  exists w',
    @SetDynamicChannel queue_end_asserts true 1 (start []) = Some (Status_OK, w')
    /\ helper_at 1 w' = Some (@new_L2capDynamicChannelHelper queue_end_asserts 1)
    /\ (forall q, q <> 1%N -> helper_at q w' = helper_at q (start []))
    /\ l2cap_layer_ (facade w')
       = l2cap_layer_ (facade (start [])) ++ [RegisterService 1]
    /\ CloseDynamicChannel 1 w' = Some (Channel_not_open, w')
    /\ now_ms w' = now_ms (start []).
Proof.
  apply (@SetDynamicChannel_enable_fresh queue_end_asserts (start []) 1).
  reflexivity.
Defined.

(** X3 at port 1 with an open channel. *)
Lemma CloseDynamicChannel_open_at_port_1 :
  exists w',
    CloseDynamicChannel 1
      (world_with (helper_with 1 (Some (open_channel [] None))) [])
    = Some (Status_OK, w')
    /\ helper_at 1 w'
       = Some (put_channel_ (Some (Close (open_channel [] None)))
                 (helper_with 1 (Some (open_channel [] None))))
    /\ (forall q, q <> 1%N ->
          helper_at q w'
          = helper_at q
              (world_with (helper_with 1 (Some (open_channel [] None))) []))
    /\ now_ms w'
       = now_ms (world_with (helper_with 1 (Some (open_channel [] None))) [])
    /\ exists w'', CloseDynamicChannel 1 w' = Some (Status_OK, w'').
Proof.
  apply (CloseDynamicChannel_open
           (world_with (helper_with 1 (Some (open_channel [] None))) []) 1
           (helper_with 1 (Some (open_channel [] None)))
           (open_channel [] None));
    reflexivity.
Defined.

(** X4 at port 1: the promise is set after 100 ms and the call takes over
    there. *)
Lemma SendDynamicChannelPacket_accepted_at_port_1 :
  exists w',
    @SendDynamicChannelPacket queue_end_asserts 1 payload1
      (world_with (helper_with 1 (Some (open_channel [] None)))
         [(100, do_enqueue_callback_begin 1 payload1 0);
          (0, do_enqueue_callback_end 1
                (@RawBuilder_AddOctets queue_end_asserts 2000 payload1))])
    = Some (Status_OK, w')
    /\ now_ms w' = 0 + 100
    /\ outbound_slot 1 w' = None
    /\ agenda w'
       = [(0, do_enqueue_callback_end 1
                (@RawBuilder_AddOctets queue_end_asserts 2000 payload1))]
    /\ outbound_units 1 w' = Some []
    /\ exists w'',
         @run_activity queue_end_asserts
           (do_enqueue_callback_end 1
              (@RawBuilder_AddOctets queue_end_asserts 2000 payload1)) w'
         = Some (tt, w'')
         /\ outbound_units 1 w''
            = Some ([] ++ [@RawBuilder_AddOctets queue_end_asserts 2000 payload1]).
Proof.
  destruct (@SendDynamicChannelPacket_accepted queue_end_asserts
              (world_with (helper_with 1 (Some (open_channel [] None)))
                 [(100, do_enqueue_callback_begin 1 payload1 0);
                  (0, do_enqueue_callback_end 1
                        (@RawBuilder_AddOctets queue_end_asserts 2000 payload1))])
              1 (helper_with 1 (Some (open_channel [] None)))
              (open_channel [] None) payload1
              (do_enqueue_callback_begin 1 payload1 0) 100
              [(0, do_enqueue_callback_end 1
                     (@RawBuilder_AddOctets queue_end_asserts 2000 payload1))]
              eq_refl eq_refl eq_refl eq_refl (not_elem_of_nil _) eq_refl
              ltac:(lia) (or_intror eq_refl))
    as (w' & E & T & S & A & U & R).
  exists w'. split; [exact E|]. split; [exact T|]. split; [exact S|].
  split; [exact A|]. split; [exact U|]. apply R. reflexivity.
Defined.

(** X5 at port 1 with nothing on the agenda. *)
Lemma timed_out_Send_is_still_sent_at_port_1 :
  exists w' w'',
    @SendDynamicChannelPacket queue_end_asserts 1 payload1
      (world_with (helper_with 1 (Some (open_channel [] None))) [])
    = Some (Channel_not_open, w')
    /\ outbound_slot 1 w' = Some (payload1, 0)
    /\ outbound_units 1 w' = Some []
    /\ @run_activity queue_end_asserts (do_enqueue_callback 1 payload1 0) w'
       = Some (tt, w'')
    /\ outbound_slot 1 w'' = None
    /\ outbound_units 1 w''
       = Some ([] ++ [@RawBuilder_AddOctets queue_end_asserts 2000 payload1]).
Proof.
  apply (@timed_out_Send_is_still_sent queue_end_asserts
           (world_with (helper_with 1 (Some (open_channel [] None))) [])
           1 (helper_with 1 (Some (open_channel [] None)))
           (open_channel [] None) payload1);
    try reflexivity.
  apply not_elem_of_nil.
Defined.

(** X6 at port 1: the Connect is refused after 100 ms. *)
Lemma Connect_refused_waits_out_at_port_1 :
  exists w',
    @OpenDynamicChannel queue_end_asserts 1 peer_string
      (world_with (helper_with 1 None) [(100, do_connect_fail 1 refused)])
    = Some ((Status_OK, Some (l2cap_connection_response_result refused)), w')
    /\ now_ms w' = 0 + 2000
    /\ channel_is_open 1 w' = false
    /\ (channel_open_fail_reason_ <$> helper_at 1 w') = Some refused.
Proof.
  apply (@Connect_refused_waits_out queue_end_asserts
           (world_with (helper_with 1 None) [(100, do_connect_fail 1 refused)])
           1 peer_string 212062951047169%N (helper_with 1 None) 100 refused []);
    try reflexivity.
  lia.
Defined.

(** X7 at port 1: the channel is assigned after 100 ms and the call takes
    over there. *)
Lemma Connect_opens_returns_early_at_port_1 :
  exists r w',
    @OpenDynamicChannel queue_end_asserts 1 peer_string
      (world_with (helper_with 1 None)
         [(100, do_connection_open_begin 1 fresh_channel);
          (0, do_connection_open_end 1)])
    = Some ((Status_OK, r), w')
    /\ now_ms w' = 0 + 100
    /\ agenda w' = [(0, do_connection_open_end 1)]
    /\ l2cap_layer_ (facade w')
       = [RegisterService 1] ++ [ConnectChannel 212062951047169%N 1]
    /\ channel_at 1 w' = Some fresh_channel
    /\ exists w'',
         @run_activity queue_end_asserts (do_connection_open_end 1) w'
         = Some (tt, w'')
         /\ channel_at 1 w''
            = Some (RegisterDequeue (RegisterOnCloseCallback fresh_channel)).
Proof.
  destruct (@Connect_opens_returns_early queue_end_asserts
              (world_with (helper_with 1 None)
                 [(100, do_connection_open_begin 1 fresh_channel);
                  (0, do_connection_open_end 1)])
              1 peer_string 212062951047169%N (helper_with 1 None)
              (do_connection_open_begin 1 fresh_channel) 100 fresh_channel
              [(0, do_connection_open_end 1)]
              eq_refl eq_refl eq_refl eq_refl eq_refl
              ltac:(lia) (or_intror eq_refl))
    as (r & w' & E & T & A & L & C & R).
  exists r, w'. split; [exact E|]. split; [exact T|]. split; [exact A|].
  split; [exact L|]. split; [exact C|]. apply R. reflexivity.
Defined.

(** X8 at port 1 with an open channel. *)
Lemma Connect_on_open_channel_returns_at_once_at_port_1 :
  exists w',
    @OpenDynamicChannel queue_end_asserts 1 peer_string
      (world_with (helper_with 1 (Some (open_channel [] None))) [])
    = Some ((Status_OK, Some 0%Z), w')
    /\ now_ms w' = 0
    /\ agenda w' = []
    /\ helper_at 1 w' = Some (helper_with 1 (Some (open_channel [] None)))
    /\ l2cap_layer_ (facade w')
       = [RegisterService 1] ++ [ConnectChannel 212062951047169%N 1].
Proof.
  apply (@Connect_on_open_channel_returns_at_once queue_end_asserts
           (world_with (helper_with 1 (Some (open_channel [] None))) [])
           1 peer_string 212062951047169%N
           (helper_with 1 (Some (open_channel [] None)))
           (open_channel [] None));
    reflexivity.
Defined.

(** X9 at port 1 with an open channel. *)
Lemma on_connect_fail_drops_an_open_channel_at_port_1 :
  exists w' h',
    @run_activity queue_end_asserts (do_connect_fail 1 refused)
      (world_with (helper_with 1 (Some (open_channel [] None))) [])
    = Some (tt, w')
    /\ helper_at 1 w' = Some h'
    /\ channel_ h' = None
    /\ channel_open_fail_reason_ h' = refused
    /\ channel_is_open 1 w' = false
    /\ CloseDynamicChannel 1 w' = Some (Channel_not_open, w').
Proof.
  apply (@on_connect_fail_drops_an_open_channel queue_end_asserts
           (world_with (helper_with 1 (Some (open_channel [] None))) [])
           1 (helper_with 1 (Some (open_channel [] None)))
           (open_channel [] None) refused);
    reflexivity.
Defined.

(** X10 at port 1, registered and without a channel. *)
Lemma callbacks_need_a_channel_at_port_1 :
  @run_activity queue_end_asserts (do_close_callback 1 0%Z)
    (world_with (helper_with 1 None) []) = None
  /\ @run_activity queue_end_asserts (do_incoming_packet 1)
       (world_with (helper_with 1 None) []) = None
  /\ @run_activity queue_end_asserts (do_enqueue_callback 1 payload1 0)
       (world_with (helper_with 1 None) []) = None
  /\ CloseDynamicChannel 1 (world_with (helper_with 1 None) [])
     = Some (Channel_not_open, world_with (helper_with 1 None) []).
Proof.
  destruct (@callbacks_need_a_channel queue_end_asserts
              (world_with (helper_with 1 None) []) 1 (helper_with 1 None)
              eq_refl eq_refl) as (C & I & E & D).
  split; [apply C|]. split; [exact I|]. split; [apply E | exact D].
Defined.

(** X11 at port 1 before its registration has completed. *)
Lemma DisablePort_needs_the_service_at_port_1 :
  @SetDynamicChannel queue_end_asserts false 1
    (world_with (@new_L2capDynamicChannelHelper queue_end_asserts 1) []) = None
  /\ @run_activity queue_end_asserts
       (do_registration_complete 1 (RegistrationResult_other 1)
          {| unregister_requested := false |})
       (world_with (@new_L2capDynamicChannelHelper queue_end_asserts 1) [])
     = Some (tt, world_with (@new_L2capDynamicChannelHelper queue_end_asserts 1) [])
  /\ exists w',
       @run_activity queue_end_asserts
         (do_registration_complete 1 SUCCESS {| unregister_requested := false |})
         (world_with (@new_L2capDynamicChannelHelper queue_end_asserts 1) [])
       = Some (tt, w')
       /\ exists w'',
            @SetDynamicChannel queue_end_asserts false 1 w' = Some (Status_OK, w'').
Proof.
  destruct (@DisablePort_needs_the_service queue_end_asserts
              (world_with (@new_L2capDynamicChannelHelper queue_end_asserts 1) []) 1
              (@new_L2capDynamicChannelHelper queue_end_asserts 1) eq_refl eq_refl)
    as (D & F & S).
  split; [exact D|]. split; [apply F | apply S].
Defined.

(** X13 at port 1: the channel is assigned after 100 ms, the rest of
    [on_connection_open] follows, and the promise is set 50 ms later,
    where the call takes over. *)
Lemma Send_waits_for_the_channel_at_port_1 :
  exists w',
    @SendDynamicChannelPacket queue_end_asserts 1 payload1
      (world_with (helper_with 1 None)
         [(100, do_connection_open_begin 1 fresh_channel);
          (0, do_connection_open_end 1);
          (50, do_enqueue_callback_begin 1 payload1 0)])
    = Some (Status_OK, w')
    /\ now_ms w' = 0 + 100 + 50
    /\ agenda w' = []
    /\ outbound_slot 1 w' = None
    /\ outbound_units 1 w' = Some (tx_buffer fresh_channel ++ []).
Proof.
  apply (@Send_waits_for_the_channel queue_end_asserts
           (world_with (helper_with 1 None)
              [(100, do_connection_open_begin 1 fresh_channel);
               (0, do_connection_open_end 1);
               (50, do_enqueue_callback_begin 1 payload1 0)])
           1 (helper_with 1 None) payload1 100 fresh_channel 50
           (do_enqueue_callback_begin 1 payload1 0) []);
    try reflexivity.
  - apply not_elem_of_nil.
  - right. reflexivity.
  - right. reflexivity.
  - lia.
  - lia.
Defined.

(** X14 at port 1 with two units buffered. *)
Lemma on_incoming_packet_publishes_in_order_at_port_1 :
  exists w',
    @run queue_end_asserts
      (replicate (length [payload1; payload2]) (happens (do_incoming_packet 1)))
      (world_with (helper_with 1 (Some (open_channel [payload1; payload2] None))) [])
    = Some (tt, w')
    /\ inbound_units 1 w' = Some []
    /\ pending (relay w')
       = [] ++ map (fun u => {| psm := 1; payload := u |}) [payload1; payload2]
    /\ published (relay w')
       = [] ++ map (fun u => {| psm := 1; payload := u |}) [payload1; payload2]
    /\ written (relay w') = [].
Proof.
  apply (@on_incoming_packet_publishes_in_order queue_end_asserts
           [payload1; payload2]
           (world_with
              (helper_with 1 (Some (open_channel [payload1; payload2] None))) [])
           1 (helper_with 1 (Some (open_channel [payload1; payload2] None)))
           (open_channel [payload1; payload2] None) []);
    reflexivity.
Defined.

(** X16 at port 1: the port is disabled and its channel closed. *)
Lemma registry_never_shrinks_at_port_1 :
  exists w',
    @run queue_end_asserts
      [call_SetDynamicChannel false 1; call_CloseDynamicChannel 1;
       happens (do_close_callback 1 0%Z)]
      (world_with (helper_with 1 (Some (open_channel [] None))) [])
    = Some (tt, w')
    /\ exists h',
         helper_at 1 w' = Some h'
         /\ psm_ h' = psm_ (helper_with 1 (Some (open_channel [] None))).
Proof.
  eexists. split; [vm_compute; reflexivity|].
  eapply (@registry_never_shrinks queue_end_asserts
            [call_SetDynamicChannel false 1; call_CloseDynamicChannel 1;
             happens (do_close_callback 1 0%Z)]
            (world_with (helper_with 1 (Some (open_channel [] None))) []));
    [vm_compute; reflexivity | reflexivity].
Defined.

(** X17 after the history of two ports. *)
Lemma run_keyed_after_two_ports :
  exists w h,
    @run queue_end_asserts two_ports (start []) = Some (tt, w)
    /\ helper_at 2 w = Some h
    /\ psm_ h = 2%N.
Proof.
  eexists _, _. split; [vm_compute; reflexivity|].
  split; [vm_compute; reflexivity|].
  eapply (@run_keyed queue_end_asserts two_ports []); vm_compute; reflexivity.
Defined.

(** X18 after the history of two ports. *)
Lemma run_at_rest_after_two_ports :
  exists w,
    @run queue_end_asserts two_ports (start []) = Some (tt, w)
    /\ channel_map_mutex_ (facade w) = false
    /\ forall p h, helper_at p w = Some h -> channel_open_cv_mutex_ h = false.
Proof.
  eexists. split; [vm_compute; reflexivity|].
  eapply (@run_at_rest queue_end_asserts two_ports []); vm_compute; reflexivity.
Defined.

(** X21: a dial before any [initializeNative]. *)
Lemma commands_need_the_interface_when_loaded :
  sMethods granted (cmd_dial peer_octets (Some "112"%string)) loaded
  = Some (false, loaded).
Proof.
  apply (commands_need_the_interface granted
           (cmd_dial peer_octets (Some "112"%string)) loaded).
  reflexivity.
Defined.

(** X19 on a session. *)
Lemma session_keeps_the_interface_protocol_in_one_session :
  exists s,
    session one_session loaded = Some (tt, s)
    /\ protocol false (hal_calls s) = Some (sBluetoothHfpClientInterface s).
Proof.
  eexists. split; [vm_compute; reflexivity|].
  apply (session_keeps_the_interface_protocol one_session).
  vm_compute. reflexivity.
Defined.

(** X20 on a session. *)
Lemma session_leaks_no_reference_in_one_session :
  exists s,
    session one_session loaded = Some (tt, s)
    /\ global_refs s = refs_of (mCallbacksObj s)
    /\ (is_Some (mCallbacksObj s) -> sBluetoothHfpClientInterface s = true)
    /\ pinned_arrays s = 0 /\ pinned_strings s = 0 /\ local_refs s = 0.
Proof.
  eexists. split; [vm_compute; reflexivity|].
  apply (session_leaks_no_reference one_session).
  vm_compute. reflexivity.
Defined.

(** X22: a dial on a working bridge, refused by the interface; and the
    DTMF code 49 as [sMethods] enters the native and as the native is
    declared. *)
Lemma command_reaches_the_interface_with_a_dial :
  sMethods (answering true true true (BT_STATUS_other 1))
    (cmd_dial peer_octets (Some "112"%string)) (working 7)
  = Some (false,
          set_hal_calls
            ([hal_init true] ++ [hal_dial peer_octets (Some "112"%string)])
            (working 7))
  /\ sMethods granted (cmd_sendDtmf peer_octets 49) (working 7) = None
  /\ sendDtmfNative granted 49 (reference_to peer_octets) (working 7)
     = Some (true,
             set_hal_calls ([hal_init true] ++ [hal_send_dtmf peer_octets 49])
               (working 7)).
Proof.
  split; [|split].
  - apply (proj1 (command_reaches_the_interface
                    (answering true true true (BT_STATUS_other 1))
                    (cmd_dial peer_octets (Some "112"%string)) (working 7)
                    eq_refl eq_refl)).
  - apply (proj1 (command_reaches_the_interface granted
                    (cmd_sendDtmf peer_octets 49) (working 7)
                    eq_refl eq_refl)).
  - apply (proj2 (command_reaches_the_interface granted
                    (cmd_sendDtmf peer_octets 49) (working 7)
                    eq_refl eq_refl)).
Defined.

(** X23: a connect whose address cannot be pinned. *)
Lemma command_without_elements_throws_on_connect :
  sMethods (answering true false true BT_STATUS_SUCCESS)
    (cmd_connect peer_octets) (working 7)
  = Some (false, set_thrown ([] ++ [EINVAL]) (working 7)).
Proof.
  apply (command_without_elements_throws
           (answering true false true BT_STATUS_SUCCESS)
           (cmd_connect peer_octets) (working 7));
    reflexivity.
Defined.

(** X24: a ring indication without a valid environment. *)
Lemma callback_that_cannot_report_a_ring :
  sBluetoothHfpClientCallbacks (answering true true false BT_STATUS_SUCCESS)
    (cb_ring_indication peer_octets) (working 7)
  = Some (tt, working 7).
Proof.
  apply (callback_that_cannot_report
           (answering true true false BT_STATUS_SUCCESS)
           (cb_ring_indication peer_octets) (working 7)).
  left. reflexivity.
Defined.

(** X25: the operator name on a working bridge. *)
Lemma callback_reports_once_the_operator :
  exists args,
    sBluetoothHfpClientCallbacks granted
      (cb_current_operator peer_octets "operator"%string) (working 7)
    = Some (tt,
            set_java_calls
              ([] ++
               [{| receiver := Some 7;
                   method_id :=
                     if bool_decide (onCurrentOperator ∈ all_methods)
                     then Some onCurrentOperator else None;
                   arguments := args |}]) (working 7)).
Proof.
  apply (callback_reports_once granted
           (cb_current_operator peer_octets "operator"%string) (working 7)).
  - reflexivity.
  - intros N. discriminate N.
Defined.

(** X26: a connection with every bit of the peer's feature mask set. *)
Lemma connection_state_cb_passes_all_bits :
  exists s' call peer chld,
    connection_state_cb granted peer_octets 2 4294967295 63 (working 7)
    = Some (tt, s')
    /\ java_calls s' = [] ++ [call]
    /\ arguments call = [Jint 2; Jint peer; Jint chld; Jbytes peer_octets]
    /\ (- 2 ^ 31 <= peer < 2 ^ 31)%Z /\ (peer mod 2 ^ 32 = 4294967295)%Z
    /\ (- 2 ^ 31 <= chld < 2 ^ 31)%Z /\ (chld mod 2 ^ 32 = 63)%Z.
Proof.
  apply (connection_state_cb_passes_address_and_masks granted peer_octets 2
           4294967295 63 (working 7));
    try reflexivity; lia.
Defined.

(** X27: a class that has every method but [onRingIndication]. *)
Lemma callbacks_use_the_ids_of_a_class_without_onRingIndication :
  exists s1 s2 call,
    classInitNative
      (fun m => match m with onRingIndication => false | _ => true end) loaded
    = Some (tt, s1)
    /\ sBluetoothHfpClientCallbacks granted (cb_ring_indication peer_octets) s1
       = Some (tt, s2)
    /\ java_calls s2 = [] ++ [call]
    /\ receiver call = None
    /\ method_id call = None.
Proof.
  apply (callbacks_use_the_ids_of_classInitNative
           (fun m => match m with onRingIndication => false | _ => true end)
           granted (cb_ring_indication peer_octets) loaded).
  - reflexivity.
  - intros N. discriminate N.
Defined.

(** X28 on the bridge as it is loaded. *)
Lemma cleanupNative_undoes_initializeNative_when_loaded :
  exists s1,
    initializeNative granted 7 loaded = Some (tt, s1)
    /\ sBluetoothHfpClientInterface s1 = true
    /\ mCallbacksObj s1 = Some 7
    /\ global_refs s1 = [7]
    /\ cleanupNative granted s1
       = Some (tt, set_hal_calls ([] ++ [hal_init true; hal_cleanup]) loaded).
Proof.
  apply (cleanupNative_undoes_initializeNative granted granted 7 loaded);
    reflexivity.
Defined.

(** X29: a second [initializeNative] on a working bridge whose [init]
    fails. *)
Lemma failed_initializeNative_takes_a_working_bridge_down :
  exists s',
    initializeNative (answering true true true (BT_STATUS_other 1)) 8 (working 7)
    = Some (tt, s')
    /\ sBluetoothHfpClientInterface s' = false
    /\ mCallbacksObj s' = None
    /\ sMethods granted (cmd_connect peer_octets) s' = Some (false, s').
Proof.
  apply (failed_initializeNative_leaves_the_bridge_down
           (answering true true true (BT_STATUS_other 1)) granted 8
           (cmd_connect peer_octets) (working 7)).
  - reflexivity.
  - right. reflexivity.
Defined.

(** X30 on a working bridge. *)
Lemma nothing_without_the_bluetooth_module_on_a_working_bridge :
  initializeNative (answering false true true BT_STATUS_SUCCESS) 8 (working 7)
  = Some (tt, working 7)
  /\ cleanupNative (answering false true true BT_STATUS_SUCCESS) (working 7)
     = Some (tt, working 7).
Proof.
  apply (nothing_without_the_bluetooth_module
           (answering false true true BT_STATUS_SUCCESS) 8 (working 7)).
  reflexivity.
Defined.
